(** * VTAuder: the chatbox message pipeline of [main.py]

    A shallow embedding of the outbound message queue of [VTAuderApp]
    ([validate_message], [add_message_to_queue], [_process_message_queue],
    [_send_message_direct], [get_queue_status]), of the OSC sender
    [VRChatOSCClient.send_chat_message] and of the music animation
    ([start_music_animation], [stop_music_animation],
    [animate_music_status]), followed by the properties of the
    specification stated over it.  Further parts of the application are
    embedded after these: the time stamp and the speech buffer, the
    gesture handler and the recogniser of [steamvr_gesture.py], the reading
    of window titles, the DVD animation, the song poller with
    [select_window] and [send_vrchat_message], and [send_music_info] and
    the Spotify tracker of [vrchat.py].

    Conventions of the embedding.
    - A Python [str] is the list of its Unicode code points.
    - A reading of [time.time()] is an integer number of microseconds;
      1.5 s is [1500000] and 30 s is [30000000].  Tk's clock and the delays
      given to [root.after] are integer milliseconds.
    - The object [self] is a record; a method takes it and returns the
      updated record next to its Python result.
    - What the environment decides during a call (clock readings, the OSC
      client found on [self.vrchat_integration], what the UDP socket does,
      what the widgets do) is gathered in a record [Env] handed to the
      method.
    - An exception is an instance of Python's class [Exception], carried as
      its text [str(e)].  [print] and the widget calls that [Env] does not
      mention return normally.
    - Handlers run one at a time, on the thread of the Tk event loop. *)

From Stdlib Require Import String Ascii DecimalString ZArith NArith List Bool Lia.
From Stdlib Require QArith.
Import ListNotations.

(** ** Python strings *)

Definition char := N.
Definition pystr := list char.

(** An ASCII literal as a Python string. *)
Definition py (s : string) : pystr :=
  map N_of_ascii (list_ascii_of_string s).

Definition NUL : char := 0%N.
Definition LF : char := 10%N.
Definition CR : char := 13%N.
Definition SPACE : char := 32%N.

(** [str.isspace] on one code point, the set used by [str.split()] and
    [str.strip()] without arguments: U+0009..U+000D, U+001C..U+0020, U+0085,
    U+00A0, U+1680, U+2000..U+200A, U+2028, U+2029, U+202F, U+205F,
    U+3000. *)
Definition isspace (c : char) : bool :=
  (((9 <=? c) && (c <=? 13)) || ((28 <=? c) && (c <=? 32))
   || (c =? 133) || (c =? 160) || (c =? 5760)
   || ((8192 <=? c) && (c <=? 8202))
   || (c =? 8232) || (c =? 8233) || (c =? 8239) || (c =? 8287)
   || (c =? 12288))%N.

(** [not s] for a string. *)
Definition is_empty {A : Type} (s : list A) : bool :=
  match s with [] => true | _ :: _ => false end.

Fixpoint lstrip (s : pystr) : pystr :=
  match s with
  | [] => []
  | c :: s' => if isspace c then lstrip s' else s
  end.

Definition rstrip (s : pystr) : pystr := rev (lstrip (rev s)).

(** [s.strip()] *)
Definition strip (s : pystr) : pystr := rstrip (lstrip s).

(** [s.split()]: the maximal runs of characters that are not whitespace,
    in order; never an empty word. *)
Fixpoint split (s : pystr) : list pystr :=
  match s with
  | [] => []
  | c :: s' =>
      if isspace c then split s'
      else match s' with
           | [] => [[c]]
           | d :: _ =>
               if isspace d then [c] :: split s'
               else match split s' with
                    | w :: ws => (c :: w) :: ws
                    | [] => [[c]]
                    end
           end
  end.

(** [sep.join(parts)] *)
Fixpoint join (sep : pystr) (parts : list pystr) : pystr :=
  match parts with
  | [] => []
  | w :: ws =>
      match ws with
      | [] => w
      | _ :: _ => w ++ sep ++ join sep ws
      end
  end.

(** [s.replace(c, '')] for a one-character [c]. *)
Definition remove_char (c : char) (s : pystr) : pystr :=
  filter (fun x => negb (x =? c)%N) s.

(** [s[:n]] for [n >= 0]. *)
Definition slice_to (n : nat) (s : pystr) : pystr := firstn n s.

Fixpoint starts_with (p s : pystr) : bool :=
  match p, s with
  | [], _ => true
  | _ :: _, [] => false
  | a :: p', b :: s' => (a =? b)%N && starts_with p' s'
  end.

(** [p in s] *)
Fixpoint contains (p s : pystr) : bool :=
  starts_with p s ||
  match s with
  | [] => false
  | _ :: s' => contains p s'
  end.

(** [s.lower()] on the letters A..Z.  S, P, A and M are the only code
    points other than s, p, a and m whose lower case holds one of these
    four letters, so the test ["spam" in str(e).lower()] is decided by this
    part of the case mapping. *)
Definition lower_char (c : char) : char :=
  if ((65 <=? c) && (c <=? 90))%N then (c + 32)%N else c.

Definition lower (s : pystr) : pystr := map lower_char s.

(** ** Class constants of [VTAuderApp] *)

Definition _max_queue_size : nat := 10.
Definition _min_interval : Z := 1500000.
Definition _max_message_length : nat := 144.

(** ** [validate_message] (main.py:109) *)

Definition validate_message (text : pystr) : bool * pystr :=
  if is_empty text || is_empty (strip text) then (false, py "Empty message")
  else
    let text := join (py " ") (split text) in
    let text :=
      if _max_message_length <? length text
      then slice_to (_max_message_length - 3) text ++ py "..."
      else text in
    let text := remove_char NUL text in
    let text := remove_char CR text in
    (true, text).

(** ** Collaborators and the application object *)

Local Open Scope Z_scope.

(** What a Python call does: it returns, or raises an [Exception] whose
    text is [e]. *)
Inductive outcome (A : Type) : Type :=
| Ok (a : A)
| Raise (e : pystr).

Arguments Ok {A} a.
Arguments Raise {A} e.

(** The values given for [message_type] in main.py. *)
Inductive MessageType : Type :=
| general | manual | stt | gesture | music | dvd.

(** [message_type.title()] *)
Definition title (t : MessageType) : pystr :=
  match t with
  | general => py "General"
  | manual => py "Manual"
  | stt => py "Stt"
  | gesture => py "Gesture"
  | music => py "Music"
  | dvd => py "Dvd"
  end.

(** The dict built at main.py:142. *)
Record MessageData : Type := {
  text : pystr;
  type : MessageType;
  timestamp : Z
}.

(** The callables handed to [root.after] by the modelled code:
    [self._process_message_queue] (main.py:172, 185),
    [lambda: self.animate_music_status(send_osc=True)] (main.py:258, 294,
    297) and the lambda of main.py:1082, which calls
    [start_music_animation] with the stored title and artist. *)
Inductive Callback : Type :=
| cb_process_message_queue
| cb_animate_music_status
| cb_resume_music_animation.

(** A callback pending in the Tk event loop. *)
Record Timer : Type := {
  after_id : nat;
  due : Z;
  callback : Callback
}.

(** One call of [_process_message_queue] that reached the sender: the
    reading [now] of that call, the text and the result of
    [_send_message_direct]. *)
Record SendAttempt : Type := {
  sent_at : Z;
  sent_text : pystr;
  sent_ok : bool
}.

(** [osc_client.send_chat_message] as seen by its caller. *)
Definition Sender := pystr -> outcome unit.

Record Env : Type := {
  (** [time.time()] at main.py:145, at main.py:162 and at main.py:196/202 *)
  time_enqueue : Z;
  time_drain : Z;
  time_send : Z;
  (** the clock of the Tk event loop, in ms *)
  tk_now : Z;
  (** [self.vrchat_integration.osc_client] (main.py:193): the client, or
      the exception of a failed attribute lookup *)
  osc_client : outcome Sender;
  (** what main.py:265-280 makes of [base_text]: time prefix, lyrics,
      window info and the status widget, or an exception raised there *)
  compose_status : pystr -> outcome pystr;
  (** what main.py:1048-1074 hands to [send_chatbox_message] for a piece
      of recognised speech: the speech buffer with its time prefix when the
      VRChat switch is on, nothing when it is off *)
  stt_message : pystr -> option pystr
}.

(** The fields of [self] read or written by the modelled methods, the
    pending [root.after] callbacks of [self.root], and what the methods did
    to their collaborators ([send_attempts], [chat_log]).  A missing
    attribute read with [getattr(self, name, default)] holds its default. *)
Record VTAuderApp : Type := {
  _last_chatbox_sent : Z;
  _chatbox_timeout : bool;
  _chatbox_timeout_until : Z;
  _message_queue : list MessageData;
  _queue_processing : bool;
  started : bool;
  _music_anim_running : bool;
  _music_anim_index : nat;
  _music_anim_title : pystr;
  _music_anim_artist : pystr;
  _music_anim_after_id : option nat;
  root_pending : list Timer;
  root_next_id : nat;
  send_attempts : list SendAttempt;
  chat_log : list pystr
}.

Definition set_last_chatbox_sent (v : Z) (a : VTAuderApp) : VTAuderApp :=
  Build_VTAuderApp v (_chatbox_timeout a) (_chatbox_timeout_until a)
    (_message_queue a) (_queue_processing a) (started a)
    (_music_anim_running a) (_music_anim_index a) (_music_anim_title a)
    (_music_anim_artist a) (_music_anim_after_id a) (root_pending a)
    (root_next_id a) (send_attempts a) (chat_log a).

Definition set_chatbox_timeout (v : bool) (u : Z) (a : VTAuderApp)
  : VTAuderApp :=
  Build_VTAuderApp (_last_chatbox_sent a) v u
    (_message_queue a) (_queue_processing a) (started a)
    (_music_anim_running a) (_music_anim_index a) (_music_anim_title a)
    (_music_anim_artist a) (_music_anim_after_id a) (root_pending a)
    (root_next_id a) (send_attempts a) (chat_log a).

Definition set_message_queue (v : list MessageData) (a : VTAuderApp)
  : VTAuderApp :=
  Build_VTAuderApp (_last_chatbox_sent a) (_chatbox_timeout a)
    (_chatbox_timeout_until a) v (_queue_processing a) (started a)
    (_music_anim_running a) (_music_anim_index a) (_music_anim_title a)
    (_music_anim_artist a) (_music_anim_after_id a) (root_pending a)
    (root_next_id a) (send_attempts a) (chat_log a).

Definition set_queue_processing (v : bool) (a : VTAuderApp) : VTAuderApp :=
  Build_VTAuderApp (_last_chatbox_sent a) (_chatbox_timeout a)
    (_chatbox_timeout_until a) (_message_queue a) v (started a)
    (_music_anim_running a) (_music_anim_index a) (_music_anim_title a)
    (_music_anim_artist a) (_music_anim_after_id a) (root_pending a)
    (root_next_id a) (send_attempts a) (chat_log a).

Definition set_music_anim_running (v : bool) (a : VTAuderApp) : VTAuderApp :=
  Build_VTAuderApp (_last_chatbox_sent a) (_chatbox_timeout a)
    (_chatbox_timeout_until a) (_message_queue a) (_queue_processing a)
    (started a) v (_music_anim_index a) (_music_anim_title a)
    (_music_anim_artist a) (_music_anim_after_id a) (root_pending a)
    (root_next_id a) (send_attempts a) (chat_log a).

Definition set_music_anim_index (v : nat) (a : VTAuderApp) : VTAuderApp :=
  Build_VTAuderApp (_last_chatbox_sent a) (_chatbox_timeout a)
    (_chatbox_timeout_until a) (_message_queue a) (_queue_processing a)
    (started a) (_music_anim_running a) v (_music_anim_title a)
    (_music_anim_artist a) (_music_anim_after_id a) (root_pending a)
    (root_next_id a) (send_attempts a) (chat_log a).

Definition set_music_anim_subject (t r : pystr) (a : VTAuderApp)
  : VTAuderApp :=
  Build_VTAuderApp (_last_chatbox_sent a) (_chatbox_timeout a)
    (_chatbox_timeout_until a) (_message_queue a) (_queue_processing a)
    (started a) (_music_anim_running a) (_music_anim_index a) t r
    (_music_anim_after_id a) (root_pending a)
    (root_next_id a) (send_attempts a) (chat_log a).

Definition set_music_anim_after_id (v : option nat) (a : VTAuderApp)
  : VTAuderApp :=
  Build_VTAuderApp (_last_chatbox_sent a) (_chatbox_timeout a)
    (_chatbox_timeout_until a) (_message_queue a) (_queue_processing a)
    (started a) (_music_anim_running a) (_music_anim_index a)
    (_music_anim_title a) (_music_anim_artist a) v (root_pending a)
    (root_next_id a) (send_attempts a) (chat_log a).

Definition set_root (p : list Timer) (n : nat) (a : VTAuderApp)
  : VTAuderApp :=
  Build_VTAuderApp (_last_chatbox_sent a) (_chatbox_timeout a)
    (_chatbox_timeout_until a) (_message_queue a) (_queue_processing a)
    (started a) (_music_anim_running a) (_music_anim_index a)
    (_music_anim_title a) (_music_anim_artist a) (_music_anim_after_id a)
    p n (send_attempts a) (chat_log a).

Definition set_send_attempts (v : list SendAttempt) (a : VTAuderApp)
  : VTAuderApp :=
  Build_VTAuderApp (_last_chatbox_sent a) (_chatbox_timeout a)
    (_chatbox_timeout_until a) (_message_queue a) (_queue_processing a)
    (started a) (_music_anim_running a) (_music_anim_index a)
    (_music_anim_title a) (_music_anim_artist a) (_music_anim_after_id a)
    (root_pending a) (root_next_id a) v (chat_log a).

Definition set_chat_log (v : list pystr) (a : VTAuderApp) : VTAuderApp :=
  Build_VTAuderApp (_last_chatbox_sent a) (_chatbox_timeout a)
    (_chatbox_timeout_until a) (_message_queue a) (_queue_processing a)
    (started a) (_music_anim_running a) (_music_anim_index a)
    (_music_anim_title a) (_music_anim_artist a) (_music_anim_after_id a)
    (root_pending a) (root_next_id a) (send_attempts a) v.

(** The object as the class body (main.py:98-107) and [__init__]
    (main.py:349) leave it. *)
Definition new_app : VTAuderApp := {|
  _last_chatbox_sent := 0;
  _chatbox_timeout := false;
  _chatbox_timeout_until := 0;
  _message_queue := [];
  _queue_processing := false;
  started := false;
  _music_anim_running := false;
  _music_anim_index := 0%nat;
  _music_anim_title := [];
  _music_anim_artist := [];
  _music_anim_after_id := None;
  root_pending := [];
  root_next_id := 0%nat;
  send_attempts := [];
  chat_log := []
|}.

(** ** The Tk timer service *)

(** [self.root.after(ms, cb)]: a fresh id, the callback due [ms] later. *)
Definition root_after (env : Env) (ms : Z) (cb : Callback) (self : VTAuderApp)
  : nat * VTAuderApp :=
  let id := root_next_id self in
  (id, set_root (root_pending self ++ [Build_Timer id (tk_now env + ms) cb])
         (S id) self).

(** [self.root.after_cancel(id)] *)
Definition root_after_cancel (id : nat) (self : VTAuderApp) : VTAuderApp :=
  set_root (filter (fun t => negb (after_id t =? id)%nat) (root_pending self))
    (root_next_id self) self.

(** ** [append_chat_log] (main.py:211) *)

Definition append_chat_log (line : pystr) (self : VTAuderApp) : VTAuderApp :=
  set_chat_log (chat_log self ++ [line]) self.

(** ** [_send_message_direct] (main.py:189) *)

(** The test of main.py:200 on [str(e)]. *)
Definition spam_detected (e : pystr) : bool :=
  contains (py "Timed out for spam") e || contains (py "spam") (lower e).

(** The [try] block up to the call of the sender (main.py:193-195): the
    attribute lookup, then [osc_client.send_chat_message(text)]. *)
Definition try_send (env : Env) (text : pystr) : outcome unit :=
  match osc_client env with
  | Ok client => client text
  | Raise e => Raise e
  end.

Definition _send_message_direct (env : Env) (self : VTAuderApp) (text : pystr)
  : bool * VTAuderApp :=
  match try_send env text with
  | Ok _ => (true, set_last_chatbox_sent (time_send env) self)
  | Raise e =>
      if spam_detected e
      then (false, set_chatbox_timeout true (time_send env + 30000000) self)
      else (false, self)
  end.

(** ** [_process_message_queue] (main.py:155) *)

(** The four ways the body can end: the [return] of line 158, the [return]
    of line 174, the end of the [if] block of lines 178-185 and the [else]
    of line 187. *)
Inductive DrainExit : Type :=
| exit_guard
| exit_retry
| exit_sent
| exit_else.

Definition _process_message_queue (env : Env) (self : VTAuderApp)
  : DrainExit * VTAuderApp :=
  if _queue_processing self || is_empty (A := MessageData) (_message_queue self)
  then (exit_guard, self)
  else
    let self := set_queue_processing true self in
    let now := time_drain env in
    if (_chatbox_timeout self && (now <? _chatbox_timeout_until self))
       || (now - _last_chatbox_sent self <? _min_interval)
    then
      let time_until_ready :=
        Z.max (if _chatbox_timeout self
               then _chatbox_timeout_until self - now else 0)
              (_min_interval - (now - _last_chatbox_sent self)) in
      let self :=
        snd (root_after env (Z.quot time_until_ready 1000)
               cb_process_message_queue self) in
      (exit_retry, set_queue_processing false self)
    else
      match _message_queue self with
      | message_data :: rest =>
          let self := set_message_queue rest self in
          let (success, self) :=
            _send_message_direct env self (text message_data) in
          let self :=
            set_send_attempts
              (send_attempts self
               ++ [Build_SendAttempt now (text message_data) success])
              self in
          let self :=
            if success
            then append_chat_log
                   (title (type message_data) ++ py ": " ++ text message_data)
                   self
            else self in
          let self :=
            snd (root_after env (Z.quot _min_interval 1000)
                   cb_process_message_queue self) in
          (exit_sent, self)
      | [] => (exit_else, set_queue_processing false self)
      end.

(** ** [add_message_to_queue] (main.py:127) and [send_chatbox_message] *)

Definition add_message_to_queue (env : Env) (self : VTAuderApp)
    (text : pystr) (message_type : MessageType) : bool * VTAuderApp :=
  let (is_valid, sanitized_text) := validate_message text in
  if negb is_valid then (false, self)
  else
    let self :=
      if (_max_queue_size <=? length (_message_queue self))%nat
      then set_message_queue (tl (_message_queue self)) self
      else self in
    let message_data :=
      Build_MessageData sanitized_text message_type (time_enqueue env) in
    let self := set_message_queue (_message_queue self ++ [message_data]) self in
    let self :=
      if negb (_queue_processing self)
      then snd (_process_message_queue env self)
      else self in
    (true, self).

Definition send_chatbox_message := add_message_to_queue.

(** ** [get_queue_status] (main.py:1093) *)

Definition str_of_nat (n : nat) : pystr :=
  py (NilEmpty.string_of_uint (Nat.to_uint n)).

Definition get_queue_status (self : VTAuderApp) : pystr :=
  let queue_size := length (_message_queue self) in
  let timeout_status :=
    if _chatbox_timeout self then py "TIMEOUT" else py "READY" in
  py "Queue: " ++ str_of_nat queue_size ++ py "/" ++ str_of_nat _max_queue_size
  ++ py " | Status: " ++ timeout_status.

(** ** [VRChatOSCClient.send_chat_message] (vrchat.py:161) *)

(** [udp] is [self.client.send_message]: what the UDP client does with an
    address and a chatbox message.  Both the normal end of the [try] block
    and the [except Exception] handler fall through to the end of the
    method. *)
Definition send_chat_message (udp : pystr -> pystr -> outcome unit) : Sender :=
  fun message =>
    match udp (py "/chatbox/input") message with
    | Ok _ => Ok tt
    | Raise _ => Ok tt
    end.

(** ** The music animation (main.py:231-297) *)

Definition MUSIC_ASCII_ANIMATION : pystr :=
  [64425; 1640; 1600; 64425; 64425; 1640; 1600; 64425; 1640; 1600; 64425;
   64425; 1640; 1600]%N.

Definition MUSIC_ANIMATION_INTERVAL : Z := 2000.

(** [s[a:b]] for [0 <= a <= b]. *)
Definition slice (a b : nat) (s : pystr) : pystr := firstn (b - a) (skipn a s).

(** The three glyphs of main.py:262-263. *)
Definition music_frame (index : nat) : pystr :=
  let ascii_anim := MUSIC_ASCII_ANIMATION in
  let idx := (index mod length ascii_anim)%nat in
  if (idx + 3 <=? length ascii_anim)%nat
  then slice idx (idx + 3) ascii_anim
  else skipn idx ascii_anim
       ++ slice 0 (3 - (length ascii_anim - idx)) ascii_anim.

(** The restart of main.py:257-258 and 293-294. *)
Definition restart_animation (env : Env) (ms : Z) (self : VTAuderApp)
  : VTAuderApp :=
  let self := set_music_anim_running true self in
  let (id, self) := root_after env ms cb_animate_music_status self in
  set_music_anim_after_id (Some id) self.

Definition animate_music_status (env : Env) (self : VTAuderApp)
    (send_osc : bool) : VTAuderApp :=
  (* try / except *)
  let self :=
    if negb (_music_anim_running self)
    then (if started self then restart_animation env 1000 self else self)
    else
      let frame := music_frame (_music_anim_index self) in
      let base_text :=
        frame ++ py " Now Playing: " ++ _music_anim_title self ++ py " - "
        ++ _music_anim_artist self in
      match compose_status env base_text with
      | Ok anim_text =>
          let self :=
            if send_osc || (0 <? _music_anim_index self)%nat
            then snd (send_chatbox_message env self anim_text music)
            else self in
          set_music_anim_index (S (_music_anim_index self)) self
      | Raise _ =>
          if started self then restart_animation env 1500 self else self
      end in
  (* finally *)
  if _music_anim_running self
  then
    let (id, self) :=
      root_after env MUSIC_ANIMATION_INTERVAL cb_animate_music_status self in
    set_music_anim_after_id (Some id) self
  else self.

Definition start_music_animation (env : Env) (self : VTAuderApp)
    (title artist : pystr) : VTAuderApp :=
  let self := set_music_anim_index 0 self in
  let self := set_music_anim_subject title artist self in
  let self := set_music_anim_running true self in
  animate_music_status env self true.

Definition stop_music_animation (self : VTAuderApp) : VTAuderApp :=
  let self := set_music_anim_running false self in
  match _music_anim_after_id self with
  | Some id => set_music_anim_after_id None (root_after_cancel id self)
  | None => self
  end.

(** ** [on_stt_text] (main.py:1045): the animation pauses for the speech

    The animation is stopped, the speech goes to the queue, and the lambda
    of line 1082 is to restart the animation ten seconds later. *)

Definition on_stt_text (env : Env) (self : VTAuderApp) (text : pystr)
  : VTAuderApp :=
  let self := stop_music_animation self in
  let self :=
    match stt_message env text with
    | Some formatted_text =>
        snd (send_chatbox_message env self formatted_text stt)
    | None => self
    end in
  snd (root_after env 10000 cb_resume_music_animation self).

(** ** The event loop *)

Definition run_callback (env : Env) (cb : Callback) (self : VTAuderApp)
  : VTAuderApp :=
  match cb with
  | cb_process_message_queue => snd (_process_message_queue env self)
  | cb_animate_music_status => animate_music_status env self true
  | cb_resume_music_animation =>
      start_music_animation env self (_music_anim_title self)
        (_music_anim_artist self)
  end.

(** What the event loop can do to the application: a producer calls
    [send_chatbox_message]; the song poller or the speech handler starts or
    stops the animation; [toggle_routing] sets [started]; Tk runs a pending
    callback, which leaves the pending set before it runs; the speech
    recogniser delivers a text. *)
Inductive Event : Type :=
| call_send_chatbox_message (text : pystr) (message_type : MessageType)
| call_start_music_animation (title artist : pystr)
| call_stop_music_animation
| call_toggle_routing
| fire (id : nat)
| call_on_stt_text (text : pystr).

Definition set_started (v : bool) (a : VTAuderApp) : VTAuderApp :=
  Build_VTAuderApp (_last_chatbox_sent a) (_chatbox_timeout a)
    (_chatbox_timeout_until a) (_message_queue a) (_queue_processing a)
    v (_music_anim_running a) (_music_anim_index a)
    (_music_anim_title a) (_music_anim_artist a) (_music_anim_after_id a)
    (root_pending a) (root_next_id a) (send_attempts a) (chat_log a).

Definition step (env : Env) (ev : Event) (self : VTAuderApp) : VTAuderApp :=
  match ev with
  | call_send_chatbox_message text message_type =>
      snd (send_chatbox_message env self text message_type)
  | call_start_music_animation title artist =>
      start_music_animation env self title artist
  | call_stop_music_animation => stop_music_animation self
  | call_toggle_routing => set_started true self
  | fire id =>
      match find (fun t => (after_id t =? id)%nat) (root_pending self) with
      | Some t => run_callback env (callback t) (root_after_cancel id self)
      | None => self
      end
  | call_on_stt_text text => on_stt_text env self text
  end.

(** A run: events with the environment each of them meets, oldest first. *)
Fixpoint run (evs : list (Env * Event)) (self : VTAuderApp) : VTAuderApp :=
  match evs with
  | [] => self
  | (env, ev) :: evs' => run evs' (step env ev self)
  end.

(** The environment of a handler that runs at the instant [t] (in
    microseconds) with the OSC client [client] at hand and widgets that
    show the text as it is. *)
Definition env_at (t : Z) (client : outcome Sender) : Env := {|
  time_enqueue := t;
  time_drain := t;
  time_send := t;
  tk_now := Z.quot t 1000;
  osc_client := client;
  compose_status := fun base_text => Ok base_text;
  stt_message := fun text => Some text
|}.

(** The pending callback that Tk runs next: the earliest due, the oldest
    among equals. *)
Fixpoint next_timer (pending : list Timer) : option Timer :=
  match pending with
  | [] => None
  | t :: rest =>
      match next_timer rest with
      | Some u => if due u <? due t then Some u else Some t
      | None => Some t
      end
  end.

(** Let the event loop run on its own, each pending callback at its due
    time, for at most [fuel] callbacks. *)
Fixpoint run_timers (fuel : nat) (client : outcome Sender) (self : VTAuderApp)
  : VTAuderApp :=
  match fuel with
  | O => self
  | S fuel' =>
      match next_timer (root_pending self) with
      | Some t =>
          run_timers fuel' client
            (step (env_at (due t * 1000) client) (fire (after_id t)) self)
      | None => self
      end
  end.

(** ** Senders and inputs of the scenarios *)

Definition accepting_client : outcome Sender := Ok (fun _ => Ok tt).

Definition spam_diagnostic : pystr := py "Timed out for spam, try again later".

Definition rejecting_client : outcome Sender :=
  Ok (fun _ => Raise spam_diagnostic).

(** A reading of [time.time()]: 2023-11-14 22:13:20 UTC, in microseconds. *)
Definition t0 : Z := 1700000000000000.

Definition scenario_text : pystr :=
  py " a   b  " ++ [LF; NUL] ++ py "c" ++ [CR] ++ py " ".

Definition hello_world : VTAuderApp :=
  run [(env_at t0 accepting_client, call_send_chatbox_message (py "Hello") manual);
       (env_at t0 accepting_client, call_send_chatbox_message (py "World") manual)]
      new_app.

(** The state after ["Hello"] alone was handed to [send_chatbox_message]
    at [t0]. *)
Definition hello_sent : VTAuderApp :=
  step (env_at t0 accepting_client)
    (call_send_chatbox_message (py "Hello") manual) new_app.

(** An OSC client of class [VRChatOSCClient] is at hand. *)
Definition vrchat_client_at_hand (env : Env) : Prop :=
  exists udp, osc_client env = Ok (send_chat_message udp).

(** The run in which the first message is rejected as spam at [t0], the
    drain scheduled 1.5 s later runs, and a second message is enqueued
    31 s after the rejection. *)
Definition after_penalty : VTAuderApp :=
  run [(env_at t0 rejecting_client,
        call_send_chatbox_message (py "Hello") manual);
       (env_at (t0 + 1500000) accepting_client, fire 0%nat);
       (env_at (t0 + 31000000) accepting_client,
        call_send_chatbox_message (py "World") manual)]
      new_app.

(** [self] with the timeout flag cleared. *)
Definition cleared (self : VTAuderApp) : VTAuderApp :=
  set_chatbox_timeout false (_chatbox_timeout_until self) self.

(** A call [send_chatbox_message(text, message_type)] and the environment
    it meets. *)
Definition EnqueueCall : Type := (Env * pystr * MessageType)%type.

Definition call_env (c : EnqueueCall) : Env := fst (fst c).
Definition call_text (c : EnqueueCall) : pystr := snd (fst c).

Definition enqueue_calls (calls : list EnqueueCall) : list (Env * Event) :=
  map (fun c => (call_env c, call_send_chatbox_message (call_text c) (snd c)))
    calls.

(** The queue entry a valid call makes. *)
Definition queued_as (c : EnqueueCall) : MessageData :=
  Build_MessageData (snd (validate_message (call_text c))) (snd c)
    (time_enqueue (call_env c)).

(** The text of the call passes [validate_message]. *)
Definition valid_call (c : EnqueueCall) : Prop :=
  fst (validate_message (call_text c)) = true.

(** Twelve plain messages ["1"] .. ["12"], all at [t0]. *)
Definition twelve_calls : list EnqueueCall :=
  map (fun n => (env_at t0 accepting_client, str_of_nat n, general))
    (seq 1 12).

(** Two pieces of speech arrive one second apart. *)
Definition two_speech_events : VTAuderApp :=
  run [(env_at t0 accepting_client, call_on_stt_text (py "hello"));
       (env_at (t0 + 1000000) accepting_client, call_on_stt_text (py "there"))]
      new_app.

(** The pending ticks of the music animation. *)
Definition animation_ticks (self : VTAuderApp) : list Timer :=
  filter (fun t => match callback t with
                   | cb_animate_music_status => true
                   | _ => false
                   end)
    (root_pending self).

(** Type and enqueue time of the queued messages. *)
Definition queue_stamps (self : VTAuderApp) : list (MessageType * Z) :=
  map (fun m => (type m, timestamp m)) (_message_queue self).

(** ** Vocabulary of the properties *)

(** A word: not empty, no whitespace in it. *)
Definition word (w : pystr) : Prop :=
  w <> [] /\ Forall (fun x => isspace x = false) w.

(** No two whitespace characters next to each other. *)
Fixpoint no_adjacent_space (s : pystr) : bool :=
  match s with
  | [] => true
  | x :: r =>
      match r with
      | [] => true
      | y :: _ => negb (isspace x && isspace y) && no_adjacent_space r
      end
  end.

(** Only plain spaces as whitespace, never two in a row, none at either
    end. *)
Definition single_spaced (s : pystr) : Prop :=
  (forall x, In x s -> isspace x = true -> x = SPACE) /\
  no_adjacent_space s = true /\
  strip s = s.

(** The test of main.py:165-166 on the reading [now]. *)
Definition must_wait (now : Z) (self : VTAuderApp) : bool :=
  (_chatbox_timeout self && (now <? _chatbox_timeout_until self))
  || (now - _last_chatbox_sent self <? _min_interval).

(** A handler that meets [env] cannot reach the sender: a drain is marked
    in flight, or the drain would have to wait. *)
Definition no_send (env : Env) (self : VTAuderApp) : bool :=
  _queue_processing self || must_wait (time_drain env) self.

(** The same rate limiter, processing flag and record of sends. *)
Definition same_sender (a b : VTAuderApp) : Prop :=
  _last_chatbox_sent a = _last_chatbox_sent b /\
  _chatbox_timeout a = _chatbox_timeout b /\
  _chatbox_timeout_until a = _chatbox_timeout_until b /\
  _queue_processing a = _queue_processing b /\
  send_attempts a = send_attempts b /\
  chat_log a = chat_log b.

(** The same rate limiter. *)
Definition same_limiter (a b : VTAuderApp) : Prop :=
  _last_chatbox_sent a = _last_chatbox_sent b /\
  _chatbox_timeout a = _chatbox_timeout b /\
  _chatbox_timeout_until a = _chatbox_timeout_until b.

(** What a handler that started in [a] and ended in [r] did to the sender:
    nothing, or one call of [_send_message_direct], from a state [a'] with
    the rate limiter of [a], after which the processing flag is set. *)
Inductive handler_effect (env : Env) (a r : VTAuderApp) : Prop :=
| effect_quiet : same_sender r a -> handler_effect env a r
| effect_sent (m : MessageData) (a' : VTAuderApp) :
    no_send env a = false ->
    same_limiter a' a ->
    _last_chatbox_sent r
    = _last_chatbox_sent (snd (_send_message_direct env a' (text m))) ->
    _chatbox_timeout r
    = _chatbox_timeout (snd (_send_message_direct env a' (text m))) ->
    _chatbox_timeout_until r
    = _chatbox_timeout_until (snd (_send_message_direct env a' (text m))) ->
    send_attempts r
    = send_attempts a
      ++ [Build_SendAttempt (time_drain env) (text m)
            (fst (_send_message_direct env a' (text m)))] ->
    _queue_processing r = true ->
    handler_effect env a r.

(** The queue after lines 135-147: the oldest entry gives way when the
    queue is full, the new one goes to the back. *)
Definition enqueued (q : list MessageData) (m : MessageData)
  : list MessageData :=
  (if (_max_queue_size <=? length q)%nat then tl q else q) ++ [m].

(** The last [n] entries of a list. *)
Definition lastn {A : Type} (n : nat) (l : list A) : list A :=
  skipn (length l - n) l.

(** The glyph at position [k] of the animation string, taken round. *)
Definition glyph (k : nat) : char :=
  nth (k mod 14) MUSIC_ASCII_ANIMATION 0%N.

(** [' '.join(s.split())] *)
Definition collapse (s : pystr) : pystr := join (py " ") (split s).

(** ** [format_message_with_time] (main.py:414)

    [clock] is [Some] of what [get_current_time] returns when the time
    display is switched on, [None] when it is off. *)
Definition format_message_with_time (clock : option pystr) (message : pystr)
  : pystr :=
  match clock with
  | Some current_time => py "[" ++ current_time ++ py "] " ++ message
  | None => message
  end.

(** ** The speech buffer of [on_stt_text] (main.py:1048-1066) *)

Section SpeechBuffer.

(** [c.isupper()] for a one-character string. *)
Variable isupper : char -> bool.

(** [s.isupper()] for a string of at most one character. *)
Definition str_isupper (s : pystr) : bool :=
  match s with
  | [c] => isupper c
  | _ => false
  end.

(** [s[-1] if s else ""] *)
Definition last_or_empty (s : pystr) : pystr :=
  match rev s with
  | c :: _ => [c]
  | [] => []
  end.

(** [s[0] if s else ""] *)
Definition first_or_empty (s : pystr) : pystr :=
  match s with
  | c :: _ => [c]
  | [] => []
  end.

(** The value of [self._stt_chat_buffer] after lines 1052-1066, from its
    value before (the empty string when the attribute did not exist). *)
Definition stt_chat_buffer (buffer text : pystr) : pystr :=
  if negb (is_empty buffer) && negb (is_empty (strip text))
  then
    let last_char := last_or_empty buffer in
    let first_char := first_or_empty text in
    if negb (contains last_char (py ".!?")) && str_isupper first_char
    then buffer ++ py ". " ++ text
    else buffer ++ py " " ++ text
  else text.

End SpeechBuffer.

(** ** [on_gesture_text] (main.py:421)

    [vrchat_enabled] is [self.vrchat_enabled_var.get()]; [clock] is as for
    [format_message_with_time]. *)
Definition on_gesture_text (env : Env) (vrchat_enabled : bool)
    (clock : option pystr) (self : VTAuderApp) (text : pystr) : VTAuderApp :=
  if vrchat_enabled
  then
    let formatted_text := format_message_with_time clock text in
    let (sent, self) := send_chatbox_message env self formatted_text gesture in
    if sent
    then append_chat_log (py "Gesture: " ++ formatted_text) self
    else self
  else self.

(** ** [SteamVRGestureRecognizer] (steamvr_gesture.py)

    A movement [dx], [dy], [dz] is a finite double, taken as the rational
    number it is; doubles compare as these rationals do. *)

(** [a == b] on strings. *)
Fixpoint str_eqb (a b : pystr) : bool :=
  match a, b with
  | [], [] => true
  | x :: a', y :: b' => (x =? y)%N && str_eqb a' b'
  | _, _ => false
  end.

(** [d.get(k)] on a dict given by its items. *)
Fixpoint dict_get (d : list (pystr * pystr)) (k : pystr) : option pystr :=
  match d with
  | [] => None
  | (k', v) :: d' => if str_eqb k' k then Some v else dict_get d' k
  end.

Definition gesture_map : list (pystr * pystr) :=
  [(py "swipe_up", py "Hello!");
   (py "swipe_down", py "Thank you!");
   (py "swipe_left", py "Need help!");
   (py "swipe_right", py "Goodbye!")].

(** The double written [0.15]. *)
Definition threshold : QArith_base.Q :=
  QArith_base.Qmake 5404319552844595 36028797018963968.

(** [x > y] and [x < y] on rationals. *)
Definition Qgtb (x y : QArith_base.Q) : bool :=
  negb (QArith_base.Qle_bool x y).

Definition Qltb (x y : QArith_base.Q) : bool :=
  negb (QArith_base.Qle_bool y x).

Definition _detect_gesture (dx dy dz : QArith_base.Q) : option pystr :=
  if Qgtb dy threshold then Some (py "swipe_up")
  else if Qltb dy (QArith_base.Qopp threshold) then Some (py "swipe_down")
  else if Qgtb dx threshold then Some (py "swipe_right")
  else if Qltb dx (QArith_base.Qopp threshold) then Some (py "swipe_left")
  else None.

(** Lines 69-75 of [_poll_loop]: the text that the loop is about to hand
    to the callback for a movement, if any. *)
Definition gesture_text (dx dy dz : QArith_base.Q) : option pystr :=
  match _detect_gesture dx dy dz with
  | Some detected =>
      if is_empty detected then None
      else match dict_get gesture_map detected with
           | Some text => if is_empty text then None else Some text
           | None => None
           end
  | None => None
  end.

(** ** Song titles (main.py:901-921, 992-1008) *)

(** A dict of [get_window_processes] (system.py:74): the two keys that the
    song poller reads. *)
Record Window : Type := {
  process_name : pystr;
  window_title : pystr
}.

(** [s.split(sep)] for a separator that is not empty.  [skip] characters
    of a separator just found are still to be passed over; [cur] holds the
    part being read, last character first. *)
Fixpoint split_at (sep : pystr) (skip : nat) (cur s : pystr) : list pystr :=
  match s with
  | [] => [rev cur]
  | c :: s' =>
      match skip with
      | S k => split_at sep k cur s'
      | O =>
          if starts_with sep s
          then rev cur :: split_at sep (length sep - 1) [] s'
          else split_at sep 0 (c :: cur) s'
      end
  end.

Definition split_sep (sep s : pystr) : list pystr := split_at sep 0 [] s.

(** [get_current_song_info] (main.py:992).  The lower case is taken on the
    letters A..Z: the only other code point whose lower case holds a
    letter of the four patterns is U+0130, which gives [i] followed by
    U+0307, and every [i] of the patterns is followed by a letter. *)
Definition get_current_song_info (selected_window : option Window)
  : option pystr :=
  match selected_window with
  | None => None
  | Some w =>
      let process := lower (process_name w) in
      let title := window_title w in
      let title_lower := lower title in
      if negb (is_empty title)
         && (contains (py "spotify") process
             || contains (py "music") process
             || contains (py "youtube music") title_lower
             || contains (py "music.youtube.com") title_lower)
      then Some title
      else None
  end.

Definition paused_titles : list pystr :=
  [py "Spotify"; py "Spotify Free"; py "Spotify Premium";
   py "Spotify - Web Player"].

(** The title put for a paused player: U+23F8 U+FE0F, a space and
    [Paused]. *)
Definition PAUSED : pystr :=
  [9208; 65039]%N ++ py " Paused".

(** Lines 901-921 of [send_and_repeat_song_info]: [artist], [title] and
    [is_paused] for the selected window [w] and the result [song_info] of
    [get_current_song_info]. *)
Definition song_of_window (w : Window) (song_info : option pystr)
  : pystr * pystr * bool :=
  let process := lower (process_name w) in
  let window_title := window_title w in
  if contains (py "spotify") process
  then
    if contains (py " - ") window_title
    then
      match split_sep (py " - ") window_title with
      | p0 :: p1 :: _ => (strip p0, strip p1, false)
      | _ => ([], [], false)
      end
    else
      if existsb (str_eqb (strip window_title)) paused_titles
      then ([], PAUSED, true)
      else ([], [], false)
  else
    if contains (py " - ") window_title
    then
      match split_sep (py " - ") window_title with
      | p0 :: p1 :: _ => (strip p0, strip p1, false)
      | _ => ([], window_title, false)
      end
    else
      match song_info with
      | Some info => ([], if is_empty info then window_title else info, false)
      | None => ([], window_title, false)
      end.

(** ** [VRChatOSCClient.send_music_info] (vrchat.py:147)

    The calls of [self.client.send_message] that were made, oldest first;
    the method itself returns normally whatever they do.  A chatbox
    message goes out as the list of the text and [True], taken as the
    text. *)
Definition send_music_info (udp : pystr -> pystr -> outcome unit)
    (title artist : pystr) : list (pystr * pystr) :=
  let message :=
    strip (title ++ py " "
           ++ (if negb (is_empty artist) then py "- " ++ artist else [])) in
  match udp (py "/chatbox/input") message with
  | Ok _ =>
      let combined_info := strip (title ++ py " - " ++ artist) in
      [(py "/chatbox/input", message);
       (py "/avatar/parameters/MusicInfo", slice_to 64 combined_info)]
  | Raise _ => [(py "/chatbox/input", message)]
  end.

(** ** [MusicTracker._get_spotify_info] (vrchat.py:245) *)

(** The dict that the tracker builds for a track. *)
Record MusicInfo : Type := {
  info_title : pystr;
  info_artist : pystr;
  info_album : pystr;
  info_app : pystr
}.

(** [s.endswith(p)] *)
Definition ends_with (p s : pystr) : bool := starts_with (rev p) (rev s).

(** What the callback of [_get_spotify_info] appends for a visible window
    with the title [title], if anything (vrchat.py:250-272). *)
Definition spotify_window_info (title : pystr) : option MusicInfo :=
  if negb (is_empty title) && contains (py "spotify") (lower title)
  then
    let title :=
      if ends_with (py " - Spotify") title
      then firstn (length title - 10) title
      else title in
    if contains (py " - ") title
    then
      match split_sep (py " - ") title with
      | p0 :: p1 :: _ =>
          let song_title := strip p0 in
          let artist := strip p1 in
          if negb (is_empty song_title) && negb (is_empty artist)
             && negb (str_eqb (lower song_title) (py "spotify"))
          then Some (Build_MusicInfo song_title artist (py "Spotify")
                       (py "Spotify"))
          else None
      | _ => None
      end
    else None
  else None.

(** [_get_spotify_info] over the titles of the visible windows, in the
    order of [EnumWindows]: the first track found. *)
Fixpoint _get_spotify_info (visible_titles : list pystr) : option MusicInfo :=
  match visible_titles with
  | [] => None
  | title :: rest =>
      match spotify_window_info title with
      | Some info => Some info
      | None => _get_spotify_info rest
      end
  end.

(** ** The DVD animation and the song poller (main.py:46-96, 869-955)

    The same object [self] with the attributes that these methods add:
    [core] holds the attributes of [VTAuderApp] above.  The callbacks that
    these methods hand to [root.after] are pending in [song_pending]; Tk
    numbers them and the callbacks of [root_pending] from one counter. *)

(** The callables handed to [root.after]: [self.animate_dvd_status]
    (main.py:96), [self.send_and_repeat_song_info] (main.py:955) and the
    lambdas that set the text of a widget (main.py:229, 862, 953). *)
Inductive SongCallback : Type :=
| cb_animate_dvd_status
| cb_send_and_repeat_song_info
| cb_configure_widget.

Record SongTimer : Type := {
  song_after_id : nat;
  song_due : Z;
  song_callback : SongCallback
}.

Record SongApp : Type := {
  core : VTAuderApp;
  _dvd_anim_running : bool;
  _dvd_anim_index : nat;
  _dvd_anim_direction : option Z;
  _dvd_anim_after_id : option nat;
  selected_window : option Window;
  last_sent_song_info : option pystr;
  last_sent_artist : option pystr;
  _keep_sending_song : bool;
  song_pending : list SongTimer
}.

Definition set_core (v : VTAuderApp) (d : SongApp) : SongApp :=
  Build_SongApp v (_dvd_anim_running d) (_dvd_anim_index d)
    (_dvd_anim_direction d) (_dvd_anim_after_id d) (selected_window d)
    (last_sent_song_info d) (last_sent_artist d) (_keep_sending_song d)
    (song_pending d).

Definition set_dvd_anim_running (v : bool) (d : SongApp) : SongApp :=
  Build_SongApp (core d) v (_dvd_anim_index d)
    (_dvd_anim_direction d) (_dvd_anim_after_id d) (selected_window d)
    (last_sent_song_info d) (last_sent_artist d) (_keep_sending_song d)
    (song_pending d).

Definition set_dvd_anim_index (v : nat) (d : SongApp) : SongApp :=
  Build_SongApp (core d) (_dvd_anim_running d) v
    (_dvd_anim_direction d) (_dvd_anim_after_id d) (selected_window d)
    (last_sent_song_info d) (last_sent_artist d) (_keep_sending_song d)
    (song_pending d).

Definition set_dvd_anim_direction (v : option Z) (d : SongApp) : SongApp :=
  Build_SongApp (core d) (_dvd_anim_running d) (_dvd_anim_index d)
    v (_dvd_anim_after_id d) (selected_window d)
    (last_sent_song_info d) (last_sent_artist d) (_keep_sending_song d)
    (song_pending d).

Definition set_dvd_anim_after_id (v : option nat) (d : SongApp) : SongApp :=
  Build_SongApp (core d) (_dvd_anim_running d) (_dvd_anim_index d)
    (_dvd_anim_direction d) v (selected_window d)
    (last_sent_song_info d) (last_sent_artist d) (_keep_sending_song d)
    (song_pending d).

Definition set_selected_window (v : option Window) (d : SongApp) : SongApp :=
  Build_SongApp (core d) (_dvd_anim_running d) (_dvd_anim_index d)
    (_dvd_anim_direction d) (_dvd_anim_after_id d) v
    (last_sent_song_info d) (last_sent_artist d) (_keep_sending_song d)
    (song_pending d).

Definition set_last_sent (t r : option pystr) (d : SongApp) : SongApp :=
  Build_SongApp (core d) (_dvd_anim_running d) (_dvd_anim_index d)
    (_dvd_anim_direction d) (_dvd_anim_after_id d) (selected_window d)
    t r (_keep_sending_song d) (song_pending d).

Definition set_keep_sending_song (v : bool) (d : SongApp) : SongApp :=
  Build_SongApp (core d) (_dvd_anim_running d) (_dvd_anim_index d)
    (_dvd_anim_direction d) (_dvd_anim_after_id d) (selected_window d)
    (last_sent_song_info d) (last_sent_artist d) v (song_pending d).

Definition set_song_pending (v : list SongTimer) (d : SongApp) : SongApp :=
  Build_SongApp (core d) (_dvd_anim_running d) (_dvd_anim_index d)
    (_dvd_anim_direction d) (_dvd_anim_after_id d) (selected_window d)
    (last_sent_song_info d) (last_sent_artist d) (_keep_sending_song d) v.

(** The object as the class body (main.py:47-49) and [__init__]
    (main.py:349-350) leave it.  [_keep_sending_song] is set by
    [select_window] before the poller first reads it. *)
Definition new_song_app : SongApp := {|
  core := new_app;
  _dvd_anim_running := false;
  _dvd_anim_index := 0%nat;
  _dvd_anim_direction := None;
  _dvd_anim_after_id := None;
  selected_window := None;
  last_sent_song_info := None;
  last_sent_artist := None;
  _keep_sending_song := false;
  song_pending := []
|}.

(** What the environment decides during a call of these methods. *)
Record SongEnv : Type := {
  base : Env;
  (** [self.vrchat_enabled_var.get()] *)
  vrchat_enabled : bool;
  (** [get_current_time()] when [self.send_time_var.get()] holds *)
  clock : option pystr;
  (** [get_window_processes()] *)
  windows : list Window;
  (** the draws of [random.choice] at main.py:74 and main.py:95 *)
  dvd_pos_draw : nat;
  dvd_speed_draw : nat;
  (** [refresh_sources] reaches main.py:862 and finds [auto_indicator] *)
  refresh_rearms : bool
}.

(** [random.choice(l)] for a list that is not empty, from the draw. *)
Definition choice {A : Type} (draw : nat) (l : list A) (default : A) : A :=
  nth (draw mod length l) l default.

(** A method of [VTAuderApp] above, run on the object. *)
Definition on_core (f : VTAuderApp -> VTAuderApp) (d : SongApp) : SongApp :=
  set_core (f (core d)) d.

(** [self.root.after(ms, cb)] for the callbacks of this part. *)
Definition song_after (e : SongEnv) (ms : Z) (cb : SongCallback) (d : SongApp)
  : nat * SongApp :=
  let id := root_next_id (core d) in
  let d := on_core (set_root (root_pending (core d)) (S id)) d in
  (id,
   set_song_pending
     (song_pending d ++ [Build_SongTimer id (tk_now (base e) + ms) cb]) d).

(** [self.root.after_cancel(id)] *)
Definition song_after_cancel (id : nat) (d : SongApp) : SongApp :=
  let d := on_core (root_after_cancel id) d in
  set_song_pending
    (filter (fun t => negb (song_after_id t =? id)%nat) (song_pending d)) d.

(** [stop_music_animation] (main.py:241) on the object: the cancelled id
    leaves both sets of pending callbacks. *)
Definition song_stop_music_animation (d : SongApp) : SongApp :=
  let id := _music_anim_after_id (core d) in
  let d := on_core stop_music_animation d in
  match id with
  | Some id =>
      set_song_pending
        (filter (fun t => negb (song_after_id t =? id)%nat) (song_pending d)) d
  | None => d
  end.

Definition DVD_TRACK_LEN : nat := 7.
Definition DVD_SPEEDS : list Z := [1000; 2000; 3000].

(** U+1F7E5, U+1F7E6 and the dash U+2014 of the track. *)
Definition RED_SQUARE : char := 128997%N.
Definition BLUE_SQUARE : char := 128998%N.
Definition EM_DASH : char := 8212%N.

(** [dvd_line] of main.py:76-88 for the position [pos]. *)
Definition dvd_line (pos : nat) : pystr :=
  let track := repeat [EM_DASH] DVD_TRACK_LEN in
  let dvd_str := py "DVD" in
  match pos with
  | 0%nat => [RED_SQUARE] ++ dvd_str ++ join [] track ++ [BLUE_SQUARE]
  | 1%nat =>
      let mid := (DVD_TRACK_LEN / 2)%nat in
      [RED_SQUARE] ++ join [] (firstn mid track) ++ dvd_str
      ++ join [] (skipn mid track) ++ [BLUE_SQUARE]
  | _ => [RED_SQUARE] ++ join [] track ++ dvd_str ++ [BLUE_SQUARE]
  end.

Definition animate_dvd_status (e : SongEnv) (d : SongApp) : SongApp :=
  if negb (_dvd_anim_running d) then d
  else
    let pos := choice (dvd_pos_draw e) [0; 1; 2]%nat 0%nat in
    let base_msg := PAUSED ++ [LF] ++ dvd_line pos in
    let msg := format_message_with_time (clock e) base_msg in
    let d := on_core (fun a => snd (send_chatbox_message (base e) a msg dvd)) d in
    let next_speed := choice (dvd_speed_draw e) DVD_SPEEDS 1000 in
    let (id, d) := song_after e next_speed cb_animate_dvd_status d in
    set_dvd_anim_after_id (Some id) d.

Definition start_dvd_animation (e : SongEnv) (d : SongApp) : SongApp :=
  let d := set_dvd_anim_running true d in
  let d := set_dvd_anim_index 0 d in
  let d := set_dvd_anim_direction (Some 1) d in
  animate_dvd_status e d.

Definition stop_dvd_animation (d : SongApp) : SongApp :=
  let d := set_dvd_anim_running false d in
  match _dvd_anim_after_id d with
  | Some id => set_dvd_anim_after_id None (song_after_cancel id d)
  | None => d
  end.

(** The banner of main.py:935, after U+23ED U+FE0F. *)
Definition next_song_msg (title artist : pystr) : pystr :=
  if negb (is_empty artist)
  then [9197; 65039]%N ++ py " Next Song: " ++ title ++ py " - " ++ artist
  else [9197; 65039]%N ++ py " Next Song: " ++ title.

(** Lines 891-899: the selected window as [get_window_processes] shows it
    now, the first window of the same process that has a title; the window
    selected before when there is none. *)
Definition refreshed_window (windows : list Window) (selected : Window)
  : Window :=
  let selected_process := process_name selected in
  let updated_window :=
    find (fun w => str_eqb (process_name w) selected_process
                   && negb (is_empty (window_title w)))
      windows in
  match updated_window with
  | Some w => w
  | None => selected
  end.

(** [send_and_repeat_song_info] (main.py:882).  Nothing raises inside the
    [try] of lines 926-948, so its handler is left out. *)
Definition send_and_repeat_song_info (e : SongEnv) (d : SongApp) : SongApp :=
  match selected_window d with
  | Some selected =>
      if negb (started (core d)) || negb (vrchat_enabled e)
      then set_keep_sending_song false d
      else
        let d := song_stop_music_animation d in
        let d := stop_dvd_animation d in
        let selected := refreshed_window (windows e) selected in
        let d := set_selected_window (Some selected) d in
        let song_info := get_current_song_info (selected_window d) in
        let '(artist, title, is_paused) := song_of_window selected song_info in
        let d :=
          if negb (is_empty title)
          then
            if is_paused
            then start_dvd_animation e d
            else
              let last_title := last_sent_song_info d in
              let last_artist := last_sent_artist d in
              let changed :=
                match last_title, last_artist with
                | Some t, Some r => negb (str_eqb title t) || negb (str_eqb artist r)
                | _, _ => true
                end in
              let d :=
                if changed
                then
                  let msg := next_song_msg title artist in
                  let (sent, a) :=
                    send_chatbox_message (base e) (core d) msg general in
                  let a :=
                    if sent
                    then append_chat_log (py "Next Song: " ++ msg) a
                    else append_chat_log
                           (py "[Rate Limited] Next Song: " ++ msg) a in
                  set_core (start_music_animation (base e) a title artist) d
                else on_core (fun a => start_music_animation (base e) a
                                         title artist) d in
              set_last_sent (Some title) (Some artist) d
          else snd (song_after e 4000 cb_configure_widget d) in
        if _keep_sending_song d
        then snd (song_after e 5000 cb_send_and_repeat_song_info d)
        else d
  | None => set_keep_sending_song false d
  end.

(** [refresh_sources] (main.py:773): widgets apart, the callback of
    main.py:862. *)
Definition refresh_sources (e : SongEnv) (d : SongApp) : SongApp :=
  if refresh_rearms e then snd (song_after e 2000 cb_configure_widget d) else d.

(** [select_window] (main.py:869) *)
Definition select_window (e : SongEnv) (d : SongApp) (window : Window)
  : SongApp :=
  let d := set_selected_window (Some window) d in
  let d := refresh_sources e d in
  if started (core d) && vrchat_enabled e
  then
    let d := set_last_sent None None d in
    let d := set_keep_sending_song true d in
    send_and_repeat_song_info e d
  else d.

(** [send_vrchat_message] (main.py:218); [message] is what
    [self.chat_entry.get()] returns. *)
Definition send_vrchat_message (e : SongEnv) (d : SongApp) (message : pystr)
  : SongApp :=
  if negb (is_empty message)
  then
    let formatted_message := format_message_with_time (clock e) message in
    let (sent, a) :=
      send_chatbox_message (base e) (core d) formatted_message manual in
    let d := set_core a d in
    if sent then d else snd (song_after e 2000 cb_configure_widget d)
  else d.

(** The event loop over the whole object: a window is selected; the
    application is started; the user sends a chat message; another producer
    calls [send_chatbox_message]; Tk runs a pending callback of either
    set. *)
Inductive SongEvent : Type :=
| call_select_window (window : Window)
| song_toggle_routing
| call_send_vrchat_message (message : pystr)
| song_send_chatbox_message (text : pystr) (message_type : MessageType)
| song_fire (id : nat).

Definition run_song_callback (e : SongEnv) (cb : SongCallback) (d : SongApp)
  : SongApp :=
  match cb with
  | cb_animate_dvd_status => animate_dvd_status e d
  | cb_send_and_repeat_song_info => send_and_repeat_song_info e d
  | cb_configure_widget => d
  end.

Definition song_step (e : SongEnv) (ev : SongEvent) (d : SongApp) : SongApp :=
  match ev with
  | call_select_window window => select_window e d window
  | song_toggle_routing => on_core (set_started true) d
  | call_send_vrchat_message message => send_vrchat_message e d message
  | song_send_chatbox_message text message_type =>
      on_core (fun a => snd (send_chatbox_message (base e) a text message_type))
        d
  | song_fire id =>
      match find (fun t => (after_id t =? id)%nat) (root_pending (core d)) with
      | Some t =>
          on_core (run_callback (base e) (callback t)) (song_after_cancel id d)
      | None =>
          match find (fun t => (song_after_id t =? id)%nat) (song_pending d)
          with
          | Some t =>
              run_song_callback e (song_callback t) (song_after_cancel id d)
          | None => d
          end
      end
  end.

Fixpoint song_run (evs : list (SongEnv * SongEvent)) (d : SongApp) : SongApp :=
  match evs with
  | [] => d
  | (e, ev) :: evs' => song_run evs' (song_step e ev d)
  end.

(** The environment of a handler of this part that runs at the instant
    [t]: the VRChat switch on, the time display off, the windows [wins]. *)
Definition song_env_at (t : Z) (client : outcome Sender) (wins : list Window)
  : SongEnv := {|
  base := env_at t client;
  vrchat_enabled := true;
  clock := None;
  windows := wins;
  dvd_pos_draw := 1%nat;
  dvd_speed_draw := 2%nat;
  refresh_rearms := true
|}.

Definition spotify_playing : Window := {|
  process_name := py "Spotify.exe";
  window_title := py "Daft Punk - One More Time"
|}.

Definition spotify_paused : Window := {|
  process_name := py "Spotify.exe";
  window_title := py "Spotify Premium"
|}.

(** The application is started and the playing window selected at [t0];
    five seconds later the first poll finds the player paused. *)
Definition song_session : list (SongEnv * SongEvent) :=
  [(song_env_at t0 accepting_client [spotify_playing], song_toggle_routing);
   (song_env_at t0 accepting_client [spotify_playing],
    call_select_window spotify_playing);
   (song_env_at (t0 + 5000000) accepting_client [spotify_paused],
    song_fire 3%nat)].


Definition paused_env : SongEnv :=
  song_env_at (t0 + 5000000) accepting_client [spotify_paused].

(** The pending ticks of the DVD animation and the pending polls. *)
Definition dvd_ticks (d : SongApp) : list SongTimer :=
  filter (fun t => match song_callback t with
                   | cb_animate_dvd_status => true
                   | _ => false
                   end)
    (song_pending d).

Definition polls (d : SongApp) : list SongTimer :=
  filter (fun t => match song_callback t with
                   | cb_send_and_repeat_song_info => true
                   | _ => false
                   end)
    (song_pending d).

(** ** Vocabulary of the further properties *)

(** A text as [validate_message] lets it through: at most 144 characters,
    no NUL and no CR. *)
Definition sanitized (t : pystr) : Prop :=
  (length t <= 144)%nat /\ ~ In NUL t /\ ~ In CR t.

(** Every queued text and every text handed to the sender is sanitized. *)
Definition all_sanitized (self : VTAuderApp) : Prop :=
  Forall (fun m => sanitized (text m)) (_message_queue self) /\
  Forall (fun a => sanitized (sent_text a)) (send_attempts self).

(** The same sender state and the same queue. *)
Definition same_core (a b : VTAuderApp) : Prop :=
  same_sender a b /\ _message_queue a = _message_queue b.

(** The wait computed at main.py:168-171 on the reading [now]. *)
Definition time_until_ready (now : Z) (self : VTAuderApp) : Z :=
  Z.max (if _chatbox_timeout self
         then _chatbox_timeout_until self - now else 0)
        (_min_interval - (now - _last_chatbox_sent self)).

(** The same animation state and [started] flag. *)
Definition same_animation (a b : VTAuderApp) : Prop :=
  started a = started b /\
  _music_anim_running a = _music_anim_running b /\
  _music_anim_index a = _music_anim_index b /\
  _music_anim_title a = _music_anim_title b /\
  _music_anim_artist a = _music_anim_artist b /\
  _music_anim_after_id a = _music_anim_after_id b.

(** The text of every frame can be composed. *)
Definition composes (env : Env) : Prop :=
  forall base_text, exists anim_text, compose_status env base_text = Ok anim_text.

(** At most one tick of the music animation is pending; a pending tick is
    the one remembered in [_music_anim_after_id], on a running animation;
    no restart by the speech handler is pending. *)
Definition music_cadence (a : VTAuderApp) : Prop :=
  (length (animation_ticks a) <= 1)%nat /\
  (forall t, In t (animation_ticks a) ->
             _music_anim_after_id a = Some (after_id t) /\
             _music_anim_running a = true) /\
  (forall t, In t (root_pending a) ->
             callback t <> cb_resume_music_animation).

(** The same for the DVD animation. *)
Definition dvd_cadence (d : SongApp) : Prop :=
  (length (dvd_ticks d) <= 1)%nat /\
  (forall t, In t (dvd_ticks d) ->
             _dvd_anim_after_id d = Some (song_after_id t) /\
             _dvd_anim_running d = true).

(** One animation at most has a tick pending. *)
Definition one_cadence (d : SongApp) : Prop :=
  music_cadence (core d) /\ dvd_cadence d /\
  (animation_ticks (core d) = [] \/ dvd_ticks d = []).

(** The ids that Tk handed out are below its counter: those of the pending
    polls and those remembered by the two animations; and no poll has an
    id that an animation remembers. *)
Definition numbered (d : SongApp) : Prop :=
  (forall t, In t (polls d) ->
             (song_after_id t < root_next_id (core d))%nat) /\
  (forall i, _music_anim_after_id (core d) = Some i ->
             (i < root_next_id (core d))%nat) /\
  (forall i, _dvd_anim_after_id d = Some i ->
             (i < root_next_id (core d))%nat) /\
  (forall t, In t (polls d) ->
             _music_anim_after_id (core d) <> Some (song_after_id t) /\
             _dvd_anim_after_id d <> Some (song_after_id t)).

(** From [a] to [b] the counter of Tk did not go back, and the id that the
    music animation remembers is the same, or none, or one handed out in
    between. *)
Definition advances (a b : VTAuderApp) : Prop :=
  (root_next_id a <= root_next_id b)%nat /\
  (_music_anim_after_id b = _music_anim_after_id a \/
   _music_anim_after_id b = None \/
   exists i, _music_anim_after_id b = Some i /\
             (root_next_id a <= i < root_next_id b)%nat).

(** Projections of updated records. *)
Ltac fields :=
  cbn [_last_chatbox_sent _chatbox_timeout _chatbox_timeout_until
       _message_queue _queue_processing started _music_anim_running
       _music_anim_index _music_anim_title _music_anim_artist
       _music_anim_after_id root_pending root_next_id send_attempts chat_log
       set_last_chatbox_sent set_chatbox_timeout set_message_queue
       set_queue_processing set_music_anim_running set_music_anim_index
       set_music_anim_subject set_music_anim_after_id set_root
       set_send_attempts set_chat_log set_started root_after
       root_after_cancel append_chat_log fst snd] in *.

(** * Properties *)

(** ** Strings *)

Arguments isspace : simpl never.

Lemma isspace_SPACE : isspace SPACE = true.
Proof. reflexivity. Qed.

Lemma lstrip_nil_iff (s : pystr) : lstrip s = [] <-> forallb isspace s = true.
Proof.
  induction s as [|c s IH]; simpl.
  - tauto.
  - destruct (isspace c); simpl.
    + exact IH.
    + split; discriminate.
Qed.

Lemma lstrip_head (s : pystr) :
  match lstrip s with
  | [] => True
  | c :: _ => isspace c = false
  end.
Proof.
  induction s as [|c s IH]; simpl; [exact I|].
  destruct (isspace c) eqn:E; [exact IH | exact E].
Qed.

Lemma lstrip_all_space (s : pystr) :
  forallb isspace (lstrip s) = true -> lstrip s = [].
Proof.
  pose proof (lstrip_head s) as H.
  destruct (lstrip s) as [|c r]; [reflexivity|].
  simpl. rewrite H. discriminate.
Qed.

Lemma forallb_rev {A} (f : A -> bool) (l : list A) :
  forallb f (rev l) = forallb f l.
Proof.
  induction l as [|a l IH]; simpl; [reflexivity|].
  rewrite forallb_app, IH. simpl. rewrite andb_true_r. apply andb_comm.
Qed.

Lemma strip_nil_iff (s : pystr) : strip s = [] <-> forallb isspace s = true.
Proof.
  unfold strip, rstrip. split; intros H.
  - apply lstrip_nil_iff, lstrip_all_space.
    rewrite <- forallb_rev. apply lstrip_nil_iff.
    apply (f_equal (@rev char)) in H. rewrite rev_involutive in H. exact H.
  - apply lstrip_nil_iff in H. rewrite H. reflexivity.
Qed.

Lemma lstrip_id (c : char) (s : pystr) :
  isspace c = false -> lstrip (c :: s) = c :: s.
Proof. intros H. simpl. rewrite H. reflexivity. Qed.

Lemma strip_id (s : pystr) :
  (forall c r, s = c :: r -> isspace c = false) ->
  (forall r c, s = r ++ [c] -> isspace c = false) ->
  strip s = s.
Proof.
  intros Hh Hl. unfold strip, rstrip.
  assert (L : lstrip s = s).
  { destruct s as [|c r]; [reflexivity|]. apply lstrip_id. eapply Hh; reflexivity. }
  rewrite L.
  destruct (rev s) as [|c r] eqn:E.
  - apply (f_equal (@rev char)) in E. rewrite rev_involutive in E. subst. reflexivity.
  - rewrite lstrip_id.
    + rewrite <- E. apply rev_involutive.
    + apply (Hl (rev r)).
      apply (f_equal (@rev char)) in E. rewrite rev_involutive in E. exact E.
Qed.

(** The equations of [split]. *)

Lemma split_space (c : char) (s : pystr) :
  isspace c = true -> split (c :: s) = split s.
Proof. intros H. simpl. rewrite H. reflexivity. Qed.

Lemma split_last (c : char) : isspace c = false -> split [c] = [[c]].
Proof. intros H. simpl. rewrite H. reflexivity. Qed.

Lemma split_end_of_word (c d : char) (s : pystr) :
  isspace c = false -> isspace d = true ->
  split (c :: d :: s) = [c] :: split s.
Proof.
  intros Hc Hd. change (split (c :: d :: s))
    with (if isspace c then split (d :: s)
          else if isspace d then [c] :: split (d :: s)
               else match split (d :: s) with
                    | w :: ws => (c :: w) :: ws
                    | [] => [[c]]
                    end).
  rewrite Hc, Hd, (split_space d s Hd). reflexivity.
Qed.

Lemma split_in_word (c d : char) (s : pystr) :
  isspace c = false -> isspace d = false ->
  split (c :: d :: s) =
  match split (d :: s) with
  | w :: ws => (c :: w) :: ws
  | [] => [[c]]
  end.
Proof.
  intros Hc Hd. change (split (c :: d :: s))
    with (if isspace c then split (d :: s)
          else if isspace d then [c] :: split (d :: s)
               else match split (d :: s) with
                    | w :: ws => (c :: w) :: ws
                    | [] => [[c]]
                    end).
  rewrite Hc, Hd. reflexivity.
Qed.

Lemma split_nonspace_nonempty (c : char) (s : pystr) :
  isspace c = false -> split (c :: s) <> [].
Proof.
  intros Hc. destruct s as [|d s].
  - rewrite split_last by exact Hc. discriminate.
  - destruct (isspace d) eqn:Hd.
    + rewrite split_end_of_word by assumption. discriminate.
    + rewrite split_in_word by assumption.
      destruct (split (d :: s)); discriminate.
Qed.

Lemma split_words (s : pystr) : Forall word (split s).
Proof.
  induction s as [|c s IH]; [constructor|].
  destruct (isspace c) eqn:Hc.
  - rewrite split_space by exact Hc. exact IH.
  - destruct s as [|d s].
    + rewrite split_last by exact Hc. repeat constructor; [discriminate | exact Hc].
    + destruct (isspace d) eqn:Hd.
      * rewrite split_end_of_word by assumption.
        rewrite split_space in IH by exact Hd.
        constructor; [|exact IH].
        split; [discriminate | repeat constructor; exact Hc].
      * rewrite split_in_word by assumption.
        destruct (split (d :: s)) as [|w ws].
        -- repeat constructor; [discriminate | exact Hc].
        -- inversion IH as [|? ? [Hw1 Hw2] Hws]; subst.
           constructor; [|exact Hws].
           split; [discriminate | constructor; assumption].
Qed.

Lemma split_nil_iff (s : pystr) : split s = [] <-> forallb isspace s = true.
Proof.
  induction s as [|c s IH]; [simpl; tauto|].
  destruct (isspace c) eqn:Hc.
  - rewrite split_space by exact Hc. simpl. rewrite Hc. exact IH.
  - simpl forallb. rewrite Hc. simpl. split; [|discriminate].
    intros H. exfalso. exact (split_nonspace_nonempty c s Hc H).
Qed.

Lemma split_word_then_space (w rest : pystr) :
  word w -> split (w ++ SPACE :: rest) = w :: split rest.
Proof.
  intros [Hne Hw]. induction w as [|c w IH]; [contradiction|].
  inversion Hw as [|? ? Hc Hw']; subst.
  destruct w as [|d w].
  - simpl app. apply split_end_of_word; [exact Hc | exact isspace_SPACE].
  - inversion Hw' as [|? ? Hd _]; subst.
    change ((c :: d :: w) ++ SPACE :: rest)
      with (c :: d :: (w ++ SPACE :: rest)).
    rewrite split_in_word by assumption.
    change (d :: w ++ SPACE :: rest) with ((d :: w) ++ SPACE :: rest).
    rewrite IH; [reflexivity | discriminate | exact Hw'].
Qed.

Lemma split_one_word (w : pystr) : word w -> split w = [w].
Proof.
  intros [Hne Hw]. induction w as [|c w IH]; [contradiction|].
  inversion Hw as [|? ? Hc Hw']; subst.
  destruct w as [|d w].
  - apply split_last, Hc.
  - inversion Hw' as [|? ? Hd _]; subst.
    rewrite split_in_word by assumption.
    rewrite IH; [reflexivity | discriminate | exact Hw'].
Qed.

Lemma join_cons (sep w v : pystr) (ws : list pystr) :
  join sep (w :: v :: ws) = w ++ sep ++ join sep (v :: ws).
Proof. reflexivity. Qed.

(** Splitting the joined words gives the words back. *)
Lemma split_join (ws : list pystr) :
  Forall word ws -> split (join (py " ") ws) = ws.
Proof.
  induction ws as [|w ws IH]; intros H; [reflexivity|].
  inversion H as [|? ? Hw Hws]; subst.
  destruct ws as [|v ws].
  - apply split_one_word, Hw.
  - rewrite join_cons. change (py " " ++ ?x) with (SPACE :: x).
    rewrite split_word_then_space by exact Hw.
    rewrite IH by exact Hws. reflexivity.
Qed.

Lemma join_head (w : pystr) (ws : list pystr) :
  word w -> exists c r, join (py " ") (w :: ws) = c :: r /\ isspace c = false.
Proof.
  intros [Hne Hw]. destruct w as [|c w]; [contradiction|].
  inversion Hw; subst.
  destruct ws as [|v ws].
  - exists c, w. split; [reflexivity | assumption].
  - rewrite join_cons. eexists c, _. split; [reflexivity | assumption].
Qed.

Lemma word_last (w : pystr) :
  word w -> exists r c, w = r ++ [c] /\ isspace c = false.
Proof.
  intros [Hne Hw]. destruct (exists_last Hne) as (r & c & ->).
  exists r, c. split; [reflexivity|].
  rewrite Forall_app in Hw. destruct Hw as [_ Hc]. inversion Hc; assumption.
Qed.

Lemma join_last (ws : list pystr) :
  Forall word ws -> ws <> [] ->
  exists r c, join (py " ") ws = r ++ [c] /\ isspace c = false.
Proof.
  induction ws as [|w ws IH]; intros H Hne; [contradiction|].
  inversion H as [|? ? Hw Hws]; subst.
  destruct ws as [|v ws].
  - apply word_last, Hw.
  - destruct IH as (r & c & E & Hc); [exact Hws | discriminate |].
    rewrite join_cons, E. exists (w ++ py " " ++ r), c.
    split; [|exact Hc]. rewrite <- !app_assoc. reflexivity.
Qed.

Lemma no_adjacent_space_word (w r : pystr) :
  Forall (fun x => isspace x = false) w ->
  no_adjacent_space (w ++ r) = no_adjacent_space r.
Proof.
  induction w as [|c w IH]; intros H; [reflexivity|].
  inversion H as [|? ? Hc Hw]; subst.
  change ((c :: w) ++ r) with (c :: (w ++ r)).
  destruct (w ++ r) as [|y t] eqn:E.
  - exact (IH Hw).
  - change (no_adjacent_space (c :: y :: t))
      with (negb (isspace c && isspace y) && no_adjacent_space (y :: t)).
    rewrite Hc. exact (IH Hw).
Qed.

Lemma join_single_spaced (ws : list pystr) :
  Forall word ws -> single_spaced (join (py " ") ws).
Proof.
  intros H. repeat split.
  - induction ws as [|w ws IH]; intros x Hin Hx; [contradiction|].
    inversion H as [|? ? [_ Hw] Hws]; subst.
    destruct ws as [|v ws].
    + rewrite Forall_forall in Hw. rewrite (Hw x Hin) in Hx. discriminate.
    + rewrite join_cons in Hin. apply in_app_or in Hin.
      destruct Hin as [Hin | [<- | Hin]].
      * rewrite Forall_forall in Hw. rewrite (Hw x Hin) in Hx. discriminate.
      * reflexivity.
      * exact (IH Hws x Hin Hx).
  - induction ws as [|w ws IH]; [reflexivity|].
    inversion H as [|? ? [_ Hw] Hws]; subst.
    destruct ws as [|v ws].
    + change (join (py " ") [w]) with w. rewrite <- (app_nil_r w).
      apply no_adjacent_space_word, Hw.
    + rewrite join_cons, no_adjacent_space_word by exact Hw.
      inversion Hws as [|? ? Hv _]; subst.
      destruct (join_head v ws Hv) as (c & r & E & Hc).
      specialize (IH Hws). rewrite E in *.
      change (py " " ++ c :: r) with (SPACE :: c :: r).
      change (no_adjacent_space (SPACE :: c :: r))
        with (negb (isspace SPACE && isspace c) && no_adjacent_space (c :: r)).
      rewrite Hc, IH. reflexivity.
  - destruct ws as [|w ws]; [reflexivity|].
    inversion H as [|? ? Hw Hws]; subst.
    apply strip_id.
    + intros c r E. destruct (join_head w ws Hw) as (c' & r' & E' & Hc).
      rewrite E in E'. injection E' as -> _. exact Hc.
    + intros r c E. destruct (join_last (w :: ws) H) as (r' & c' & E' & Hc);
        [discriminate|].
      rewrite E in E'. apply app_inj_tail in E'. destruct E' as [_ ->]. exact Hc.
Qed.

Lemma remove_char_length (c : char) (s : pystr) :
  (length (remove_char c s) <= length s)%nat.
Proof. apply filter_length_le. Qed.

Lemma remove_char_not_in (c : char) (s : pystr) : ~ In c (remove_char c s).
Proof.
  unfold remove_char. intros H. apply filter_In in H. destruct H as [_ H].
  rewrite N.eqb_refl in H. discriminate.
Qed.

Lemma remove_char_in (c x : char) (s : pystr) :
  In x (remove_char c s) -> In x s.
Proof. unfold remove_char. intros H. apply filter_In in H. tauto. Qed.

Lemma remove_char_app (c : char) (s t : pystr) :
  remove_char c (s ++ t) = remove_char c s ++ remove_char c t.
Proof. apply filter_app. Qed.

Lemma remove_char_absent (c : char) (s : pystr) :
  ~ In c s -> remove_char c s = s.
Proof.
  induction s as [|x s IH]; intros H; [reflexivity|].
  unfold remove_char in *. simpl.
  destruct (N.eqb_spec x c) as [->|Hne].
  - exfalso. apply H. left. reflexivity.
  - simpl. f_equal. apply IH. intros Hin. apply H. right. exact Hin.
Qed.

Lemma in_firstn {A} (n : nat) (l : list A) (x : A) :
  In x (firstn n l) -> In x l.
Proof.
  intros H. rewrite <- (firstn_skipn n l). apply in_or_app. left. exact H.
Qed.

Lemma split_in (s w : pystr) (x : char) :
  In w (split s) -> In x w -> In x s.
Proof.
  revert w. induction s as [|c s IH]; intros w Hw Hx; [contradiction|].
  destruct (isspace c) eqn:Hc.
  - rewrite split_space in Hw by exact Hc. right. exact (IH w Hw Hx).
  - destruct s as [|d s].
    + rewrite split_last in Hw by exact Hc.
      destruct Hw as [<- | []]. exact Hx.
    + destruct (isspace d) eqn:Hd.
      * rewrite split_end_of_word in Hw by assumption.
        destruct Hw as [<- | Hw].
        -- destruct Hx as [<- | []]. left. reflexivity.
        -- right. apply (IH w); [|exact Hx].
           rewrite split_space by exact Hd. exact Hw.
      * rewrite split_in_word in Hw by assumption.
        destruct (split (d :: s)) as [|v vs].
        -- destruct Hw as [<- | []]. destruct Hx as [<- | []]. left. reflexivity.
        -- destruct Hw as [<- | Hw].
           ++ destruct Hx as [<- | Hx]; [left; reflexivity|].
              right. apply (IH v); [left; reflexivity | exact Hx].
           ++ right. apply (IH w); [right; exact Hw | exact Hx].
Qed.

Lemma join_in (ws : list pystr) (x : char) :
  In x (join (py " ") ws) -> x = SPACE \/ exists w, In w ws /\ In x w.
Proof.
  induction ws as [|w ws IH]; intros H; [contradiction|].
  destruct ws as [|v ws].
  - right. exists w. split; [left; reflexivity | exact H].
  - rewrite join_cons in H. apply in_app_or in H.
    destruct H as [H | [<- | H]].
    + right. exists w. split; [left; reflexivity | exact H].
    + left. reflexivity.
    + destruct (IH H) as [-> | (u & Hu & Hx)]; [left; reflexivity|].
      right. exists u. split; [right; exact Hu | exact Hx].
Qed.

Lemma collapsed_in (text : pystr) (x : char) :
  In x (join (py " ") (split text)) -> x = SPACE \/ In x text.
Proof.
  intros H. destruct (join_in _ _ H) as [-> | (w & Hw & Hx)];
    [left; reflexivity | right; exact (split_in text w x Hw Hx)].
Qed.

Lemma validate_message_fail (text : pystr) :
  strip text = [] -> validate_message text = (false, py "Empty message").
Proof.
  intros H. unfold validate_message. rewrite H.
  rewrite orb_true_r. reflexivity.
Qed.

Lemma validate_message_ok (text : pystr) :
  strip text <> [] ->
  validate_message text =
  (true,
   remove_char CR (remove_char NUL
     (let collapsed := join (py " ") (split text) in
      if (144 <? length collapsed)%nat
      then firstn 141 collapsed ++ py "..." else collapsed))).
Proof.
  intros H. unfold validate_message.
  destruct text as [|c text]; [exfalso; apply H; reflexivity|].
  destruct (strip (c :: text)); [contradiction|]. reflexivity.
Qed.

Lemma truncated_length (s : pystr) :
  (length (if (144 <? length s)%nat then firstn 141 s ++ py "..." else s)
   <= 144)%nat.
Proof.
  destruct (Nat.ltb_spec 144 (length s)) as [H | H]; [|exact H].
  rewrite length_app, length_firstn. simpl length. lia.
Qed.

Lemma validate_message_example :
  validate_message scenario_text = (true, py "a b c").
Proof. vm_compute. reflexivity. Qed.

(** C5.  For every text, [validate_message] reads nothing but the text;
    it fails exactly when the text is empty or all whitespace (nothing is
    left after [strip]); otherwise every run of whitespace of the text is
    collapsed to one space ([collapsed] below has the words of the text,
    single spaces between them and none around them), the result is
    [collapsed], cut to 141 characters plus ["..."] when it is longer than
    144, without its NUL and CR characters; the result holds no NUL, no CR
    and no whitespace but plain spaces, is at most 144 characters long, and
    ends with ["..."] whenever it was cut.  The text of the scenario gives
    [(true, "a b c")]. *)
Theorem validate_message_sanitizes (text : pystr) :
  let ok := fst (validate_message text) in
  let out := snd (validate_message text) in
  let collapsed := join (py " ") (split text) in
  (ok = false <-> strip text = []) /\
  (ok = false <-> forallb isspace text = true) /\
  (single_spaced collapsed /\ split collapsed = split text) /\
  (ok = true ->
   out = remove_char CR (remove_char NUL
           (if (144 <? length collapsed)%nat
            then firstn 141 collapsed ++ py "..." else collapsed))) /\
  (ok = true -> ~ In NUL text -> (length collapsed <= 144)%nat ->
   out = collapsed) /\
  (forall x, In x out -> isspace x = true -> x = SPACE) /\
  ~ In NUL out /\ ~ In CR out /\
  (length out <= 144)%nat /\
  ((144 < length collapsed)%nat ->
   ok = true /\ exists kept, out = kept ++ py "...") /\
  validate_message scenario_text = (true, py "a b c").
Proof.
  intros ok out collapsed.
  pose proof (join_single_spaced _ (split_words text)) as SS.
  fold collapsed in SS.
  assert (Hfail : ok = false <-> strip text = []).
  { subst ok. destruct (list_eq_dec N.eq_dec (strip text) []) as [E | E].
    - rewrite validate_message_fail by exact E. simpl. tauto.
    - rewrite validate_message_ok by exact E. simpl. split; [discriminate | contradiction]. }
  assert (Hok : ok = true ->
    out = remove_char CR (remove_char NUL
           (if (144 <? length collapsed)%nat
            then firstn 141 collapsed ++ py "..." else collapsed))).
  { intros H. assert (E : strip text <> []).
    { intros E. apply Hfail in E. rewrite E in H. discriminate. }
    subst out. rewrite validate_message_ok by exact E. reflexivity. }
  assert (Hcases : ok = true \/ out = py "Empty message").
  { subst ok out. destruct (list_eq_dec N.eq_dec (strip text) []) as [E | E].
    - right. rewrite validate_message_fail by exact E. reflexivity.
    - left. rewrite validate_message_ok by exact E. reflexivity. }
  split; [exact Hfail|].
  split; [rewrite Hfail; apply strip_nil_iff|].
  split; [split; [exact SS | apply split_join, split_words]|].
  split; [exact Hok|].
  split.
  { intros H Hnul Hlen. rewrite (Hok H).
    apply Nat.ltb_ge in Hlen. rewrite Hlen.
    rewrite (remove_char_absent NUL).
    - apply remove_char_absent. intros Hin.
      destruct SS as [Hsp _]. discriminate (Hsp CR Hin eq_refl).
    - intros Hin. destruct (collapsed_in text NUL Hin) as [E | Hin'];
        [discriminate E | exact (Hnul Hin')]. }
  split.
  { intros x Hin Hx. destruct Hcases as [H | H].
    - rewrite (Hok H) in Hin. do 2 apply remove_char_in in Hin.
      destruct SS as [Hsp _].
      destruct (144 <? length collapsed)%nat; [|exact (Hsp x Hin Hx)].
      apply in_app_or in Hin. destruct Hin as [Hin | Hin].
      + apply in_firstn in Hin. exact (Hsp x Hin Hx).
      + simpl in Hin. repeat destruct Hin as [<- | Hin];
          try discriminate Hx; contradiction.
    - rewrite H in Hin. simpl in Hin.
      repeat destruct Hin as [<- | Hin];
        try discriminate Hx; try reflexivity; contradiction. }
  split.
  { destruct Hcases as [H | H].
    - rewrite (Hok H). intros Hin. apply remove_char_in in Hin.
      exact (remove_char_not_in NUL _ Hin).
    - rewrite H. simpl. intros Hin.
      repeat destruct Hin as [Hin | Hin]; try discriminate Hin; contradiction. }
  split.
  { destruct Hcases as [H | H].
    - rewrite (Hok H). apply remove_char_not_in.
    - rewrite H. simpl. intros Hin.
      repeat destruct Hin as [Hin | Hin]; try discriminate Hin; contradiction. }
  split.
  { destruct Hcases as [H | H].
    - rewrite (Hok H).
      etransitivity; [apply remove_char_length|].
      etransitivity; [apply remove_char_length|].
      apply truncated_length.
    - rewrite H. simpl. lia. }
  split; [|exact validate_message_example].
  intros Hlong.
  assert (H : ok = true).
  { destruct (list_eq_dec N.eq_dec (strip text) []) as [E | E].
    - exfalso. apply strip_nil_iff, split_nil_iff in E.
      subst collapsed. rewrite E in Hlong. simpl in Hlong. lia.
    - subst ok. rewrite validate_message_ok by exact E. reflexivity. }
  split; [exact H|].
  rewrite (Hok H). apply Nat.ltb_lt in Hlong. rewrite Hlong.
  rewrite !remove_char_app.
  eexists. f_equal.
Qed.

(** ** The queue and the drain *)

Lemma same_sender_refl (a : VTAuderApp) : same_sender a a.
Proof. repeat split. Qed.

Lemma same_sender_sym (a b : VTAuderApp) : same_sender a b -> same_sender b a.
Proof. unfold same_sender. intuition congruence. Qed.

Lemma same_sender_trans (a b c : VTAuderApp) :
  same_sender a b -> same_sender b c -> same_sender a c.
Proof. unfold same_sender. intuition congruence. Qed.

Lemma no_send_same_sender (env : Env) (a b : VTAuderApp) :
  same_sender a b -> no_send env a = no_send env b.
Proof.
  intros (H1 & H2 & H3 & H4 & _). unfold no_send, must_wait.
  rewrite H1, H2, H3, H4. reflexivity.
Qed.

(** [_send_message_direct] touches the rate limiter only. *)
Lemma send_direct_frame (env : Env) (self : VTAuderApp) (t : pystr) :
  let r := snd (_send_message_direct env self t) in
  _message_queue r = _message_queue self /\
  _queue_processing r = _queue_processing self /\
  send_attempts r = send_attempts self /\
  chat_log r = chat_log self /\
  root_pending r = root_pending self /\
  root_next_id r = root_next_id self.
Proof.
  unfold _send_message_direct.
  destruct (try_send env t) as [u | e]; [|destruct (spam_detected e)];
    fields; repeat split.
Qed.

(** The three ways [_process_message_queue] ends. *)
Lemma drain_cases (env : Env) (self : VTAuderApp) :
  let r := _process_message_queue env self in
  (fst r = exit_guard /\ snd r = self /\
   (_queue_processing self = true \/ _message_queue self = []))
  \/
  (fst r = exit_retry /\ no_send env self = true /\
   _queue_processing self = false /\
   same_sender (snd r) self /\ _message_queue (snd r) = _message_queue self)
  \/
  (fst r = exit_sent /\ no_send env self = false /\
   exists m rest,
     _message_queue self = m :: rest /\
     _message_queue (snd r) = rest /\
     handler_effect env self (snd r) /\
     _queue_processing (snd r) = true /\
     exists ok,
       send_attempts (snd r)
       = send_attempts self ++ [Build_SendAttempt (time_drain env) (text m) ok]).
Proof.
  unfold _process_message_queue.
  destruct (_queue_processing self) eqn:P; [left; repeat split; left; reflexivity|].
  destruct (_message_queue self) as [|m rest] eqn:Q;
    [left; repeat split; right; reflexivity|].
  fields. cbn [orb is_empty].
  fold (must_wait (time_drain env) self).
  destruct (must_wait (time_drain env) self) eqn:W.
  - right. left. fields. unfold no_send. rewrite P, W.
    repeat split; fields; auto.
  - right. right. rewrite Q.
    pose proof (send_direct_frame env
                  (set_message_queue rest (set_queue_processing true self))
                  (text m)) as F.
    destruct (_send_message_direct env
                (set_message_queue rest (set_queue_processing true self))
                (text m)) as [ok s] eqn:E.
    fields. destruct F as (F1 & F2 & F3 & F4 & F5 & F6).
    split; [reflexivity|]. split; [unfold no_send; rewrite P, W; reflexivity|].
    exists m, rest. split; [reflexivity|].
    split; [destruct ok; fields; exact F1|].
    split; [|split; [destruct ok; fields; exact F2|];
             exists ok; destruct ok; fields; rewrite F3; reflexivity].
    apply (effect_sent env self _ m
             (set_message_queue rest (set_queue_processing true self))).
    + unfold no_send. rewrite P, W. reflexivity.
    + repeat split.
    + rewrite E. destruct ok; reflexivity.
    + rewrite E. destruct ok; reflexivity.
    + rewrite E. destruct ok; reflexivity.
    + rewrite E. destruct ok; fields; rewrite F3; reflexivity.
    + destruct ok; fields; exact F2.
Qed.

Lemma effect_after (env : Env) (a r r' : VTAuderApp) :
  handler_effect env a r -> same_sender r' r -> handler_effect env a r'.
Proof.
  intros [H | m a' N L H1 H2 H3 H4 H5] S.
  - apply effect_quiet. exact (same_sender_trans _ _ _ S H).
  - destruct S as (S1 & S2 & S3 & S4 & S5 & S6).
    apply (effect_sent env a r' m a'); congruence.
Qed.

Lemma effect_before (env : Env) (a0 a r : VTAuderApp) :
  same_sender a a0 -> handler_effect env a r -> handler_effect env a0 r.
Proof.
  intros S [H | m a' N L H1 H2 H3 H4 H5].
  - apply effect_quiet. exact (same_sender_trans _ _ _ H S).
  - pose proof (no_send_same_sender env _ _ S) as E.
    destruct S as (S1 & S2 & S3 & S4 & S5 & S6).
    destruct L as (L1 & L2 & L3).
    apply (effect_sent env a0 r m a'); try congruence.
    repeat split; congruence.
Qed.

Lemma drain_effect (env : Env) (self : VTAuderApp) :
  handler_effect env self (snd (_process_message_queue env self)).
Proof.
  destruct (drain_cases env self)
    as [(_ & -> & _) | [(_ & _ & _ & S & _) | (_ & _ & m & rest & _ & _ & H & _)]].
  - apply effect_quiet, same_sender_refl.
  - apply effect_quiet, S.
  - exact H.
Qed.

(** [add_message_to_queue] on a text that passes [validate_message]. *)
Lemma add_valid (env : Env) (self : VTAuderApp) (t : pystr) (ty : MessageType) :
  fst (validate_message t) = true ->
  add_message_to_queue env self t ty =
  (true,
   let self :=
     set_message_queue
       (enqueued (_message_queue self)
          (Build_MessageData (snd (validate_message t)) ty (time_enqueue env)))
       self in
   if negb (_queue_processing self)
   then snd (_process_message_queue env self) else self).
Proof.
  intros V. unfold add_message_to_queue, enqueued.
  destruct (validate_message t) as [ok s]. simpl in V. subst ok. fields.
  destruct (_max_queue_size <=? length (_message_queue self))%nat; reflexivity.
Qed.

Lemma add_invalid (env : Env) (self : VTAuderApp) (t : pystr) (ty : MessageType) :
  fst (validate_message t) = false ->
  add_message_to_queue env self t ty = (false, self).
Proof.
  intros V. unfold add_message_to_queue.
  destruct (validate_message t) as [ok s]. simpl in V. subst ok. reflexivity.
Qed.

Lemma add_effect (env : Env) (self : VTAuderApp) (t : pystr) (ty : MessageType) :
  handler_effect env self (snd (add_message_to_queue env self t ty)).
Proof.
  destruct (fst (validate_message t)) eqn:V.
  - rewrite add_valid by exact V. fields.
    destruct (_queue_processing self) eqn:P; cbn [negb].
    + apply effect_quiet. repeat split.
    + eapply effect_before; [|apply drain_effect]. repeat split.
  - rewrite add_invalid by exact V. apply effect_quiet, same_sender_refl.
Qed.

Lemma restart_effect (env : Env) (ms : Z) (a self : VTAuderApp) :
  handler_effect env a self ->
  handler_effect env a (restart_animation env ms self).
Proof.
  intros H. unfold restart_animation. fields.
  eapply effect_after; [exact H | repeat split].
Qed.

Lemma animate_effect (env : Env) (self : VTAuderApp) (send_osc : bool) :
  handler_effect env self (animate_music_status env self send_osc).
Proof.
  unfold animate_music_status.
  set (body := if negb (_music_anim_running self) then _ else _).
  assert (H : handler_effect env self body).
  { subst body. destruct (_music_anim_running self); cbn [negb].
    - destruct (compose_status env _) as [anim_text | e].
      + destruct (send_osc || _)%bool.
        * eapply effect_after; [apply add_effect | repeat split].
        * apply effect_quiet. repeat split.
      + destruct (started self);
          [apply restart_effect|]; apply effect_quiet, same_sender_refl.
    - destruct (started self);
        [apply restart_effect|]; apply effect_quiet, same_sender_refl. }
  clearbody body.
  destruct (_music_anim_running body); [|exact H].
  fields. eapply effect_after; [exact H | repeat split].
Qed.

Lemma start_effect (env : Env) (self : VTAuderApp) (t r : pystr) :
  handler_effect env self (start_music_animation env self t r).
Proof.
  unfold start_music_animation.
  eapply effect_before; [|apply animate_effect]. repeat split.
Qed.

Lemma stop_quiet (self : VTAuderApp) :
  same_sender (stop_music_animation self) self.
Proof.
  unfold stop_music_animation. fields.
  destruct (_music_anim_after_id self); repeat split.
Qed.

Lemma callback_effect (env : Env) (cb : Callback) (self : VTAuderApp) :
  handler_effect env self (run_callback env cb self).
Proof.
  destruct cb; cbn [run_callback].
  - apply drain_effect.
  - apply animate_effect.
  - apply start_effect.
Qed.

(** Every event is quiet or makes one send that leaves the flag set. *)
Lemma step_effect (env : Env) (ev : Event) (self : VTAuderApp) :
  handler_effect env self (step env ev self).
Proof.
  destruct ev as [t ty | t r | | | id | t]; cbn [step].
  - apply add_effect.
  - apply start_effect.
  - apply effect_quiet, stop_quiet.
  - apply effect_quiet. repeat split.
  - destruct (find _ _) as [tm|]; [|apply effect_quiet, same_sender_refl].
    eapply effect_before; [|apply callback_effect]. repeat split.
  - unfold on_stt_text. destruct (stt_message env t) as [formatted_text|].
    + eapply effect_before; [apply stop_quiet|].
      eapply effect_after; [apply add_effect | repeat split].
    + apply effect_quiet.
      apply same_sender_trans with (stop_music_animation self);
        [repeat split | apply stop_quiet].
Qed.

Lemma step_quiet (env : Env) (ev : Event) (self : VTAuderApp) :
  no_send env self = true -> same_sender (step env ev self) self.
Proof.
  intros N. destruct (step_effect env ev self) as [H | m a' N' _ _ _ _ _ _];
    [exact H | congruence].
Qed.

(** As long as every handler finds the sender out of reach, nothing is
    sent and the rate limiter stays as it is. *)
Lemma run_quiet (evs : list (Env * Event)) (self : VTAuderApp) :
  Forall (fun e => no_send (fst e) self = true) evs ->
  same_sender (run evs self) self.
Proof.
  revert self. induction evs as [|[env ev] evs IH]; intros self H.
  - apply same_sender_refl.
  - inversion H as [|? ? H1 H2]; subst. cbn [run fst] in *.
    pose proof (step_quiet env ev self H1) as S.
    apply same_sender_trans with (step env ev self); [|exact S].
    apply IH. eapply Forall_impl; [|exact H2].
    intros e He. cbn beta in *.
    rewrite (no_send_same_sender (fst e) _ _ S). exact He.
Qed.

Lemma processing_blocks (env : Env) (self : VTAuderApp) :
  _queue_processing self = true -> no_send env self = true.
Proof. intros H. unfold no_send. rewrite H. reflexivity. Qed.

(** Once the processing flag is set, no event clears it and no message
    reaches the sender any more. *)
Lemma stuck_forever (evs : list (Env * Event)) (self : VTAuderApp) :
  _queue_processing self = true -> same_sender (run evs self) self.
Proof.
  intros H. apply run_quiet. apply Forall_forall. intros e _.
  apply processing_blocks, H.
Qed.

(** C8.  [_process_message_queue] never ends in the [else] of line 187:
    it leaves by the guard of line 158, by the retry of line 174 or after
    the send of lines 178-185.  Past the guard the queue is not empty, and
    the retry leaves it as it is.  After a message was popped and handed to
    [_send_message_direct] the processing flag is [True], and it stays
    [True] whatever the event loop does afterwards. *)
Theorem drain_else_branch_unreachable (env : Env) (self : VTAuderApp) :
  let r := _process_message_queue env self in
  (fst r = exit_guard \/ fst r = exit_retry \/ fst r = exit_sent) /\
  (fst r = exit_retry \/ fst r = exit_sent -> _message_queue self <> []) /\
  (fst r = exit_retry -> _message_queue (snd r) = _message_queue self) /\
  (fst r = exit_sent ->
   (exists m rest ok,
      _message_queue self = m :: rest /\
      _message_queue (snd r) = rest /\
      send_attempts (snd r)
      = send_attempts self ++ [Build_SendAttempt (time_drain env) (text m) ok]) /\
   _queue_processing (snd r) = true /\
   forall evs, _queue_processing (run evs (snd r)) = true).
Proof.
  intros r. subst r.
  destruct (drain_cases env self)
    as [(E & S & G) | [(E & N & P & S & Q) | (E & N & m & rest & Q & Q' & H & P & ok & A)]];
    rewrite E.
  - split; [left; reflexivity|].
    split; [intros [X | X]; discriminate X|].
    split; intros X; discriminate X.
  - split; [right; left; reflexivity|].
    split.
    + intros _ Z.
      unfold _process_message_queue in E.
      rewrite P, Z in E. discriminate E.
    + split; [intros _; exact Q | intros X; discriminate X].
  - split; [right; right; reflexivity|].
    split; [intros _; rewrite Q; discriminate|].
    split; [intros X; discriminate X|].
    intros _. split; [exists m, rest, ok; repeat split; assumption|].
    split; [exact P|].
    intros evs. destruct (stuck_forever evs _ P) as (_ & _ & _ & F & _).
    rewrite F. exact P.
Qed.

(** A drain that sends: the queue holds a message, no drain is in flight
    and the rate limiter lets it go. *)
Lemma drain_else_branch_unreachable_witness :
  fst (_process_message_queue (env_at t0 accepting_client)
         (set_message_queue [Build_MessageData (py "Hello") manual t0] new_app))
  = exit_sent /\
  forall evs,
    _queue_processing
      (run evs
         (snd (_process_message_queue (env_at t0 accepting_client)
                 (set_message_queue [Build_MessageData (py "Hello") manual t0]
                    new_app))))
    = true.
Proof.
  split; [reflexivity|].
  apply (drain_else_branch_unreachable (env_at t0 accepting_client)
           (set_message_queue [Build_MessageData (py "Hello") manual t0] new_app)).
  reflexivity.
Defined.

(** C1.  ["Hello"] and then ["World"] are handed to [send_chatbox_message]
    at the same instant [t0].  ["Hello"] is sent at [t0] and one drain is
    scheduled 1.5 s later; that drain finds the processing flag still set
    and returns at once, leaving ["World"] in the queue with no callback
    pending; and whatever the event loop does afterwards, no further
    message reaches the sender. *)
Theorem hello_world_stalls :
  send_attempts hello_world = [Build_SendAttempt t0 (py "Hello") true] /\
  map text (_message_queue hello_world) = [py "World"] /\
  _queue_processing hello_world = true /\
  root_pending hello_world
  = [Build_Timer 0 (Z.quot t0 1000 + 1500) cb_process_message_queue] /\
  (forall fuel,
     let later := run_timers (S fuel) accepting_client hello_world in
     root_pending later = [] /\
     map text (_message_queue later) = [py "World"] /\
     send_attempts later = [Build_SendAttempt t0 (py "Hello") true]) /\
  (forall evs,
     send_attempts (run evs hello_world)
     = [Build_SendAttempt t0 (py "Hello") true]).
Proof.
  split; [reflexivity|]. split; [reflexivity|]. split; [reflexivity|].
  split; [reflexivity|]. split.
  - intros [|fuel]; repeat split.
  - intros evs.
    destruct (stuck_forever evs hello_world eq_refl) as (_ & _ & _ & _ & A & _).
    rewrite A. reflexivity.
Qed.

(** C2.  The drain that pops the only message leaves the queue empty and
    the processing flag set: in every state, and for ["Hello"] sent at
    [t0].  The drain scheduled 1.5 s later then does nothing, and a
    ["World"] enqueued ten seconds later starts no drain: it stays in the
    queue, nothing is scheduled and nothing is sent. *)
Theorem flag_stays_set_on_empty_queue :
  (forall env self m,
     _message_queue self = [m] ->
     fst (_process_message_queue env self) = exit_sent ->
     _message_queue (snd (_process_message_queue env self)) = [] /\
     _queue_processing (snd (_process_message_queue env self)) = true) /\
  _message_queue hello_sent = [] /\
  _queue_processing hello_sent = true /\
  (let later :=
     step (env_at (t0 + 10000000) accepting_client)
       (call_send_chatbox_message (py "World") manual)
       (run_timers 1 accepting_client hello_sent) in
   map text (_message_queue later) = [py "World"] /\
   root_pending later = [] /\
   send_attempts later = send_attempts hello_sent).
Proof.
  split.
  - intros env self m Q E.
    destruct (drain_cases env self)
      as [(E' & _) | [(E' & _) | (_ & _ & m' & rest & Q1 & Q2 & _ & P & _)]];
      try (rewrite E in E'; discriminate E').
    rewrite Q in Q1. injection Q1 as _ <-. split; assumption.
  - repeat split.
Qed.

(** C9.  [send_chat_message] of [VRChatOSCClient] returns normally whatever
    the UDP client does, so with such a client at hand
    [_send_message_direct] returns [True], records the send time and
    leaves the timeout state alone, also when the UDP client raises the
    spam diagnostic; and in no run in which every handler finds such a
    client does the application enter the timeout state. *)
Theorem vrchat_client_never_raises :
  (forall udp message, send_chat_message udp message = Ok tt) /\
  (forall env self t udp,
     osc_client env = Ok (send_chat_message udp) ->
     _send_message_direct env self t
     = (true, set_last_chatbox_sent (time_send env) self)) /\
  (forall self t,
     _send_message_direct
       (env_at t0 (Ok (send_chat_message (fun _ _ => Raise spam_diagnostic))))
       self t
     = (true, set_last_chatbox_sent t0 self)) /\
  (forall evs,
     Forall (fun e => vrchat_client_at_hand (fst e)) evs ->
     _chatbox_timeout (run evs new_app) = false).
Proof.
  assert (A : forall udp message, send_chat_message udp message = Ok tt).
  { intros udp message. unfold send_chat_message.
    destruct (udp _ message); reflexivity. }
  assert (B : forall env self t udp,
     osc_client env = Ok (send_chat_message udp) ->
     _send_message_direct env self t
     = (true, set_last_chatbox_sent (time_send env) self)).
  { intros env self t udp H. unfold _send_message_direct, try_send.
    rewrite H, A. reflexivity. }
  split; [exact A|]. split; [exact B|]. split.
  - intros self t.
    exact (B (env_at t0 (Ok (send_chat_message (fun _ _ => Raise spam_diagnostic))))
             self t (fun _ _ => Raise spam_diagnostic) eq_refl).
  - intros evs. generalize new_app (eq_refl : _chatbox_timeout new_app = false).
    induction evs as [|[env ev] evs IH]; intros self F H; [exact F|].
    inversion H as [|? ? [udp U] H']; subst. cbn [run].
    apply IH; [|exact H'].
    destruct (step_effect env ev self)
      as [(_ & S & _) | m a' _ (_ & L & _) _ T _ _ _]; [congruence|].
    rewrite T, (B _ _ _ _ U). fields. congruence.
Qed.

(** With a client whose UDP socket raises the spam diagnostic at hand,
    the send still counts as done. *)
Lemma vrchat_client_never_raises_witness :
  osc_client
    (env_at t0 (Ok (send_chat_message (fun _ _ => Raise spam_diagnostic))))
  = Ok (send_chat_message (fun _ _ => Raise spam_diagnostic)) /\
  _send_message_direct
    (env_at t0 (Ok (send_chat_message (fun _ _ => Raise spam_diagnostic))))
    new_app (py "Hello")
  = (true, set_last_chatbox_sent t0 new_app).
Proof.
  split; [reflexivity|].
  apply (proj1 (proj2 vrchat_client_never_raises)
           (env_at t0 (Ok (send_chat_message (fun _ _ => Raise spam_diagnostic))))
           new_app (py "Hello") (fun _ _ => Raise spam_diagnostic)).
  reflexivity.
Defined.

Lemma enqueued_nonempty (q : list MessageData) (m : MessageData) :
  enqueued q m <> [].
Proof. unfold enqueued. intros H. apply app_eq_nil in H. destruct H; discriminate. Qed.

(** What a valid enqueue does to the queue: the new entry goes in, and the
    drain it may start takes the front entry out. *)
Lemma add_queue (env : Env) (self : VTAuderApp) (t : pystr) (ty : MessageType) :
  fst (validate_message t) = true ->
  let m := Build_MessageData (snd (validate_message t)) ty (time_enqueue env) in
  let r := snd (add_message_to_queue env self t ty) in
  (no_send env self = true /\
   _message_queue r = enqueued (_message_queue self) m /\ same_sender r self)
  \/
  (no_send env self = false /\
   _queue_processing r = true /\
   exists front ok,
     enqueued (_message_queue self) m = front :: _message_queue r /\
     send_attempts r
     = send_attempts self
       ++ [Build_SendAttempt (time_drain env) (text front) ok]).
Proof.
  intros V m r. subst r. rewrite add_valid by exact V. fold m. fields.
  destruct (_queue_processing self) eqn:P; cbn [negb].
  - left. split; [apply processing_blocks, P|].
    split; [reflexivity | repeat split; fields; auto].
  - set (s1 := set_message_queue (enqueued (_message_queue self) m) self).
    assert (SS : same_sender s1 self) by repeat split.
    destruct (drain_cases env s1)
      as [(_ & _ & G) | [(_ & N & _ & S & Q) | (_ & N & f & rest & Q & Q' & _ & P' & ok & A)]].
    + exfalso. destruct G as [G | G].
      * subst s1. fields. congruence.
      * exact (enqueued_nonempty _ _ G).
    + left. rewrite (no_send_same_sender env _ _ SS) in N.
      split; [exact N|]. split; [exact Q|].
      apply same_sender_trans with s1; [exact S | exact SS].
    + right. rewrite (no_send_same_sender env _ _ SS) in N.
      split; [exact N|]. split; [exact P'|].
      exists f, ok. split; [rewrite Q'; exact Q | exact A].
Qed.

(** C10.  The one-character text NUL passes [validate_message] with the
    empty string as its sanitized text, and [add_message_to_queue] accepts
    it in every state: a message whose text is empty is the last entry of
    the queue afterwards, or, when the queue was empty and a drain started
    at once, that empty text went straight to the sender. *)
Theorem nul_message_is_queued_empty :
  validate_message [NUL] = (true, []) /\
  (forall env self ty,
     let r := add_message_to_queue env self [NUL] ty in
     let m := Build_MessageData [] ty (time_enqueue env) in
     fst r = true /\
     ((exists older, _message_queue (snd r) = older ++ [m]) \/
      (_message_queue self = [] /\ _message_queue (snd r) = [] /\
       exists ok,
         send_attempts (snd r)
         = send_attempts self ++ [Build_SendAttempt (time_drain env) [] ok]))) /\
  map text
    (_message_queue
       (snd (add_message_to_queue (env_at t0 accepting_client) hello_world
               [NUL] general)))
  = [py "World"; []].
Proof.
  split; [reflexivity|]. split; [|reflexivity].
  intros env self ty. cbv zeta.
  assert (V : fst (validate_message [NUL]) = true) by reflexivity.
  split; [rewrite add_valid by exact V; reflexivity|].
  pose proof (add_queue env self [NUL] ty V) as H. cbv zeta in H.
  change (snd (validate_message [NUL])) with (@nil char) in H.
  destruct H as [(_ & Q & _) | (_ & _ & f & ok & Q & A)].
  - left. rewrite Q. unfold enqueued. eexists. reflexivity.
  - unfold enqueued in Q.
    destruct (if (_max_queue_size <=? length (_message_queue self))%nat
              then tl (_message_queue self) else _message_queue self)
      as [|x l] eqn:C.
    + right. injection Q as <- Q.
      split; [|split; [symmetry; exact Q | exists ok; exact A]].
      destruct (Nat.leb_spec _max_queue_size (length (_message_queue self))) as [L | L];
        [|exact C].
      destruct (_message_queue self) as [|y [|z w]]; simpl in *;
        try discriminate C; unfold _max_queue_size in L; lia.
    + left. injection Q as _ Q. exists l. symmetry. exact Q.
Qed.

(** ** The spam penalty *)

Lemma contains_cons (p s : pystr) (c : char) :
  contains p s = true -> contains p (c :: s) = true.
Proof. intros H. cbn [contains]. rewrite H. apply orb_true_r. Qed.

Lemma starts_with_app (p s t : pystr) :
  starts_with p s = true -> starts_with p (s ++ t) = true.
Proof.
  revert s. induction p as [|a p IH]; intros s H; [reflexivity|].
  destruct s as [|b s]; [discriminate H|].
  cbn [starts_with app] in *. apply andb_true_iff in H. destruct H as [H1 H2].
  rewrite H1, (IH s H2). reflexivity.
Qed.

Lemma contains_app (p s t : pystr) :
  contains p s = true -> contains p (s ++ t) = true.
Proof.
  induction s as [|c s IH]; intros H.
  - cbn [contains] in H. rewrite orb_false_r in H.
    destruct p; [|discriminate H]. destruct t; reflexivity.
  - cbn [contains app] in *. apply orb_true_iff in H. destruct H as [H | H].
    + pose proof (starts_with_app _ _ t H) as X. cbn [app] in X.
      rewrite X. reflexivity.
    + rewrite (IH H). apply orb_true_r.
Qed.

Lemma starts_with_prefix (p s : pystr) :
  starts_with p s = true -> exists rest, s = p ++ rest.
Proof.
  revert s. induction p as [|a p IH]; intros s H; [exists s; reflexivity|].
  destruct s as [|b s]; [discriminate H|].
  cbn [starts_with] in H. apply andb_true_iff in H.
  destruct H as [H1%N.eqb_eq H2]. subst b.
  destruct (IH s H2) as [rest ->]. exists rest. reflexivity.
Qed.

(** The first test of main.py:200 adds nothing to the second. *)
Lemma spam_detected_iff (e : pystr) :
  spam_detected e = contains (py "spam") (lower e).
Proof.
  unfold spam_detected.
  destruct (contains (py "spam") (lower e)) eqn:L; [apply orb_true_r|].
  rewrite orb_false_r.
  destruct (contains (py "Timed out for spam") e) eqn:T; [|reflexivity].
  rewrite <- L. clear L. symmetry.
  induction e as [|c e IH]; [discriminate T|].
  cbn [contains] in T. apply orb_true_iff in T. destruct T as [T | T].
  - destruct (starts_with_prefix _ _ T) as [rest ->].
    unfold lower. rewrite map_app. apply contains_app. reflexivity.
  - change (lower (c :: e)) with (lower_char c :: lower e).
    apply contains_cons, IH, T.
Qed.

Lemma send_direct_spam (env : Env) (self : VTAuderApp) (t e : pystr) :
  try_send env t = Raise e ->
  contains (py "spam") (lower e) = true ->
  _send_message_direct env self t
  = (false, set_chatbox_timeout true (time_send env + 30000000) self).
Proof.
  intros T S. unfold _send_message_direct.
  rewrite T, spam_detected_iff, S. reflexivity.
Qed.

Lemma penalty_blocks (env : Env) (self : VTAuderApp) :
  _chatbox_timeout self = true ->
  time_drain env < _chatbox_timeout_until self ->
  no_send env self = true.
Proof.
  intros T L. unfold no_send, must_wait. rewrite T.
  apply Z.ltb_lt in L. rewrite L. cbn [andb orb]. apply orb_true_r.
Qed.

(** C3.  When the sender fails with a diagnostic that contains "spam" in
    any letter case, [_send_message_direct] returns [False], sets the
    timeout flag and sets [_chatbox_timeout_until] to the clock reading
    taken at that failure plus 30 s, and leaves the queue alone; the drain
    that made the call has popped the message and does not put it back;
    and from any state in timeout, as long as every handler reads a time
    before [_chatbox_timeout_until], no send is attempted and the penalty
    stays as it is. *)
Theorem spam_rejection_starts_penalty :
  (forall env self t e,
     try_send env t = Raise e ->
     contains (py "spam") (lower e) = true ->
     let r := _send_message_direct env self t in
     fst r = false /\
     _chatbox_timeout (snd r) = true /\
     _chatbox_timeout_until (snd r) = time_send env + 30000000 /\
     _message_queue (snd r) = _message_queue self) /\
  (forall env self m rest e,
     _queue_processing self = false ->
     _message_queue self = m :: rest ->
     must_wait (time_drain env) self = false ->
     try_send env (text m) = Raise e ->
     contains (py "spam") (lower e) = true ->
     let r := snd (_process_message_queue env self) in
     _chatbox_timeout r = true /\
     _chatbox_timeout_until r = time_send env + 30000000 /\
     _message_queue r = rest /\
     send_attempts r
     = send_attempts self ++ [Build_SendAttempt (time_drain env) (text m) false]) /\
  (forall self evs,
     _chatbox_timeout self = true ->
     Forall (fun e => time_drain (fst e) < _chatbox_timeout_until self) evs ->
     send_attempts (run evs self) = send_attempts self /\
     _chatbox_timeout (run evs self) = true /\
     _chatbox_timeout_until (run evs self) = _chatbox_timeout_until self).
Proof.
  split; [|split].
  - intros env self t e T S. cbv zeta.
    rewrite (send_direct_spam env self t e T S). repeat split.
  - intros env self m rest e P Q W T S. cbv zeta.
    unfold _process_message_queue. rewrite P. fields. rewrite Q.
    cbn [orb is_empty]. fold (must_wait (time_drain env) self). rewrite W.
    rewrite (send_direct_spam env _ (text m) e T S). repeat split.
  - intros self evs T H.
    assert (S : same_sender (run evs self) self).
    { apply run_quiet. eapply Forall_impl; [|exact H].
      intros e L. cbn beta in *. apply penalty_blocks; assumption. }
    destruct S as (_ & S2 & S3 & _ & S5 & _). rewrite S2, S3, S5.
    repeat split. exact T.
Qed.

(** The rejected ["Hello"]: the penalty runs to 30 s after [t0], and the
    enqueue one second later sends nothing. *)
Lemma spam_rejection_starts_penalty_witness :
  (try_send (env_at t0 rejecting_client) (py "Hello") = Raise spam_diagnostic /\
   contains (py "spam") (lower spam_diagnostic) = true) /\
  _chatbox_timeout_until
    (snd (_send_message_direct (env_at t0 rejecting_client) new_app (py "Hello")))
  = t0 + 30000000.
Proof.
  split; [split; reflexivity|].
  apply (proj1 spam_rejection_starts_penalty
           (env_at t0 rejecting_client) new_app (py "Hello") spam_diagnostic);
    reflexivity.
Defined.

(** C6, as stated, fails: the first message is rejected as spam at [t0],
    so the penalty ends at [t0] + 30 s; the state reached by the enqueue at
    [t0] + 31 s still has the timeout flag set, and [get_queue_status]
    reports TIMEOUT. *)
Lemma in_timeout_outlives_penalty :
  _chatbox_timeout_until after_penalty = t0 + 30000000 /\
  (_chatbox_timeout_until after_penalty <? t0 + 31000000) = true /\
  _chatbox_timeout after_penalty = true /\
  get_queue_status after_penalty = py "Queue: 1/10 | Status: TIMEOUT".
Proof. repeat split. Qed.

Lemma send_direct_keeps_timeout (env : Env) (self : VTAuderApp) (t : pystr) :
  _chatbox_timeout self = true ->
  _chatbox_timeout (snd (_send_message_direct env self t)) = true.
Proof.
  intros H. unfold _send_message_direct.
  destruct (try_send env t) as [u | e]; [|destruct (spam_detected e)];
    fields; auto.
Qed.

Lemma step_keeps_timeout (env : Env) (ev : Event) (self : VTAuderApp) :
  _chatbox_timeout self = true -> _chatbox_timeout (step env ev self) = true.
Proof.
  intros H. destruct (step_effect env ev self)
    as [(_ & S & _) | m a' _ (_ & L & _) _ T _ _ _]; [congruence|].
  rewrite T. apply send_direct_keeps_timeout. congruence.
Qed.

Lemma lapse_must_wait (now : Z) (self : VTAuderApp) :
  _chatbox_timeout_until self <= now ->
  must_wait now self = (now - _last_chatbox_sent self <? _min_interval).
Proof.
  intros L. unfold must_wait.
  destruct (Z.ltb_spec now (_chatbox_timeout_until self)) as [X | X]; [lia|].
  rewrite andb_false_r. reflexivity.
Qed.

Lemma send_direct_cleared (env : Env) (self : VTAuderApp) (t : pystr) (q : list MessageData) (p : bool) :
  let a := _send_message_direct env (set_message_queue q (set_queue_processing p self)) t in
  let b := _send_message_direct env
             (set_message_queue q (set_queue_processing p (cleared self))) t in
  fst a = fst b /\
  _last_chatbox_sent (snd a) = _last_chatbox_sent (snd b) /\
  _message_queue (snd a) = _message_queue (snd b) /\
  _queue_processing (snd a) = _queue_processing (snd b) /\
  send_attempts (snd a) = send_attempts (snd b) /\
  chat_log (snd a) = chat_log (snd b) /\
  root_pending (snd a) = root_pending (snd b) /\
  root_next_id (snd a) = root_next_id (snd b).
Proof.
  unfold _send_message_direct, cleared.
  destruct (try_send env t) as [u | e]; [|destruct (spam_detected e)];
    fields; repeat split.
Qed.

(** C6, amended.  A spam rejection sets the timeout flag, and no event
    clears it again.  What ends the penalty is the clock: once the reading
    of the drain has reached [_chatbox_timeout_until], the drain waits for
    the minimum interval only, and it leaves by the same exit, with the
    same queue, the same pending callbacks and the same sends as it would
    with the flag cleared. *)
Theorem in_timeout_is_latched :
  (forall env self t e,
     try_send env t = Raise e ->
     spam_detected e = true ->
     _chatbox_timeout (snd (_send_message_direct env self t)) = true) /\
  (forall evs self,
     _chatbox_timeout self = true -> _chatbox_timeout (run evs self) = true) /\
  (forall env self,
     _chatbox_timeout_until self <= time_drain env ->
     let a := _process_message_queue env self in
     let b := _process_message_queue env (cleared self) in
     must_wait (time_drain env) self
     = (time_drain env - _last_chatbox_sent self <? _min_interval) /\
     fst a = fst b /\
     _message_queue (snd a) = _message_queue (snd b) /\
     _queue_processing (snd a) = _queue_processing (snd b) /\
     _last_chatbox_sent (snd a) = _last_chatbox_sent (snd b) /\
     send_attempts (snd a) = send_attempts (snd b) /\
     root_pending (snd a) = root_pending (snd b)).
Proof.
  split; [|split].
  - intros env self t e T S. unfold _send_message_direct. rewrite T, S. reflexivity.
  - induction evs as [|[env ev] evs IH]; intros self H; [exact H|].
    cbn [run]. apply IH, step_keeps_timeout, H.
  - intros env self L. cbv zeta.
    split; [apply lapse_must_wait, L|].
    pose proof (lapse_must_wait (time_drain env) self L) as W.
    unfold _process_message_queue, cleared. fields. cbn [andb orb].
    destruct (_queue_processing self || is_empty (_message_queue self));
      [repeat split|].
    fold (must_wait (time_drain env) self). rewrite W.
    destruct (Z.ltb_spec (time_drain env - _last_chatbox_sent self) _min_interval)
      as [X | X].
    + assert (M : Z.max (if _chatbox_timeout self
                         then _chatbox_timeout_until self - time_drain env else 0)
                        (_min_interval - (time_drain env - _last_chatbox_sent self))
                  = Z.max 0 (_min_interval - (time_drain env - _last_chatbox_sent self))).
      { destruct (_chatbox_timeout self); lia. }
      rewrite M. repeat split.
    + destruct (_message_queue self) as [|m rest]; [repeat split|].
      pose proof (send_direct_cleared env self (text m) rest true) as C.
      cbv zeta in C. unfold cleared in C. fields.
      destruct (_send_message_direct env
                  (set_message_queue rest (set_queue_processing true self)) (text m))
        as [ok s].
      destruct (_send_message_direct env _ (text m)) as [ok' s'].
      fields. destruct C as (-> & C2 & C3 & C4 & C5 & C6 & C7 & C8).
      destruct ok'; fields; repeat split; congruence.
Qed.

(** After the rejected ["Hello"] of [after_penalty] the flag is set; it is
    still set after any further run. *)
Lemma in_timeout_is_latched_witness :
  _chatbox_timeout after_penalty = true /\
  _chatbox_timeout
    (run [(env_at (t0 + 60000000) accepting_client, fire 1%nat)] after_penalty)
  = true.
Proof.
  split; [reflexivity|].
  apply (proj1 (proj2 in_timeout_is_latched)
           [(env_at (t0 + 60000000) accepting_client, fire 1%nat)] after_penalty).
  reflexivity.
Defined.

(** ** The bounded queue *)

Lemma lastn_app_ge {A} (n : nat) (a b : list A) :
  (n <= length b)%nat -> lastn n (a ++ b) = lastn n b.
Proof.
  intros H. unfold lastn. rewrite length_app, skipn_app.
  rewrite skipn_all2 by lia. cbn [app]. f_equal. lia.
Qed.

Lemma lastn_all {A} (n : nat) (l : list A) :
  (length l <= n)%nat -> lastn n l = l.
Proof.
  intros H. unfold lastn. replace (length l - n)%nat with 0%nat by lia.
  reflexivity.
Qed.

Lemma lastn_length {A} (n : nat) (l : list A) :
  length (lastn n l) = Nat.min n (length l).
Proof. unfold lastn. rewrite length_skipn. lia. Qed.

Lemma lastn_lastn_app {A} (n : nat) (l r : list A) :
  lastn n (lastn n l ++ r) = lastn n (l ++ r).
Proof.
  destruct (Nat.le_gt_cases (length l) n) as [H | H].
  - rewrite (lastn_all n l H). reflexivity.
  - assert (E : l = firstn (length l - n) l ++ lastn n l)
      by (unfold lastn; symmetry; apply firstn_skipn).
    rewrite E at 2. rewrite <- app_assoc.
    rewrite (lastn_app_ge n (firstn (length l - n) l) (lastn n l ++ r));
      [reflexivity|].
    rewrite length_app, lastn_length. lia.
Qed.

Lemma enqueued_lastn (q : list MessageData) (m : MessageData) :
  (length q <= 10)%nat -> enqueued q m = lastn 10 (q ++ [m]).
Proof.
  intros H. unfold enqueued, lastn, _max_queue_size. rewrite length_app.
  cbn [length]. destruct (Nat.leb_spec 10 (length q)) as [L | L].
  - replace (length q + 1 - 10)%nat with 1%nat by lia.
    destruct q as [|x q]; [simpl in L; lia | reflexivity].
  - replace (length q + 1 - 10)%nat with 0%nat by lia. reflexivity.
Qed.

Lemma enqueued_length (q : list MessageData) (m : MessageData) :
  (length q <= 10)%nat -> (length (enqueued q m) <= 10)%nat.
Proof.
  intros H. rewrite enqueued_lastn by exact H. rewrite lastn_length. lia.
Qed.

Lemma fold_enqueued (ms q : list MessageData) :
  (length q <= 10)%nat -> fold_left enqueued ms q = lastn 10 (q ++ ms).
Proof.
  revert q. induction ms as [|m ms IH]; intros q H.
  - rewrite app_nil_r. symmetry. apply lastn_all, H.
  - cbn [fold_left]. rewrite IH by (apply enqueued_length, H).
    rewrite enqueued_lastn by exact H. rewrite lastn_lastn_app.
    rewrite <- app_assoc. reflexivity.
Qed.

(** Enqueues that cannot reach the sender only push. *)
Lemma quiet_enqueues (calls : list EnqueueCall) (self : VTAuderApp) :
  Forall valid_call calls ->
  Forall (fun c => no_send (call_env c) self = true) calls ->
  _message_queue (run (enqueue_calls calls) self)
  = fold_left enqueued (map queued_as calls) (_message_queue self).
Proof.
  revert self. induction calls as [|[[env t] ty] calls IH]; intros self V N;
    [reflexivity|].
  inversion V as [|? ? V1 V2]; subst. inversion N as [|? ? N1 N2]; subst.
  cbn [enqueue_calls map run step call_env call_text fst snd fold_left] in *.
  unfold send_chatbox_message.
  destruct (add_queue env self t ty V1) as [(_ & Q & S) | (N' & _)];
    [|unfold valid_call, call_env, call_text in *; cbn [fst snd] in *; congruence].
  fold (enqueue_calls calls). rewrite IH.
  - rewrite Q. reflexivity.
  - exact V2.
  - eapply Forall_impl; [|exact N2]. intros c Hc. cbn beta in *.
    rewrite (no_send_same_sender (call_env c) _ _ S). exact Hc.
Qed.

Lemma no_send_same_time (env env' : Env) (self : VTAuderApp) :
  time_drain env = time_drain env' -> no_send env self = no_send env' self.
Proof. intros H. unfold no_send. rewrite H. reflexivity. Qed.

(** Twelve valid enqueues at one reading of the clock leave the last ten. *)
Lemma twelve_enqueues (self : VTAuderApp) (calls : list EnqueueCall) (now : Z) :
  (length (_message_queue self) <= 10)%nat ->
  length calls = 12%nat ->
  Forall valid_call calls ->
  Forall (fun c => time_drain (call_env c) = now) calls ->
  _message_queue (run (enqueue_calls calls) self)
  = map queued_as (skipn 2 calls).
Proof.
  intros L Len V T.
  destruct calls as [|c calls]; [discriminate Len|].
  inversion V as [|? ? V1 V2]; subst. inversion T as [|? ? T1 T2]; subst.
  destruct (no_send (call_env c) self) eqn:N.
  - rewrite quiet_enqueues.
    + rewrite fold_enqueued by exact L.
      rewrite lastn_app_ge by (rewrite length_map, Len; lia).
      unfold lastn. rewrite length_map, Len, skipn_map. reflexivity.
    + exact V.
    + apply Forall_forall. intros d Hd.
      rewrite Forall_forall in T. rewrite <- N.
      apply no_send_same_time. rewrite (T d Hd). reflexivity.
  - destruct c as [[env t] ty].
    cbn [enqueue_calls map run step call_env call_text fst snd] in *.
    unfold send_chatbox_message.
    destruct (add_queue env self t ty V1) as [(N' & _) | (_ & P & f & ok & Q & _)];
      [congruence|].
    fold (enqueue_calls calls). rewrite quiet_enqueues.
    + assert (L' : (length (_message_queue (snd (add_message_to_queue env self t ty)))
                    <= 10)%nat).
      { pose proof (enqueued_length (_message_queue self)
                      (Build_MessageData (snd (validate_message t)) ty (time_enqueue env)) L) as E.
        rewrite Q in E. cbn [length] in E. lia. }
      rewrite fold_enqueued by exact L'.
      cbn [length] in Len.
      rewrite lastn_app_ge by (rewrite length_map; lia).
      unfold lastn. rewrite length_map.
      replace (length calls - 10)%nat with 1%nat by lia.
      rewrite skipn_map. reflexivity.
    + exact V2.
    + apply Forall_forall. intros d _. apply processing_blocks, P.
Qed.

Lemma drain_queue_length (env : Env) (self : VTAuderApp) :
  (length (_message_queue (snd (_process_message_queue env self)))
   <= length (_message_queue self))%nat.
Proof.
  destruct (drain_cases env self)
    as [(_ & -> & _) | [(_ & _ & _ & _ & ->) | (_ & _ & m & rest & -> & -> & _)]];
    cbn [length]; lia.
Qed.

Lemma add_queue_length (env : Env) (self : VTAuderApp) (t : pystr)
    (ty : MessageType) :
  (length (_message_queue self) <= 10)%nat ->
  (length (_message_queue (snd (add_message_to_queue env self t ty))) <= 10)%nat.
Proof.
  intros L. destruct (fst (validate_message t)) eqn:V.
  - pose proof (enqueued_length (_message_queue self)
                  (Build_MessageData (snd (validate_message t)) ty (time_enqueue env)) L) as E.
    destruct (add_queue env self t ty V) as [(_ & Q & _) | (_ & _ & f & ok & Q & _)].
    + rewrite Q. exact E.
    + rewrite Q in E. cbn [length] in E. lia.
  - rewrite add_invalid by exact V. exact L.
Qed.

Lemma animate_queue_length (env : Env) (self : VTAuderApp) (send_osc : bool) :
  (length (_message_queue self) <= 10)%nat ->
  (length (_message_queue (animate_music_status env self send_osc)) <= 10)%nat.
Proof.
  intros L. unfold animate_music_status.
  set (body := if negb (_music_anim_running self) then _ else _).
  assert (H : (length (_message_queue body) <= 10)%nat).
  { subst body. unfold restart_animation.
    destruct (_music_anim_running self); cbn [negb].
    - destruct (compose_status env _) as [anim_text | e].
      + destruct (send_osc || _)%bool; fields; [|exact L].
        apply add_queue_length, L.
      + destruct (started self); fields; exact L.
    - destruct (started self); fields; exact L. }
  clearbody body.
  destruct (_music_anim_running body); fields; exact H.
Qed.

Lemma step_queue_length (env : Env) (ev : Event) (self : VTAuderApp) :
  (length (_message_queue self) <= 10)%nat ->
  (length (_message_queue (step env ev self)) <= 10)%nat.
Proof.
  assert (Stop : forall a, (length (_message_queue a) <= 10)%nat ->
                 (length (_message_queue (stop_music_animation a)) <= 10)%nat).
  { intros a La. unfold stop_music_animation. fields.
    destruct (_music_anim_after_id a); fields; exact La. }
  intros L. destruct ev as [t ty | t r | | | id | t]; cbn [step];
    [| | | | |unfold on_stt_text; fields;
              destruct (stt_message env t);
              [apply add_queue_length|]; apply Stop, L].
  - apply add_queue_length, L.
  - apply animate_queue_length. exact L.
  - apply Stop, L.
  - exact L.
  - destruct (find _ _) as [tm|]; [|exact L].
    destruct (callback tm); cbn [run_callback].
    + etransitivity; [apply drain_queue_length | exact L].
    + apply animate_queue_length. exact L.
    + apply animate_queue_length. exact L.
Qed.

Lemma run_queue_length (evs : list (Env * Event)) (self : VTAuderApp) :
  (length (_message_queue self) <= 10)%nat ->
  (length (_message_queue (run evs self)) <= 10)%nat.
Proof.
  revert self. induction evs as [|[env ev] evs IH]; intros self L; [exact L|].
  cbn [run]. apply IH, step_queue_length, L.
Qed.

(** C4.  The queue never grows beyond ten entries, whatever the events
    (enqueue calls, timers, animation), from any state within the bound and
    so from the fresh application.  A text that passes [validate_message]
    is never refused.  When the queue holds ten entries, a valid enqueue
    drops the front entry without sending it and puts the new message at
    the back (the drain it may start then sends the entry that has become
    the front).  Twelve valid enqueues that read the same time leave
    exactly the entries of the last ten calls, in order; so do the twelve
    messages ["1"] .. ["12"] on the fresh application. *)
Theorem queue_bounded_drop_oldest :
  (forall evs self,
     (length (_message_queue self) <= 10)%nat ->
     (length (_message_queue (run evs self)) <= 10)%nat) /\
  (forall evs, (length (_message_queue (run evs new_app)) <= 10)%nat) /\
  (forall env self t ty,
     fst (validate_message t) = true ->
     fst (add_message_to_queue env self t ty) = true) /\
  (forall env self t ty,
     fst (validate_message t) = true ->
     length (_message_queue self) = 10%nat ->
     let r := snd (add_message_to_queue env self t ty) in
     let m := Build_MessageData (snd (validate_message t)) ty (time_enqueue env) in
     exists rest,
       _message_queue r = rest ++ [m] /\
       ((rest = tl (_message_queue self) /\
         send_attempts r = send_attempts self)
        \/
        (exists second ok,
           tl (_message_queue self) = second :: rest /\
           send_attempts r
           = send_attempts self
             ++ [Build_SendAttempt (time_drain env) (text second) ok]))) /\
  (forall self calls now,
     (length (_message_queue self) <= 10)%nat ->
     length calls = 12%nat ->
     Forall valid_call calls ->
     Forall (fun c => time_drain (call_env c) = now) calls ->
     _message_queue (run (enqueue_calls calls) self)
     = map queued_as (skipn 2 calls)) /\
  map text (_message_queue (run (enqueue_calls twelve_calls) new_app))
  = map str_of_nat (seq 3 10).
Proof.
  split; [exact run_queue_length|].
  split; [intros evs; apply run_queue_length; cbn; lia|].
  split; [intros env self t ty V; rewrite add_valid by exact V; reflexivity|].
  split; [|split; [exact twelve_enqueues | vm_compute; reflexivity]].
  intros env self t ty V L. cbv zeta.
  assert (E : forall m, enqueued (_message_queue self) m
                        = tl (_message_queue self) ++ [m]).
  { intros m. unfold enqueued, _max_queue_size. rewrite L. reflexivity. }
  destruct (add_queue env self t ty V)
    as [(_ & Q & S) | (_ & _ & f & ok & Q & A)]; rewrite E in Q.
  - exists (tl (_message_queue self)). split; [exact Q|]. left.
    split; [reflexivity | apply S].
  - destruct (_message_queue self) as [|x [|y q]]; try discriminate L.
    cbn [tl app] in Q. injection Q as <- Q.
    exists q. split; [symmetry; exact Q|]. right.
    exists y, ok. split; [reflexivity | exact A].
Qed.

(** On the fresh application the twelve messages are within the bound,
    valid and read one time. *)
Lemma queue_bounded_drop_oldest_witness :
  ((length (_message_queue new_app) <= 10)%nat /\
   length twelve_calls = 12%nat) /\
  _message_queue (run (enqueue_calls twelve_calls) new_app)
  = map queued_as (skipn 2 twelve_calls).
Proof.
  split; [split; [cbn; lia | reflexivity]|].
  apply (proj1 (proj2 (proj2 (proj2 (proj2 queue_bounded_drop_oldest))))
           new_app twelve_calls t0).
  - cbn. lia.
  - reflexivity.
  - repeat constructor.
  - repeat constructor.
Defined.

(** ** The animation timers *)

Lemma drain_pending (env : Env) (self : VTAuderApp) :
  incl (root_pending self) (root_pending (snd (_process_message_queue env self))).
Proof.
  intros tm H. unfold _process_message_queue.
  destruct (_queue_processing self || is_empty (_message_queue self));
    [exact H|].
  fields.
  destruct ((_chatbox_timeout self
             && (time_drain env <? _chatbox_timeout_until self))
            || (time_drain env - _last_chatbox_sent self <? _min_interval));
    fields; [apply in_or_app; left; exact H|].
  destruct (_message_queue self) as [|m rest]; fields; [exact H|].
  pose proof (send_direct_frame env
                (set_message_queue rest (set_queue_processing true self))
                (text m)) as F.
  destruct (_send_message_direct env _ (text m)) as [ok s].
  fields. destruct F as (_ & _ & _ & _ & F & _).
  destruct ok; fields; rewrite F; apply in_or_app; left; exact H.
Qed.

Lemma add_pending (env : Env) (self : VTAuderApp) (t : pystr) (ty : MessageType) :
  incl (root_pending self)
    (root_pending (snd (add_message_to_queue env self t ty))).
Proof.
  destruct (fst (validate_message t)) eqn:V.
  - rewrite add_valid by exact V. fields.
    destruct (_queue_processing self); cbn [negb]; [apply incl_refl|].
    eapply incl_tran; [|apply drain_pending]. apply incl_refl.
  - rewrite add_invalid by exact V. apply incl_refl.
Qed.

Lemma animate_pending (env : Env) (self : VTAuderApp) (send_osc : bool) :
  incl (root_pending self) (root_pending (animate_music_status env self send_osc)).
Proof.
  unfold animate_music_status.
  set (body := if negb (_music_anim_running self) then _ else _).
  assert (H : incl (root_pending self) (root_pending body)).
  { subst body. unfold restart_animation.
    destruct (_music_anim_running self); cbn [negb].
    - destruct (compose_status env _) as [anim_text | e].
      + destruct (send_osc || _)%bool; fields; [|apply incl_refl].
        apply add_pending.
      + destruct (started self); fields;
          [apply incl_appl|]; apply incl_refl.
    - destruct (started self); fields;
        [apply incl_appl|]; apply incl_refl. }
  clearbody body.
  destruct (_music_anim_running body); fields; [|exact H].
  apply incl_appl, H.
Qed.

(** C7.  [start_music_animation] cancels no pending callback: whatever
    was pending before is pending afterwards, the tick of a running
    animation included.  So when two pieces of speech arrive one second
    apart, the two restarts scheduled for ten seconds later each start a
    cadence: two animation ticks are pending, only the later one is
    remembered in [_music_anim_after_id], both keep re-arming, and the
    queue receives a music message every second instead of every two.
    Stopping the animation before starting it again, as the song poller
    does, leaves a single tick pending. *)
Theorem start_music_animation_cancels_nothing :
  (forall env self title artist,
     incl (root_pending self)
       (root_pending (start_music_animation env self title artist))) /\
  (let s := run_timers 3 accepting_client two_speech_events in
   animation_ticks s
   = [Build_Timer 3 (Z.quot t0 1000 + 12000) cb_animate_music_status;
      Build_Timer 4 (Z.quot t0 1000 + 13000) cb_animate_music_status] /\
   _music_anim_after_id s = Some 4%nat) /\
  (let s := run_timers 7 accepting_client two_speech_events in
   animation_ticks s
   = [Build_Timer 7 (Z.quot t0 1000 + 16000) cb_animate_music_status;
      Build_Timer 8 (Z.quot t0 1000 + 17000) cb_animate_music_status] /\
   queue_stamps s
   = [(stt, t0 + 1000000); (music, t0 + 10000000); (music, t0 + 11000000);
      (music, t0 + 12000000); (music, t0 + 13000000); (music, t0 + 14000000);
      (music, t0 + 15000000)]) /\
  (let s1 :=
     start_music_animation (env_at t0 accepting_client) new_app
       (py "Song") (py "Artist") in
   length (animation_ticks s1) = 1%nat /\
   length (animation_ticks
             (start_music_animation (env_at (t0 + 5000000) accepting_client)
                s1 (py "Next") (py "Artist"))) = 2%nat /\
   length (animation_ticks
             (start_music_animation (env_at (t0 + 5000000) accepting_client)
                (stop_music_animation s1) (py "Next") (py "Artist"))) = 1%nat).
Proof.
  split; [|repeat split].
  intros env self title artist. unfold start_music_animation.
  eapply incl_tran; [|apply animate_pending]. apply incl_refl.
Qed.

(** * Further properties *)

(** ** Invariants of the event loop *)

Section Invariant.

Variable P : VTAuderApp -> Prop.

(** [P] looks at the sender state and the queue only. *)
Hypothesis P_core : forall a b, same_core b a -> P a -> P b.
Hypothesis P_add :
  forall env a t ty, P a -> P (snd (add_message_to_queue env a t ty)).
Hypothesis P_drain :
  forall env a, P a -> P (snd (_process_message_queue env a)).

Lemma animate_preserves (env : Env) (self : VTAuderApp) (send_osc : bool) :
  P self -> P (animate_music_status env self send_osc).
Proof.
  intros H. unfold animate_music_status.
  set (body := if negb (_music_anim_running self) then _ else _).
  assert (B : P body).
  { subst body. unfold restart_animation.
    destruct (_music_anim_running self); cbn [negb].
    - destruct (compose_status env _) as [anim_text | e].
      + destruct (send_osc || _)%bool.
        * eapply P_core; [|apply (P_add env self anim_text music), H].
          repeat split.
        * eapply P_core; [|exact H]. repeat split.
      + destruct (started self); [|exact H].
        eapply P_core; [|exact H]. repeat split.
    - destruct (started self); [|exact H].
      eapply P_core; [|exact H]. repeat split. }
  clearbody body.
  destruct (_music_anim_running body); [|exact B].
  eapply P_core; [|exact B]. repeat split.
Qed.

Lemma stop_preserves (self : VTAuderApp) :
  P self -> P (stop_music_animation self).
Proof.
  intros H. unfold stop_music_animation. fields.
  destruct (_music_anim_after_id self);
    (eapply P_core; [|exact H]); repeat split.
Qed.

Lemma step_preserves (env : Env) (ev : Event) (self : VTAuderApp) :
  P self -> P (step env ev self).
Proof.
  intros H. destruct ev as [t ty | t r | | | id | t]; cbn [step].
  - apply P_add, H.
  - unfold start_music_animation. apply animate_preserves.
    eapply P_core; [|exact H]. repeat split.
  - apply stop_preserves, H.
  - eapply P_core; [|exact H]. repeat split.
  - destruct (find _ _) as [tm|]; [|exact H].
    assert (C : P (root_after_cancel id self))
      by (eapply P_core; [|exact H]; repeat split).
    destruct (callback tm); cbn [run_callback].
    + apply P_drain, C.
    + apply animate_preserves, C.
    + unfold start_music_animation. apply animate_preserves.
      eapply P_core; [|exact C]. repeat split.
  - unfold on_stt_text. destruct (stt_message env t) as [ft|].
    + eapply P_core;
        [|apply (P_add env (stop_music_animation self) ft stt),
            stop_preserves, H].
      repeat split.
    + eapply P_core; [|apply stop_preserves, H]. repeat split.
Qed.

Lemma run_preserves (evs : list (Env * Event)) (self : VTAuderApp) :
  P self -> P (run evs self).
Proof.
  revert self. induction evs as [|[env ev] evs IH]; intros self H; [exact H|].
  cbn [run]. apply IH, step_preserves, H.
Qed.

End Invariant.

(** ** The sender over a whole session *)

(** X1.  From any state and whatever the events, [_send_message_direct] is
    called at most once more: when one call was made the processing flag is
    set from then on, and from a state whose flag is already set no call is
    made at all.  So a session of the application hands at most one text to
    the OSC client. *)
Theorem one_send_per_session (evs : list (Env * Event)) (self : VTAuderApp) :
  exists l,
    send_attempts (run evs self) = send_attempts self ++ l /\
    (length l <= 1)%nat /\
    (l <> [] -> _queue_processing (run evs self) = true) /\
    (_queue_processing self = true -> l = []) /\
    (length (send_attempts (run evs new_app)) <= 1)%nat.
Proof.
  assert (G : forall evs self,
    exists l,
      send_attempts (run evs self) = send_attempts self ++ l /\
      (length l <= 1)%nat /\
      (l <> [] -> _queue_processing (run evs self) = true) /\
      (_queue_processing self = true -> l = [])).
  { clear. induction evs as [|[env ev] evs IH]; intros self.
    - exists []. rewrite app_nil_r. repeat split; auto; contradiction.
    - cbn [run].
      destruct (step_effect env ev self)
        as [(_ & _ & _ & S4 & S5 & _) | m a' N _ _ _ _ A P].
      + destruct (IH (step env ev self)) as (l & E & L & F & Z).
        exists l. rewrite E, S5. repeat split; auto.
        intros Q. apply Z. congruence.
      + destruct (stuck_forever evs _ P) as (_ & _ & _ & F4 & F5 & _).
        eexists. rewrite F5, A. split; [reflexivity|].
        split; [cbn; lia|]. split; [intros _; congruence|].
        intros Q. unfold no_send in N. rewrite Q in N. discriminate N. }
  destruct (G evs self) as (l & E & L & F & Z).
  exists l. repeat split; auto.
  destruct (G evs new_app) as (l' & E' & L' & _). rewrite E'. exact L'.
Qed.

Lemma validate_sanitized (t : pystr) :
  fst (validate_message t) = true -> sanitized (snd (validate_message t)).
Proof.
  intros V. destruct (list_eq_dec N.eq_dec (strip t) []) as [E | E].
  - rewrite validate_message_fail in V by exact E. discriminate V.
  - rewrite validate_message_ok by exact E. cbn [snd]. repeat split.
    + etransitivity; [apply remove_char_length|].
      etransitivity; [apply remove_char_length|]. apply truncated_length.
    + intros H. apply remove_char_in in H. exact (remove_char_not_in NUL _ H).
    + apply remove_char_not_in.
Qed.

Lemma enqueued_forall (Q : MessageData -> Prop) (q : list MessageData)
    (m : MessageData) :
  Forall Q q -> Q m -> Forall Q (enqueued q m).
Proof.
  intros H Hm. unfold enqueued. apply Forall_app.
  split; [|constructor; [exact Hm | constructor]].
  destruct (_max_queue_size <=? length q)%nat; [|exact H].
  destruct H; [constructor | assumption].
Qed.

Lemma drain_sanitized (env : Env) (self : VTAuderApp) :
  all_sanitized self -> all_sanitized (snd (_process_message_queue env self)).
Proof.
  intros [Hq Ha]. unfold all_sanitized.
  destruct (drain_cases env self)
    as [(_ & -> & _) | [(_ & _ & _ & S & ->) | (_ & _ & m & rest & Q & -> & _ & _ & ok & ->)]].
  - split; assumption.
  - destruct S as (_ & _ & _ & _ & -> & _). split; assumption.
  - rewrite Q in Hq. inversion Hq as [|? ? Hm Hr]; subst.
    split; [exact Hr|]. apply Forall_app. split; [exact Ha|].
    constructor; [exact Hm | constructor].
Qed.

Lemma add_sanitized (env : Env) (self : VTAuderApp) (t : pystr)
    (ty : MessageType) :
  all_sanitized self ->
  all_sanitized (snd (add_message_to_queue env self t ty)).
Proof.
  intros [Hq Ha]. destruct (fst (validate_message t)) eqn:V.
  - pose proof (enqueued_forall (fun m => sanitized (text m)) _
                  (Build_MessageData (snd (validate_message t)) ty (time_enqueue env))
                  Hq (validate_sanitized t V)) as E.
    unfold all_sanitized.
    destruct (add_queue env self t ty V)
      as [(_ & -> & S) | (_ & _ & f & ok & Q & ->)].
    + destruct S as (_ & _ & _ & _ & -> & _). split; assumption.
    + rewrite Q in E. inversion E as [|? ? Hf Hr]; subst.
      split; [exact Hr|]. apply Forall_app. split; [exact Ha|].
      constructor; [exact Hf | constructor].
  - rewrite add_invalid by exact V. split; assumption.
Qed.

(** X2.  If every queued text and every text already handed to the sender
    is sanitized, this is still so after any run of events: the sender is
    never given a text longer than 144 characters or one that holds a NUL
    or a CR, and so it is on the fresh application. *)
Theorem sender_gets_sanitized_text (evs : list (Env * Event))
    (self : VTAuderApp) :
  all_sanitized self -> all_sanitized (run evs self).
Proof.
  apply run_preserves.
  - intros a b (S & Q) [Hq Ha]. unfold all_sanitized.
    destruct S as (_ & _ & _ & _ & -> & _). rewrite Q. split; assumption.
  - intros env a t ty. apply add_sanitized.
  - intros env a. apply drain_sanitized.
Qed.

(** The fresh application holds no text at all. *)
Lemma sender_gets_sanitized_text_witness :
  all_sanitized new_app /\ all_sanitized hello_world.
Proof.
  assert (H : all_sanitized new_app) by (split; constructor).
  split; [exact H|].
  exact (sender_gets_sanitized_text _ new_app H).
Defined.

(** ** Waiting *)

Lemma must_wait_iff (now : Z) (self : VTAuderApp) :
  must_wait now self = true <-> 0 < time_until_ready now self.
Proof.
  unfold must_wait, time_until_ready.
  rewrite orb_true_iff, andb_true_iff, !Z.ltb_lt.
  destruct (_chatbox_timeout self); split; intros H.
  - destruct H as [[_ H] | H]; lia.
  - destruct (Z.max_spec (_chatbox_timeout_until self - now)
                (_min_interval - (now - _last_chatbox_sent self)))
      as [[_ E] | [_ E]]; rewrite E in H; [right | left; split; [reflexivity|]]; lia.
  - destruct H as [[H _] | H]; [discriminate H | lia].
  - right. lia.
Qed.

(** X3.  The test that makes the drain wait (main.py:165-166) holds exactly
    when the wait computed from it (main.py:168-171) is positive.  A drain
    that waits pops nothing, sends nothing, clears the processing flag and
    schedules one callback of itself; its delay in milliseconds is the
    wait cut to whole milliseconds, so it is not negative and the callback
    comes less than one millisecond before the sender is free again. *)
Theorem retry_is_scheduled_for_ready_time (env : Env) (self : VTAuderApp) :
  let r := _process_message_queue env self in
  let wait := time_until_ready (time_drain env) self in
  (must_wait (time_drain env) self = true <-> 0 < wait) /\
  (fst r = exit_retry <->
   _queue_processing self = false /\ _message_queue self <> [] /\ 0 < wait) /\
  (fst r = exit_retry ->
   exists delay,
     0 <= delay /\ 1000 * delay <= wait < 1000 * delay + 1000 /\
     root_pending (snd r)
     = root_pending self
       ++ [Build_Timer (root_next_id self) (tk_now env + delay)
             cb_process_message_queue] /\
     _message_queue (snd r) = _message_queue self /\
     send_attempts (snd r) = send_attempts self /\
     _queue_processing (snd r) = false).
Proof.
  cbv zeta.
  pose proof (must_wait_iff (time_drain env) self) as W.
  split; [exact W|].
  unfold _process_message_queue.
  destruct (_queue_processing self) eqn:P; cbn [orb].
  { split; [split|]; [intros X; discriminate X | intros (X & _); discriminate X
                     | intros X; discriminate X]. }
  destruct (_message_queue self) as [|m rest] eqn:Q; cbn [is_empty].
  { split; [split|]; [intros X; discriminate X | intros (_ & X & _); contradiction
                     | intros X; discriminate X]. }
  fields. rewrite Q.
  fold (must_wait (time_drain env) self).
  fold (time_until_ready (time_drain env) self).
  destruct (must_wait (time_drain env) self) eqn:M.
  - assert (H : 0 < time_until_ready (time_drain env) self) by (apply W; reflexivity).
    split; [split; [intros _; repeat split; [discriminate | exact H] | reflexivity]|].
    intros _. exists (Z.quot (time_until_ready (time_drain env) self) 1000).
    fields. rewrite Q.
    pose proof (Z.quot_rem' (time_until_ready (time_drain env) self) 1000) as D.
    pose proof (Z.rem_bound_pos (time_until_ready (time_drain env) self) 1000) as B.
    assert (0 <= Z.quot (time_until_ready (time_drain env) self) 1000)
      by (apply Z.quot_pos; lia).
    repeat split; try reflexivity; lia.
  - destruct (_send_message_direct env _ (text m)) as [ok s].
    split; [split|]; [intros X; discriminate X | | intros X; discriminate X].
    intros (_ & _ & H). apply W in H. discriminate H.
Qed.

(** A message waits in a queue whose sender was used a second ago. *)
Lemma retry_is_scheduled_for_ready_time_witness :
  fst (_process_message_queue (env_at (t0 + 1000000) accepting_client)
         (set_message_queue [Build_MessageData (py "World") manual t0]
            (set_last_chatbox_sent t0 new_app)))
  = exit_retry /\
  exists delay,
    0 <= delay /\
    1000 * delay
    <= time_until_ready (t0 + 1000000)
         (set_message_queue [Build_MessageData (py "World") manual t0]
            (set_last_chatbox_sent t0 new_app))
    < 1000 * delay + 1000.
Proof.
  split; [reflexivity|].
  destruct (proj2 (proj2 (retry_is_scheduled_for_ready_time
                            (env_at (t0 + 1000000) accepting_client)
                            (set_message_queue [Build_MessageData (py "World") manual t0]
                               (set_last_chatbox_sent t0 new_app))))
              eq_refl) as (delay & D0 & D1 & _).
  exists delay. split; [exact D0 | exact D1].
Defined.

Lemma interval_blocks (env : Env) (self : VTAuderApp) :
  time_drain env - _last_chatbox_sent self < _min_interval ->
  no_send env self = true.
Proof.
  intros L. unfold no_send, must_wait.
  apply Z.ltb_lt in L. rewrite L. rewrite !orb_true_r. reflexivity.
Qed.

(** X4.  As long as every handler reads a time less than 1.5 s after the
    last successful send, nothing is handed to the sender, however many
    messages are enqueued and whatever callbacks run; the time of the last
    send and the penalty stay as they are. *)
Theorem min_interval_backoff (evs : list (Env * Event)) (self : VTAuderApp) :
  Forall (fun e => time_drain (fst e) - _last_chatbox_sent self < _min_interval)
    evs ->
  send_attempts (run evs self) = send_attempts self /\
  _last_chatbox_sent (run evs self) = _last_chatbox_sent self /\
  _chatbox_timeout (run evs self) = _chatbox_timeout self /\
  _chatbox_timeout_until (run evs self) = _chatbox_timeout_until self.
Proof.
  intros H.
  assert (S : same_sender (run evs self) self).
  { apply run_quiet. eapply Forall_impl; [|exact H].
    intros e L. cbn beta in *. apply interval_blocks, L. }
  destruct S as (S1 & S2 & S3 & _ & S5 & _). repeat split; assumption.
Qed.

(** One second after a send, an enqueue sends nothing. *)
Lemma min_interval_backoff_witness :
  Forall (fun e => time_drain (fst e) - _last_chatbox_sent hello_sent
                   < _min_interval)
    [(env_at (t0 + 1000000) accepting_client,
      call_send_chatbox_message (py "World") manual)] /\
  send_attempts
    (run [(env_at (t0 + 1000000) accepting_client,
           call_send_chatbox_message (py "World") manual)] hello_sent)
  = send_attempts hello_sent.
Proof.
  assert (H : Forall (fun e => time_drain (fst e) - _last_chatbox_sent hello_sent
                               < _min_interval)
                [(env_at (t0 + 1000000) accepting_client,
                  call_send_chatbox_message (py "World") manual)])
    by (repeat constructor).
  split; [exact H|].
  exact (proj1 (min_interval_backoff _ hello_sent H)).
Defined.

(** ** The status line *)

Lemma send_direct_ok_keeps_timeout (env : Env) (self : VTAuderApp) (t : pystr) :
  fst (_send_message_direct env self t) = true ->
  _chatbox_timeout (snd (_send_message_direct env self t))
  = _chatbox_timeout self.
Proof.
  unfold _send_message_direct.
  destruct (try_send env t) as [u | e]; [reflexivity|].
  destruct (spam_detected e); intros X; discriminate X.
Qed.

Lemma timeout_needs_failure (evs : list (Env * Event)) (self : VTAuderApp) :
  (_chatbox_timeout self = true ->
   existsb (fun a => negb (sent_ok a)) (send_attempts self) = true) ->
  _chatbox_timeout (run evs self) = true ->
  existsb (fun a => negb (sent_ok a)) (send_attempts (run evs self)) = true.
Proof.
  revert self. induction evs as [|[env ev] evs IH]; intros self H; [exact H|].
  cbn [run]. apply IH. intros T.
  destruct (step_effect env ev self)
    as [(_ & S2 & _ & _ & S5 & _) | m a' _ (_ & L & _) _ T' _ A _].
  - rewrite S5. apply H. congruence.
  - rewrite A, existsb_app. cbn [existsb sent_ok].
    destruct (fst (_send_message_direct env a' (text m))) eqn:F;
      [|rewrite orb_true_r; reflexivity].
    rewrite (send_direct_ok_keeps_timeout env a' (text m) F) in T'.
    rewrite H by congruence. reflexivity.
Qed.

(** X5.  On the application started fresh, after any run of events,
    [get_queue_status] reads ["Queue: n/10 | Status: ..."] with [n] the
    length of the queue, which is at most 10; the status is TIMEOUT only
    if some call of [_send_message_direct] has failed, and READY as long as
    every call succeeded. *)
Theorem status_line_of_a_session (evs : list (Env * Event)) :
  let s := run evs new_app in
  (length (_message_queue s) <= 10)%nat /\
  get_queue_status s
  = py "Queue: " ++ str_of_nat (length (_message_queue s)) ++ py "/10 | Status: "
    ++ (if _chatbox_timeout s then py "TIMEOUT" else py "READY") /\
  (_chatbox_timeout s = true ->
   existsb (fun a => negb (sent_ok a)) (send_attempts s) = true) /\
  (forallb sent_ok (send_attempts s) = true ->
   get_queue_status s
   = py "Queue: " ++ str_of_nat (length (_message_queue s))
     ++ py "/10 | Status: READY").
Proof.
  cbv zeta.
  assert (T : _chatbox_timeout (run evs new_app) = true ->
              existsb (fun a => negb (sent_ok a))
                (send_attempts (run evs new_app)) = true).
  { apply timeout_needs_failure. intros X. discriminate X. }
  split; [apply run_queue_length; cbn; lia|].
  split; [reflexivity|].
  split; [exact T|].
  intros F. unfold get_queue_status.
  destruct (_chatbox_timeout (run evs new_app)) eqn:E.
  - specialize (T eq_refl). apply existsb_exists in T.
    destruct T as (a & Ia & Na).
    rewrite forallb_forall in F. rewrite (F a Ia) in Na. discriminate Na.
  - reflexivity.
Qed.

(** ** The animation frame and its timers *)

(** X6.  The frame shown at step [index] is the window of three glyphs
    that starts at [index] in the 14-glyph string read round: the slice
    with wrap-around of main.py:262-263 never comes out shorter than
    three, and the frames repeat every 14 steps. *)
Theorem music_frame_is_circular_window (index : nat) :
  music_frame index = [glyph index; glyph (index + 1); glyph (index + 2)] /\
  music_frame (index + 14) = music_frame index.
Proof.
  assert (W : forall i,
    music_frame i = [glyph i; glyph (i + 1); glyph (i + 2)]).
  { intros i. unfold music_frame, glyph.
    change (length MUSIC_ASCII_ANIMATION) with 14%nat.
    rewrite <- (Nat.Div0.add_mod_idemp_l i 1 14).
    rewrite <- (Nat.Div0.add_mod_idemp_l i 2 14).
    pose proof (Nat.mod_upper_bound i 14 ltac:(lia)) as B.
    destruct (i mod 14)%nat as [|k]; [reflexivity|].
    do 13 (destruct k as [|k]; [reflexivity|]). lia. }
  assert (G : forall k, glyph (k + 14) = glyph k).
  { intros k. unfold glyph.
    replace (k + 14)%nat with (k + 1 * 14)%nat by lia.
    rewrite Nat.Div0.mod_add. reflexivity. }
  split; [apply W|]. rewrite !W.
  replace (index + 14 + 1)%nat with (index + 1 + 14)%nat by lia.
  replace (index + 14 + 2)%nat with (index + 2 + 14)%nat by lia.
  rewrite !G. reflexivity.
Qed.

Lemma drain_ticks (env : Env) (self : VTAuderApp) :
  animation_ticks (snd (_process_message_queue env self)) = animation_ticks self.
Proof.
  unfold animation_ticks, _process_message_queue.
  destruct (_queue_processing self || is_empty (_message_queue self));
    [reflexivity|].
  fields.
  destruct ((_chatbox_timeout self
             && (time_drain env <? _chatbox_timeout_until self))
            || (time_drain env - _last_chatbox_sent self <? _min_interval));
    fields; [rewrite filter_app; cbn [filter callback]; apply app_nil_r|].
  destruct (_message_queue self) as [|m rest]; fields; [reflexivity|].
  pose proof (send_direct_frame env
                (set_message_queue rest (set_queue_processing true self))
                (text m)) as F.
  destruct (_send_message_direct env _ (text m)) as [ok s].
  fields. destruct F as (_ & _ & _ & _ & F & _).
  destruct ok; fields; rewrite F, filter_app; cbn [filter callback];
    apply app_nil_r.
Qed.

Lemma add_ticks (env : Env) (self : VTAuderApp) (t : pystr) (ty : MessageType) :
  animation_ticks (snd (add_message_to_queue env self t ty))
  = animation_ticks self.
Proof.
  destruct (fst (validate_message t)) eqn:V.
  - rewrite add_valid by exact V. fields.
    destruct (_queue_processing self); cbn [negb]; [reflexivity|].
    rewrite drain_ticks. reflexivity.
  - rewrite add_invalid by exact V. reflexivity.
Qed.

Lemma filter_comm {A} (f g : A -> bool) (l : list A) :
  filter f (filter g l) = filter g (filter f l).
Proof.
  induction l as [|a l IH]; [reflexivity|].
  cbn [filter]. destruct (g a) eqn:G, (f a) eqn:F; cbn [filter];
    rewrite ?G, ?F, IH; reflexivity.
Qed.

Lemma cancel_ticks (id : nat) (self : VTAuderApp) :
  animation_ticks (root_after_cancel id self)
  = filter (fun t => negb (after_id t =? id)%nat) (animation_ticks self).
Proof. unfold animation_ticks. fields. apply filter_comm. Qed.

Lemma send_direct_animation (env : Env) (self : VTAuderApp) (t : pystr) :
  same_animation (snd (_send_message_direct env self t)) self.
Proof.
  unfold _send_message_direct.
  destruct (try_send env t) as [u | e]; [|destruct (spam_detected e)];
    repeat split.
Qed.

Lemma drain_animation (env : Env) (self : VTAuderApp) :
  same_animation (snd (_process_message_queue env self)) self.
Proof.
  unfold _process_message_queue.
  destruct (_queue_processing self || is_empty (_message_queue self));
    [repeat split|].
  fields.
  destruct ((_chatbox_timeout self
             && (time_drain env <? _chatbox_timeout_until self))
            || (time_drain env - _last_chatbox_sent self <? _min_interval));
    [repeat split|].
  destruct (_message_queue self) as [|m rest]; [repeat split|].
  pose proof (send_direct_animation env
                (set_message_queue rest (set_queue_processing true self))
                (text m)) as F.
  destruct (_send_message_direct env _ (text m)) as [ok s].
  destruct ok; exact F.
Qed.

Lemma add_animation (env : Env) (self : VTAuderApp) (t : pystr)
    (ty : MessageType) :
  same_animation (snd (add_message_to_queue env self t ty)) self.
Proof.
  destruct (fst (validate_message t)) eqn:V.
  - rewrite add_valid by exact V. fields.
    destruct (_queue_processing self); cbn [negb]; [repeat split|].
    match goal with
    | |- same_animation (snd (_process_message_queue ?e ?s1)) _ =>
        exact (drain_animation e s1)
    end.
  - rewrite add_invalid by exact V. repeat split.
Qed.

(** A tick on a running animation re-arms one tick. *)
Lemma animate_running (env : Env) (self : VTAuderApp) (send_osc : bool) :
  _music_anim_running self = true ->
  (forall b e, compose_status env b = Raise e -> started self = false) ->
  exists id,
    animation_ticks (animate_music_status env self send_osc)
    = animation_ticks self
      ++ [Build_Timer id (tk_now env + 2000) cb_animate_music_status] /\
    _music_anim_after_id (animate_music_status env self send_osc) = Some id /\
    _music_anim_running (animate_music_status env self send_osc) = true.
Proof.
  intros R C. unfold animate_music_status. rewrite R. cbn [negb].
  assert (F : forall body,
    animation_ticks body = animation_ticks self ->
    _music_anim_running body = true ->
    exists id,
      animation_ticks
        (if _music_anim_running body
         then let (id, self0) :=
                root_after env MUSIC_ANIMATION_INTERVAL
                  cb_animate_music_status body in
              set_music_anim_after_id (Some id) self0
         else body)
      = animation_ticks self
        ++ [Build_Timer id (tk_now env + 2000) cb_animate_music_status] /\
      _music_anim_after_id
        (if _music_anim_running body
         then let (id, self0) :=
                root_after env MUSIC_ANIMATION_INTERVAL
                  cb_animate_music_status body in
              set_music_anim_after_id (Some id) self0
         else body) = Some id /\
      _music_anim_running
        (if _music_anim_running body
         then let (id, self0) :=
                root_after env MUSIC_ANIMATION_INTERVAL
                  cb_animate_music_status body in
              set_music_anim_after_id (Some id) self0
         else body) = true).
  { intros body TB RB. rewrite RB. exists (root_next_id body).
    unfold animation_ticks in *. fields. rewrite filter_app, TB.
    repeat split. exact RB. }
  destruct (compose_status env _) as [anim_text | e] eqn:E.
  - apply F.
    + destruct (send_osc || _)%bool; [|reflexivity].
      exact (add_ticks env self anim_text music).
    + destruct (send_osc || _)%bool; [|exact R].
      pose proof (add_animation env self anim_text music) as (_ & A & _).
      exact (eq_trans A R).
  - rewrite (C _ _ E). apply F; [reflexivity | exact R].
Qed.

(** X7.  Started on a state with no animation tick pending, in which the
    text of the frame can be composed or the application is not started,
    [start_music_animation] leaves the animation running with exactly one
    tick pending, due 2 s later and remembered in [_music_anim_after_id];
    [stop_music_animation] then leaves it stopped with no tick pending. *)
Theorem stop_ends_a_started_animation (env : Env) (self : VTAuderApp)
    (title artist : pystr) :
  animation_ticks self = [] ->
  (forall b e, compose_status env b = Raise e -> started self = false) ->
  let s := start_music_animation env self title artist in
  (exists id,
     animation_ticks s
     = [Build_Timer id (tk_now env + 2000) cb_animate_music_status] /\
     _music_anim_after_id s = Some id) /\
  _music_anim_running s = true /\
  animation_ticks (stop_music_animation s) = [] /\
  _music_anim_running (stop_music_animation s) = false /\
  _music_anim_after_id (stop_music_animation s) = None.
Proof.
  intros T C s.
  assert (S1 : exists id,
     animation_ticks s
     = [Build_Timer id (tk_now env + 2000) cb_animate_music_status] /\
     _music_anim_after_id s = Some id /\ _music_anim_running s = true).
  { subst s. unfold start_music_animation.
    destruct (animate_running env
                (set_music_anim_running true
                   (set_music_anim_subject title artist
                      (set_music_anim_index 0 self))) true eq_refl C)
      as (id & A1 & A2 & A3).
    exists id. split; [|split; assumption].
    rewrite A1.
    change (animation_ticks (set_music_anim_running true
              (set_music_anim_subject title artist
                 (set_music_anim_index 0 self))))
      with (animation_ticks self).
    rewrite T. reflexivity. }
  destruct S1 as (id & S1 & S2 & S3).
  split; [exists id; split; assumption|]. split; [exact S3|].
  unfold stop_music_animation. fields. rewrite S2.
  split; [|split; reflexivity].
  assert (E : animation_ticks
                (root_after_cancel id (set_music_anim_running false s)) = []).
  { rewrite cancel_ticks.
    change (animation_ticks (set_music_anim_running false s))
      with (animation_ticks s).
    rewrite S1. cbn [filter after_id]. rewrite Nat.eqb_refl. reflexivity. }
  exact E.
Qed.

(** A fresh application whose widgets show the text as it is. *)
Lemma stop_ends_a_started_animation_witness :
  animation_ticks new_app = [] /\
  animation_ticks
    (stop_music_animation
       (start_music_animation (env_at t0 accepting_client) new_app
          (py "Song") (py "Artist")))
  = [].
Proof.
  split; [reflexivity|].
  apply (stop_ends_a_started_animation (env_at t0 accepting_client) new_app
           (py "Song") (py "Artist")).
  - reflexivity.
  - intros b e E. discriminate E.
Defined.

(** X8.  A tick that finds the animation stopped ends the cadence only
    when the application is not started: it then changes nothing.  When
    the application is started, the tick sets the animation running again
    and leaves two new ticks pending, one second and two seconds later,
    of which the later is the one remembered; the queue is untouched. *)
Theorem tick_on_a_stopped_animation (env : Env) (self : VTAuderApp)
    (send_osc : bool) :
  _music_anim_running self = false ->
  (started self = false -> animate_music_status env self send_osc = self) /\
  (started self = true ->
   let s := animate_music_status env self send_osc in
   _music_anim_running s = true /\
   root_pending s
   = root_pending self
     ++ [Build_Timer (root_next_id self) (tk_now env + 1000)
           cb_animate_music_status;
         Build_Timer (S (root_next_id self)) (tk_now env + 2000)
           cb_animate_music_status] /\
   _music_anim_after_id s = Some (S (root_next_id self)) /\
   _music_anim_index s = _music_anim_index self /\
   same_core s self).
Proof.
  intros R. unfold animate_music_status, restart_animation. rewrite R.
  cbn [negb]. split; intros S; rewrite S.
  - rewrite R. reflexivity.
  - fields. rewrite <- app_assoc. repeat split.
Qed.

(** A tick left over after [stop_music_animation] on a started
    application: two ticks come back. *)
Lemma tick_on_a_stopped_animation_witness :
  _music_anim_running (set_started true new_app) = false /\
  length (animation_ticks
            (animate_music_status (env_at t0 accepting_client)
               (set_started true new_app) true)) = 2%nat.
Proof.
  split; [reflexivity|].
  pose proof (proj2 (tick_on_a_stopped_animation (env_at t0 accepting_client)
                       (set_started true new_app) true eq_refl) eq_refl)
    as (_ & P & _).
  unfold animation_ticks. rewrite P. reflexivity.
Defined.

(** ** Texts longer than the limit *)

Lemma collapse_space (x : char) (s : pystr) :
  isspace x = true -> collapse (x :: s) = collapse s.
Proof. intros H. unfold collapse. rewrite split_space by exact H. reflexivity. Qed.

Lemma join_cons_char (x : char) (w : pystr) (ws : list pystr) :
  join (py " ") ((x :: w) :: ws) = x :: join (py " ") (w :: ws).
Proof. destruct ws; reflexivity. Qed.

Lemma collapse_cons (x : char) (s : pystr) :
  isspace x = false ->
  collapse (x :: s)
  = x :: match s with
         | [] => []
         | d :: _ =>
             if isspace d
             then match split s with
                  | [] => []
                  | _ :: _ => SPACE :: collapse s
                  end
             else collapse s
         end.
Proof.
  intros H. unfold collapse. destruct s as [|d s].
  - rewrite split_last by exact H. reflexivity.
  - destruct (isspace d) eqn:D.
    + rewrite split_end_of_word by assumption.
      rewrite (split_space d s D).
      destruct (split s); reflexivity.
    + rewrite split_in_word by assumption.
      pose proof (split_nonspace_nonempty d s D) as N.
      destruct (split (d :: s)) as [|w ws]; [contradiction|].
      apply join_cons_char.
Qed.

Lemma collapse_nil_iff (s : pystr) : collapse s = [] <-> split s = [].
Proof.
  split; intros H; [|unfold collapse; rewrite H; reflexivity].
  pose proof (split_words s) as W. unfold collapse in H.
  destruct (split s) as [|w ws]; [reflexivity|].
  inversion W as [|? ? [Hne _] _]; subst.
  destruct w as [|c w]; [contradiction|].
  rewrite join_cons_char in H. discriminate H.
Qed.

(** What a text collapses to is the beginning of what any longer text
    collapses to. *)
Lemma collapse_prefix (b c : pystr) :
  exists r, collapse (b ++ c) = collapse b ++ r.
Proof.
  induction b as [|x b IH]; [exists (collapse c); reflexivity|].
  destruct IH as [r IH].
  change ((x :: b) ++ c) with (x :: (b ++ c)).
  destruct (isspace x) eqn:X.
  - rewrite !collapse_space by exact X. exists r. exact IH.
  - rewrite !collapse_cons by exact X.
    destruct b as [|d b].
    + eexists. reflexivity.
    + change ((d :: b) ++ c) with (d :: (b ++ c)) in *.
      cbv beta iota.
      destruct (isspace d) eqn:D.
      * destruct (split (d :: b)) as [|w ws] eqn:S; [eexists; reflexivity|].
        destruct (split (d :: b ++ c)) as [|w' ws'] eqn:S'.
        -- exfalso. apply collapse_nil_iff in S'. rewrite S' in IH.
           symmetry in IH. apply app_eq_nil in IH. destruct IH as [IH _].
           apply collapse_nil_iff in IH. rewrite IH in S. discriminate S.
        -- exists r. rewrite IH. reflexivity.
      * exists r. rewrite IH. reflexivity.
Qed.

Lemma text_beyond_the_limit_is_ignored_aux (b c : pystr) :
  (144 < length (collapse b))%nat ->
  validate_message (b ++ c) = validate_message b.
Proof.
  intros L. destruct (collapse_prefix b c) as [r R].
  assert (Nb : strip b <> []).
  { intros E. apply strip_nil_iff, split_nil_iff, collapse_nil_iff in E.
    rewrite E in L. cbn in L. lia. }
  assert (Nbc : strip (b ++ c) <> []).
  { intros E. apply strip_nil_iff, split_nil_iff, collapse_nil_iff in E.
    rewrite R in E. apply app_eq_nil in E. destruct E as [E _].
    rewrite E in L. cbn in L. lia. }
  rewrite !validate_message_ok by assumption. cbv zeta.
  fold (collapse b). fold (collapse (b ++ c)).
  assert (L' : (144 < length (collapse (b ++ c)))%nat)
    by (rewrite R, length_app; lia).
  apply Nat.ltb_lt in L, L'. rewrite L, L'.
  apply Nat.ltb_lt in L.
  rewrite R, firstn_app.
  replace (141 - length (collapse b))%nat with 0%nat by lia.
  cbn [firstn]. rewrite app_nil_r. reflexivity.
Qed.

(** X9.  Once a text collapses to more than 144 characters, nothing that
    is appended to it changes what [validate_message] returns: the result
    is made of its first 141 collapsed characters alone. *)
Theorem text_beyond_the_limit_is_ignored (b c : pystr) :
  (144 < length (collapse b))%nat ->
  validate_message (b ++ c) = validate_message b /\
  fst (validate_message b) = true /\
  snd (validate_message b)
  = remove_char CR (remove_char NUL (firstn 141 (collapse b))) ++ py "...".
Proof.
  intros L. split; [apply text_beyond_the_limit_is_ignored_aux, L|].
  assert (Nb : strip b <> []).
  { intros E. apply strip_nil_iff, split_nil_iff, collapse_nil_iff in E.
    rewrite E in L. cbn in L. lia. }
  rewrite validate_message_ok by exact Nb. cbv zeta. fold (collapse b).
  apply Nat.ltb_lt in L. rewrite L. split; [reflexivity|].
  cbn [snd]. rewrite !remove_char_app. reflexivity.
Qed.

(** 145 letters, and one more. *)
Lemma text_beyond_the_limit_is_ignored_witness :
  (144 < length (collapse (repeat 97%N 145)))%nat /\
  validate_message (repeat 97%N 145 ++ py " and more")
  = validate_message (repeat 97%N 145).
Proof.
  assert (H : (144 < length (collapse (repeat 97%N 145)))%nat)
    by (vm_compute; lia).
  split; [exact H|].
  exact (proj1 (text_beyond_the_limit_is_ignored _ (py " and more") H)).
Defined.

(** ** Speech and time stamps *)

(** X10.  With an empty buffer, or for a text that is empty or all
    whitespace, the speech buffer becomes the text itself, so what was
    said before is dropped.  Otherwise the text is added to the buffer
    after [". "] or [" "], the full stop being put exactly when the buffer
    does not end in [.], [!] or [?] and the text starts with an upper-case
    letter.  So once the buffer, with or without a time stamp before it,
    collapses to more than 144 characters, further speech does not change
    the message that is validated. *)
Theorem speech_buffer_grows (isupper : char -> bool) (buffer text : pystr) :
  let next := stt_chat_buffer isupper buffer text in
  (buffer = [] \/ strip text = [] -> next = text) /\
  (buffer <> [] -> strip text <> [] ->
   (next = buffer ++ py ". " ++ text \/ next = buffer ++ py " " ++ text) /\
   (next = buffer ++ py ". " ++ text <->
    contains (last_or_empty buffer) (py ".!?") = false /\
    str_isupper isupper (first_or_empty text) = true) /\
   forall clock,
     (144 < length (collapse (format_message_with_time clock buffer)))%nat ->
     validate_message (format_message_with_time clock next)
     = validate_message (format_message_with_time clock buffer)).
Proof.
  cbv zeta. unfold stt_chat_buffer. split.
  - intros [-> | E]; [reflexivity|]. rewrite E.
    rewrite andb_false_r. reflexivity.
  - intros B T.
    destruct buffer as [|b0 buffer]; [contradiction|].
    destruct (strip text) eqn:E; [contradiction|]. cbn [is_empty negb andb].
    set (buf := b0 :: buffer) in *.
    assert (A : forall sep clock,
      (144 < length (collapse (format_message_with_time clock buf)))%nat ->
      validate_message (format_message_with_time clock (buf ++ sep ++ text))
      = validate_message (format_message_with_time clock buf)).
    { intros sep [ct|] L; cbn [format_message_with_time] in *.
      - replace (py "[" ++ ct ++ py "] " ++ buf ++ sep ++ text)
          with ((py "[" ++ ct ++ py "] " ++ buf) ++ sep ++ text)
          by (rewrite <- !app_assoc; reflexivity).
        apply text_beyond_the_limit_is_ignored_aux, L.
      - apply text_beyond_the_limit_is_ignored_aux, L. }
    destruct (negb (contains (last_or_empty buf) (py ".!?"))
              && str_isupper isupper (first_or_empty text)) eqn:C.
    + split; [left; reflexivity|]. split; [|apply A].
      apply andb_true_iff in C. destruct C as [C1 C2].
      apply negb_true_iff in C1. tauto.
    + split; [right; reflexivity|]. split; [|apply A].
      split.
      * intros X. apply app_inv_head in X. discriminate X.
      * intros [C1 C2]. rewrite C1, C2 in C. discriminate C.
Qed.

Lemma stamp_is_word (ct : pystr) :
  Forall (fun x => isspace x = false) ct -> word (py "[" ++ ct ++ py "]").
Proof.
  intros W. split; [discriminate|].
  apply Forall_app. split; [repeat constructor|].
  apply Forall_app. split; [exact W | repeat constructor].
Qed.

Lemma stamped_split (ct message : pystr) :
  Forall (fun x => isspace x = false) ct ->
  split (format_message_with_time (Some ct) message)
  = (py "[" ++ ct ++ py "]") :: split message.
Proof.
  intros W. cbn [format_message_with_time].
  replace (py "[" ++ ct ++ py "] " ++ message)
    with ((py "[" ++ ct ++ py "]") ++ SPACE :: message)
    by (rewrite <- !app_assoc; reflexivity).
  apply split_word_then_space, stamp_is_word, W.
Qed.

(** X11.  With the time display on, the text handed to [validate_message]
    is never rejected, whatever the message: the stamp [[HH:MM:SS]] is a
    word of its own before the words of the message.  A message that is
    empty or all whitespace, which [validate_message] rejects as it is, is
    accepted with the stamp before it and becomes the bare stamp. *)
Theorem time_stamp_passes_validation (ct message : pystr) :
  Forall (fun x => isspace x = false) ct ->
  let stamped := format_message_with_time (Some ct) message in
  fst (validate_message stamped) = true /\
  collapse stamped
  = py "[" ++ ct ++ py "]"
    ++ (if is_empty (split message) then [] else SPACE :: collapse message) /\
  (strip message = [] -> (length ct <= 142)%nat -> ~ In NUL ct ->
   validate_message (format_message_with_time None message)
   = (false, py "Empty message") /\
   validate_message stamped = (true, py "[" ++ ct ++ py "]")).
Proof.
  intros W stamped.
  pose proof (stamped_split ct message W) as S. fold stamped in S.
  assert (N : strip stamped <> []).
  { intros E. apply strip_nil_iff, split_nil_iff in E.
    rewrite E in S. discriminate S. }
  assert (C : collapse stamped
              = py "[" ++ ct ++ py "]"
                ++ (if is_empty (split message) then []
                    else SPACE :: collapse message)).
  { unfold collapse. rewrite S.
    destruct (split message) as [|w ws]; cbn [is_empty].
    - cbn [join]. rewrite !app_nil_r. reflexivity.
    - rewrite join_cons. rewrite <- !app_assoc. reflexivity. }
  split; [rewrite validate_message_ok by exact N; reflexivity|].
  split; [exact C|].
  intros B L Z. split; [apply validate_message_fail, B|].
  rewrite validate_message_ok by exact N. cbv zeta. fold (collapse stamped).
  rewrite C.
  apply strip_nil_iff, split_nil_iff in B. rewrite B. cbn [is_empty].
  assert (Len : (144 <? length (py "[" ++ ct ++ py "]" ++ []))%nat = false).
  { apply Nat.ltb_ge. rewrite !length_app. cbn [length py map
      list_ascii_of_string]. lia. }
  rewrite Len, app_nil_r.
  assert (NoNul : ~ In NUL (py "[" ++ ct ++ py "]")).
  { intros H. apply in_app_or in H. destruct H as [[H | []] | H];
      [discriminate H|].
    apply in_app_or in H. destruct H as [H | [H | []]];
      [exact (Z H) | discriminate H]. }
  assert (NoCr : ~ In CR (py "[" ++ ct ++ py "]")).
  { intros H. apply in_app_or in H. destruct H as [[H | []] | H];
      [discriminate H|].
    apply in_app_or in H. destruct H as [H | [H | []]];
      [|discriminate H].
    rewrite Forall_forall in W. specialize (W _ H). discriminate W. }
  rewrite (remove_char_absent NUL) by exact NoNul.
  rewrite (remove_char_absent CR) by exact NoCr. reflexivity.
Qed.

(** Noon, and a message of two spaces. *)
Lemma time_stamp_passes_validation_witness :
  Forall (fun x => isspace x = false) (py "12:00:00") /\
  validate_message (py "  ") = (false, py "Empty message") /\
  validate_message (format_message_with_time (Some (py "12:00:00")) (py "  "))
  = (true, py "[12:00:00]").
Proof.
  assert (W : Forall (fun x => isspace x = false) (py "12:00:00"))
    by (repeat constructor).
  split; [exact W|].
  destruct (time_stamp_passes_validation (py "12:00:00") (py "  ") W)
    as (_ & _ & H).
  apply H; [reflexivity | cbn; lia |].
  intros I. cbn in I. repeat (destruct I as [I | I]; [discriminate I|]).
  exact I.
Defined.

(** ** Gestures *)

(** X12.  [on_gesture_text] does nothing when the VRChat switch is off or
    the text, with its time stamp, does not pass [validate_message].
    Otherwise it writes the line ["Gesture: "] with the text as given, not
    as sanitized, to the chat log, whether or not the text reached the
    sender: when a drain is in flight or has to wait, the gesture is
    logged although it was only queued; when the queue was empty and the
    sender took the text at once, the gesture is logged twice, first by
    [_process_message_queue] with the sanitized text. *)
Theorem gesture_is_logged_when_queued (env : Env) (clock : option pystr)
    (self : VTAuderApp) (t : pystr) :
  let formatted := format_message_with_time clock t in
  let sanitized_text := snd (validate_message formatted) in
  let r := on_gesture_text env true clock self t in
  on_gesture_text env false clock self t = self /\
  (fst (validate_message formatted) = false -> r = self) /\
  (fst (validate_message formatted) = true ->
   (no_send env self = true ->
    chat_log r = chat_log self ++ [py "Gesture: " ++ formatted] /\
    send_attempts r = send_attempts self /\
    _message_queue r
    = enqueued (_message_queue self)
        (Build_MessageData sanitized_text gesture (time_enqueue env))) /\
   (no_send env self = false -> _message_queue self = [] ->
    try_send env sanitized_text = Ok tt ->
    chat_log r
    = chat_log self
      ++ [py "Gesture: " ++ sanitized_text; py "Gesture: " ++ formatted] /\
    send_attempts r
    = send_attempts self
      ++ [Build_SendAttempt (time_drain env) sanitized_text true] /\
    _message_queue r = [])).
Proof.
  cbv zeta. unfold on_gesture_text, send_chatbox_message.
  split; [reflexivity|]. split.
  - intros V. rewrite add_invalid by exact V. reflexivity.
  - intros V. split.
    + intros N.
      destruct (add_queue env self _ gesture V) as [(_ & Q & S) | (N' & _)];
        [|congruence].
      destruct (add_message_to_queue env self _ gesture) as [sent s] eqn:E.
      rewrite add_valid in E by exact V. injection E as <- E'.
      cbn [snd] in Q, S. fields.
      destruct S as (_ & _ & _ & _ & S5 & S6).
      rewrite S6, S5, Q. repeat split.
    + intros N Q T. rewrite add_valid by exact V. fields.
      unfold no_send in N. apply orb_false_iff in N. destruct N as [P W].
      rewrite P. cbn [negb]. unfold _process_message_queue. fields.
      rewrite P, Q. unfold enqueued. cbn [length tl app is_empty orb].
      change (_max_queue_size <=? 0)%nat with false. cbn [app is_empty orb].
      unfold must_wait in W. rewrite W.
      unfold _send_message_direct. cbn [text type]. rewrite T. fields.
      split; [|repeat split]. rewrite <- app_assoc. reflexivity.
Qed.

Lemma Qle_bool_false (x y : QArith_base.Q) :
  QArith_base.Qle_bool x y = false <-> QArith_base.Qlt y x.
Proof.
  split; intros H.
  - apply QArith_base.Qnot_le_lt. intros L.
    apply QArith_base.Qle_bool_iff in L. congruence.
  - destruct (QArith_base.Qle_bool x y) eqn:E; [|reflexivity].
    apply QArith_base.Qle_bool_iff in E.
    exfalso. exact (QArith_base.Qlt_not_le _ _ H E).
Qed.

(** X13.  What the recogniser makes of a movement: a rise of more than
    0.15 gives ["Hello!"] and a fall of more than 0.15 ["Thank you!"],
    whatever the sideways movement; with at most 0.15 up or down, more
    than 0.15 to the right gives ["Goodbye!"] and to the left
    ["Need help!"]; a movement of at most 0.15 each way gives nothing, and
    the depth [dz] never matters.  Every text the recogniser produces
    passes [validate_message] unchanged. *)
Theorem gesture_text_of_a_movement (dx dy dz : QArith_base.Q) :
  let up := QArith_base.Qlt threshold dy in
  let down := QArith_base.Qlt dy (QArith_base.Qopp threshold) in
  let right := QArith_base.Qlt threshold dx in
  let left := QArith_base.Qlt dx (QArith_base.Qopp threshold) in
  (gesture_text dx dy dz = Some (py "Hello!") <-> up) /\
  (gesture_text dx dy dz = Some (py "Thank you!") <-> down) /\
  (gesture_text dx dy dz = Some (py "Goodbye!")
   <-> ~ up /\ ~ down /\ right) /\
  (gesture_text dx dy dz = Some (py "Need help!")
   <-> ~ up /\ ~ down /\ left) /\
  (gesture_text dx dy dz = None
   <-> ~ up /\ ~ down /\ ~ right /\ ~ left) /\
  (forall dz', gesture_text dx dy dz' = gesture_text dx dy dz) /\
  (forall t, gesture_text dx dy dz = Some t -> validate_message t = (true, t)).
Proof.
  cbv zeta. unfold gesture_text, _detect_gesture, Qgtb, Qltb.
  destruct (QArith_base.Qle_bool dy threshold) eqn:U;
    [apply QArith_base.Qle_bool_iff in U | apply Qle_bool_false in U];
  (destruct (QArith_base.Qle_bool (QArith_base.Qopp threshold) dy) eqn:D;
    [apply QArith_base.Qle_bool_iff in D | apply Qle_bool_false in D]);
  (destruct (QArith_base.Qle_bool dx threshold) eqn:R;
    [apply QArith_base.Qle_bool_iff in R | apply Qle_bool_false in R]);
  (destruct (QArith_base.Qle_bool (QArith_base.Qopp threshold) dx) eqn:L;
    [apply QArith_base.Qle_bool_iff in L | apply Qle_bool_false in L]).
  all: cbn [negb].
  all: repeat match goal with
       | |- context [dict_get ?a ?b] =>
           let v := eval vm_compute in (dict_get a b) in
           change (dict_get a b) with v
       end.
  all: repeat match goal with
       | |- context [py ?a] =>
           let v := eval vm_compute in (py a) in change (py a) with v
       end.
  all: cbn [is_empty].
  all: unfold QArith_base.Qle, QArith_base.Qlt, threshold, QArith_base.Qopp
         in *.
  all: cbn [QArith_base.Qnum QArith_base.Qden Z.opp] in *.
  all: repeat split.
  all: intros.
  all: try match goal with
       | H : None = Some _ |- _ => discriminate H
       | H : Some _ = None |- _ => discriminate H
       | H : Some _ = Some ?t |- validate_message ?t = _ =>
           injection H as <-; vm_compute; reflexivity
       | |- _ = _ => reflexivity
       end.
  all: try match goal with
       | H : Some ?a = Some ?b |- _ =>
           assert_fails (constr_eq a b); exfalso; clear - H; discriminate H
       end.
  all: lia.
Qed.

(** ** Song titles *)

Lemma str_eqb_eq (a b : pystr) : str_eqb a b = true <-> a = b.
Proof.
  revert b. induction a as [|x a IH]; intros [|y b]; cbn [str_eqb];
    try (split; [discriminate | discriminate]); [tauto|].
  rewrite andb_true_iff, N.eqb_eq, IH. split.
  - intros [-> ->]. reflexivity.
  - intros E. injection E as -> ->. split; reflexivity.
Qed.

Lemma lstrip_suffix (s : pystr) : exists l, s = l ++ lstrip s.
Proof.
  induction s as [|c s [l IH]]; [exists []; reflexivity|].
  cbn [lstrip]. destruct (isspace c).
  - exists (c :: l). cbn [app]. rewrite <- IH. reflexivity.
  - exists []. reflexivity.
Qed.

(** What [strip] returns is a part of its argument. *)
Lemma strip_infix (s : pystr) : exists l r, s = l ++ strip s ++ r.
Proof.
  destruct (lstrip_suffix s) as [l L].
  destruct (lstrip_suffix (rev (lstrip s))) as [r R].
  exists l, (rev r). unfold strip, rstrip.
  rewrite <- rev_app_distr, <- R, rev_involutive. exact L.
Qed.

Lemma contains_In (p s : pystr) (c : char) :
  contains p s = true -> In c p -> In c s.
Proof.
  induction s as [|x s IH]; intros H I.
  - cbn [contains] in H. rewrite orb_false_r in H.
    destruct p; [contradiction | discriminate H].
  - cbn [contains] in H. apply orb_true_iff in H. destruct H as [H | H].
    + destruct (starts_with_prefix _ _ H) as [rest ->].
      apply in_or_app. left. exact I.
    + right. exact (IH H I).
Qed.

Lemma contains_after (p l s : pystr) :
  contains p s = true -> contains p (l ++ s) = true.
Proof.
  intros H. induction l as [|x l IH]; [exact H|].
  cbn [app]. apply contains_cons, IH.
Qed.

Lemma contains_strip (p s : pystr) :
  contains p (strip s) = true -> contains p s = true.
Proof.
  intros H. destruct (strip_infix s) as (l & r & E). rewrite E.
  apply contains_after, contains_app, H.
Qed.

Lemma lstrip_keeps (s : pystr) (c : char) :
  In c s -> isspace c = false -> In c (lstrip s).
Proof.
  intros I N. induction s as [|x s IH]; [contradiction|].
  cbn [lstrip]. destruct (isspace x) eqn:X; [|exact I].
  destruct I as [-> | I]; [congruence | exact (IH I)].
Qed.

Lemma strip_keeps (s : pystr) (c : char) :
  In c s -> isspace c = false -> In c (strip s).
Proof.
  intros I N. unfold strip, rstrip. apply in_rev.
  rewrite rev_involutive. apply lstrip_keeps; [|exact N].
  apply in_rev. rewrite rev_involutive. apply lstrip_keeps; assumption.
Qed.

Lemma split_at_nonempty (sep : pystr) (skip : nat) (cur s : pystr) :
  split_at sep skip cur s <> [].
Proof.
  revert skip cur. induction s as [|c s IH]; intros skip cur;
    [discriminate|].
  cbn [split_at]. destruct skip; [|apply IH].
  destruct (starts_with sep (c :: s)); [discriminate | apply IH].
Qed.

Lemma split_at_skip (sep x cur b : pystr) :
  split_at sep (length x) cur (x ++ b) = split_at sep 0 cur b.
Proof.
  induction x as [|c x IH]; [reflexivity|]. exact IH.
Qed.

(** With the separator in the string, [split] returns two parts at
    least. *)
Lemma split_at_two (sep cur s : pystr) :
  sep <> [] -> contains sep s = true ->
  exists p0 p1 rest, split_at sep 0 cur s = p0 :: p1 :: rest.
Proof.
  intros N. revert cur. induction s as [|c s IH]; intros cur H.
  - cbn [contains] in H. rewrite orb_false_r in H.
    destruct sep; [contradiction | discriminate H].
  - cbn [split_at]. destruct (starts_with sep (c :: s)) eqn:S.
    + pose proof (split_at_nonempty sep (length sep - 1) [] s) as E.
      destruct (split_at sep (length sep - 1) [] s) as [|p1 rest];
        [contradiction|].
      exists (rev cur), p1, rest. reflexivity.
    + cbn [contains] in H. rewrite S in H. cbn [orb] in H.
      exact (IH (c :: cur) H).
Qed.

Lemma split_at_none (sep cur s : pystr) :
  contains sep s = false -> split_at sep 0 cur s = [rev cur ++ s].
Proof.
  revert cur. induction s as [|c s IH]; intros cur H.
  - cbn [split_at]. rewrite app_nil_r. reflexivity.
  - cbn [contains] in H. apply orb_false_iff in H. destruct H as [H1 H2].
    cbn [split_at]. rewrite H1, (IH (c :: cur) H2). cbn [rev].
    rewrite <- app_assoc. reflexivity.
Qed.

Lemma starts_with_long (p u v : pystr) :
  (length p <= length u)%nat ->
  starts_with p (u ++ v) = starts_with p u.
Proof.
  revert u. induction p as [|a p IH]; intros u L; [reflexivity|].
  destruct u as [|b u]; [cbn in L; lia|].
  cbn [app starts_with]. rewrite IH; [reflexivity | cbn in L; lia].
Qed.

Lemma length_removelast {A} (l : list A) :
  l <> [] -> length l = S (length (removelast l)).
Proof.
  intros N. destruct l as [|x l]; [contradiction|]. clear N.
  revert x. induction l as [|y l IH]; intros x; [reflexivity|].
  change (removelast (x :: y :: l)) with (x :: removelast (y :: l)).
  cbn [length]. f_equal. exact (IH y).
Qed.

(** The part before the first separator. *)
Lemma split_at_first (sep cur a b : pystr) :
  sep <> [] ->
  contains sep (a ++ removelast sep) = false ->
  split_at sep 0 cur (a ++ sep ++ b)
  = (rev cur ++ a) :: split_at sep 0 [] b.
Proof.
  intros N. revert cur. induction a as [|x a IH]; intros cur H.
  - destruct sep as [|c sep']; [contradiction|].
    cbn [app split_at].
    change (c :: sep' ++ b) with ((c :: sep') ++ b).
    rewrite starts_with_app by (clear; induction (c :: sep') as [|y l IHl];
      [reflexivity | cbn [starts_with]; rewrite N.eqb_refl; exact IHl]).
    rewrite app_nil_r.
    replace (length (c :: sep') - 1)%nat with (length sep')
      by (cbn [length]; lia).
    rewrite split_at_skip. reflexivity.
  - cbn [app contains] in H. apply orb_false_iff in H. destruct H as [H1 H2].
    cbn [app split_at].
    pose proof (length_removelast sep N) as LR.
    assert (E : sep ++ b = removelast sep ++ last sep 0%N :: b).
    { rewrite (app_removelast_last 0%N N) at 1.
      rewrite <- app_assoc. reflexivity. }
    assert (S : starts_with sep (x :: a ++ sep ++ b) = false).
    { rewrite <- H1, E.
      change (x :: a ++ removelast sep ++ last sep 0%N :: b)
        with ((x :: a) ++ removelast sep ++ last sep 0%N :: b).
      rewrite app_assoc.
      change (x :: a ++ removelast sep) with ((x :: a) ++ removelast sep).
      apply starts_with_long.
      rewrite length_app. cbn [length]. lia. }
    rewrite S, (IH (x :: cur) H2). cbn [rev]. rewrite <- app_assoc.
    reflexivity.
Qed.

Lemma song_with_separator (w : Window) (song_info : option pystr) :
  contains (py " - ") (window_title w) = true ->
  exists p0 p1 rest,
    split_sep (py " - ") (window_title w) = p0 :: p1 :: rest /\
    song_of_window w song_info = (strip p0, strip p1, false).
Proof.
  intros H.
  destruct (split_at_two (py " - ") [] (window_title w) ltac:(discriminate) H)
    as (p0 & p1 & rest & E).
  exists p0, p1, rest. split; [exact E|].
  unfold song_of_window, split_sep. rewrite H, E.
  destruct (contains (py "spotify") (lower (process_name w))); reflexivity.
Qed.

Lemma song_first_two (w : Window) (song_info : option pystr) (a b : pystr) :
  window_title w = a ++ py " - " ++ b ->
  contains (py " - ") (a ++ py " -") = false ->
  song_of_window w song_info
  = (strip a, strip (hd [] (split_sep (py " - ") b)), false).
Proof.
  intros E F.
  assert (C : contains (py " - ") (window_title w) = true).
  { rewrite E. apply contains_after, contains_app. reflexivity. }
  destruct (song_with_separator w song_info C) as (p0 & p1 & rest & S & R).
  rewrite R. unfold split_sep in *. rewrite E in S.
  rewrite (split_at_first (py " - ") [] a b ltac:(discriminate) F) in S.
  cbn [rev app] in S. injection S as <- S. rewrite S. reflexivity.
Qed.

(** X14.  How the poller reads a window title.  When the title holds
    [" - "], the artist is what stands before the first [" - "] and the
    title what stands between the first and the second, both stripped,
    whatever the process: what follows a second [" - "] is dropped, and
    the fallback of main.py:920 to the whole window title is never taken.
    The player counts as paused exactly when the process name holds
    [spotify] and the stripped window title is [Spotify], [Spotify Free] or
    [Spotify Premium]: the fourth title of [paused_titles],
    [Spotify - Web Player], is read as the song [Web Player] by
    [Spotify]. *)
Theorem song_of_window_titles (w : Window) (song_info : option pystr) :
  let sep := py " - " in
  let r := song_of_window w song_info in
  (contains sep (window_title w) = true ->
   exists p0 p1 rest,
     split_sep sep (window_title w) = p0 :: p1 :: rest /\
     r = (strip p0, strip p1, false)) /\
  (forall a b,
     window_title w = a ++ sep ++ b ->
     contains sep (a ++ py " -") = false ->
     r = (strip a, strip (hd [] (split_sep sep b)), false) /\
     (contains sep b = false -> r = (strip a, strip b, false))) /\
  (snd r = true <->
   contains (py "spotify") (lower (process_name w)) = true /\
   In (strip (window_title w))
     [py "Spotify"; py "Spotify Free"; py "Spotify Premium"]) /\
  (snd r = true -> r = ([], PAUSED, true)) /\
  (window_title w = py "Spotify - Web Player" ->
   r = (py "Spotify", py "Web Player", false)).
Proof.
  cbv zeta.
  pose proof (song_first_two w song_info) as AB.
  split; [apply song_with_separator|].
  split.
  { intros a b E F. split; [exact (AB a b E F)|].
    intros N. rewrite (AB a b E F). unfold split_sep.
    rewrite (split_at_none _ _ _ N). reflexivity. }
  assert (P : snd (song_of_window w song_info) = true <->
              contains (py "spotify") (lower (process_name w)) = true /\
              contains (py " - ") (window_title w) = false /\
              existsb (str_eqb (strip (window_title w))) paused_titles = true).
  { unfold song_of_window.
    destruct (contains (py "spotify") (lower (process_name w))).
    - destruct (contains (py " - ") (window_title w)).
      + destruct (split_sep _ _) as [|p0 [|p1 rest]]; cbn [snd];
          (split; [discriminate | intros (_ & X & _); discriminate X]).
      + destruct (existsb _ _); cbn [snd]; split; try tauto; try discriminate.
        all: intros (_ & _ & X); discriminate X.
    - split; [|intros (X & _); discriminate X].
      destruct (contains (py " - ") (window_title w)).
      + destruct (split_sep _ _) as [|p0 [|p1 rest]]; discriminate.
      + destruct song_info; discriminate. }
  split; [|split].
  - rewrite P. split.
    + intros (S & N & X). split; [exact S|].
      apply existsb_exists in X. destruct X as (t & I & X).
      apply str_eqb_eq in X. subst t.
      destruct I as [I | [I | [I | [I | []]]]];
        [left; exact I | right; left; exact I | right; right; left; exact I|].
      exfalso. assert (C : contains (py " - ") (strip (window_title w)) = true)
        by (rewrite <- I; reflexivity).
      apply contains_strip in C. congruence.
    + intros (S & I). split; [exact S|].
      assert (D : ~ In 45%N (strip (window_title w))).
      { intros D. destruct I as [I | [I | [I | []]]]; rewrite <- I in D;
          cbn in D; repeat (destruct D as [D | D]; [discriminate D|]);
          exact D. }
      split.
      * destruct (contains (py " - ") (window_title w)) eqn:C; [|reflexivity].
        exfalso. apply D. apply strip_keeps; [|reflexivity].
        apply (contains_In _ _ 45%N C). right. left. reflexivity.
      * apply existsb_exists. exists (strip (window_title w)).
        split; [|apply str_eqb_eq; reflexivity].
        destruct I as [I | [I | [I | []]]];
          [left | right; left | right; right; left]; exact I.
  - intros X. apply P in X. destruct X as (S & N & X).
    unfold song_of_window. rewrite S, N, X. reflexivity.
  - intros E.
    rewrite (AB (py "Spotify") (py "Web Player") E eq_refl). reflexivity.
Qed.

(** ** The DVD animation *)

(** Projections of the updated object. *)
Ltac song_fields :=
  cbn [core _dvd_anim_running _dvd_anim_index _dvd_anim_direction
       _dvd_anim_after_id selected_window last_sent_song_info
       last_sent_artist _keep_sending_song song_pending
       set_core set_dvd_anim_running set_dvd_anim_index
       set_dvd_anim_direction set_dvd_anim_after_id set_selected_window
       set_last_sent set_keep_sending_song set_song_pending on_core
       song_after song_after_cancel fst snd] in *.

Lemma validate_stamped (ct m : pystr) :
  Forall (fun x => isspace x = false) ct -> ~ In NUL ct ->
  split m <> [] ->
  (length ct + 3 + length (collapse m) <= 144)%nat ->
  ~ In NUL (collapse m) -> ~ In CR (collapse m) ->
  validate_message (format_message_with_time (Some ct) m)
  = (true, py "[" ++ ct ++ py "] " ++ collapse m).
Proof.
  intros W Z S L NN NC.
  pose proof (stamped_split ct m W) as E.
  assert (N : strip (format_message_with_time (Some ct) m) <> []).
  { intros X. apply strip_nil_iff, split_nil_iff in X.
    rewrite X in E. discriminate E. }
  rewrite validate_message_ok by exact N. cbv zeta. rewrite E.
  destruct (split m) as [|w ws] eqn:Sm; [contradiction|].
  rewrite join_cons.
  replace (join (py " ") (w :: ws)) with (collapse m)
    by (unfold collapse; rewrite Sm; reflexivity).
  replace ((py "[" ++ ct ++ py "]") ++ py " " ++ collapse m)
    with (py "[" ++ ct ++ py "] " ++ collapse m)
    by (rewrite <- !app_assoc; reflexivity).
  assert (Len : (144 <? length (py "[" ++ ct ++ py "] " ++ collapse m))%nat
                = false).
  { apply Nat.ltb_ge. rewrite !length_app.
    change (length (py "[")) with 1%nat.
    change (length (py "] ")) with 2%nat. lia. }
  rewrite Len.
  rewrite (remove_char_absent NUL), (remove_char_absent CR);
    [reflexivity | |].
  - intros H. apply in_app_or in H. destruct H as [[H | []] | H];
      [discriminate H|].
    apply in_app_or in H. destruct H as [H | H].
    + rewrite Forall_forall in W. specialize (W _ H). discriminate W.
    + apply in_app_or in H. destruct H as [[H | [H | []]] | H];
        [discriminate H | discriminate H | exact (NC H)].
  - intros H. apply in_app_or in H. destruct H as [[H | []] | H];
      [discriminate H|].
    apply in_app_or in H. destruct H as [H | H]; [exact (Z H)|].
    apply in_app_or in H. destruct H as [[H | [H | []]] | H];
      [discriminate H | discriminate H | exact (NN H)].
Qed.

Lemma choice_In {A} (draw : nat) (l : list A) (default : A) :
  l <> [] -> In (choice draw l default) l.
Proof.
  intros N. unfold choice. apply nth_In.
  apply Nat.mod_upper_bound. destruct l; [contradiction | discriminate].
Qed.

(** X15.  The frame of the DVD animation is built with a line break
    between the word [Paused] and the track, but [validate_message] turns
    the line break into a space: for each of the three positions, with or
    without a time stamp, the text that is queued is one line.  A tick on
    a running animation hands this frame to [send_chatbox_message] and
    leaves one more tick pending, due 1, 2 or 3 seconds later and
    remembered in [_dvd_anim_after_id]; a tick on a stopped animation does
    nothing. *)
Theorem dvd_frame_is_queued_on_one_line (e : SongEnv) (d : SongApp) :
  let pos := choice (dvd_pos_draw e) [0; 1; 2]%nat 0%nat in
  let msg :=
    format_message_with_time (clock e) (PAUSED ++ [LF] ++ dvd_line pos) in
  let r := animate_dvd_status e d in
  (In LF msg /\
   forall ct,
     clock e = None \/
     clock e = Some ct /\ Forall (fun x => isspace x = false) ct /\
     ~ In NUL ct /\ (length ct <= 100)%nat ->
     validate_message msg
     = (true,
        format_message_with_time (clock e)
          (PAUSED ++ [SPACE] ++ dvd_line pos)) /\
     ~ In LF (snd (validate_message msg))) /\
  (_dvd_anim_running d = false -> r = d) /\
  (_dvd_anim_running d = true ->
   let a := snd (send_chatbox_message (base e) (core d) msg dvd) in
   exists speed,
     In speed DVD_SPEEDS /\
     song_pending r
     = song_pending d
       ++ [Build_SongTimer (root_next_id a) (tk_now (base e) + speed)
             cb_animate_dvd_status] /\
     _dvd_anim_after_id r = Some (root_next_id a) /\
     _dvd_anim_running r = true /\
     core r = set_root (root_pending a) (S (root_next_id a)) a).
Proof.
  cbv zeta. split; [|split].
  - assert (P : In (choice (dvd_pos_draw e) [0; 1; 2]%nat 0%nat)
                  [0; 1; 2]%nat) by (apply choice_In; discriminate).
    set (pos := choice (dvd_pos_draw e) [0; 1; 2]%nat 0%nat) in *.
    split.
    { destruct (clock e) as [ct|]; cbn [format_message_with_time].
      - apply in_or_app. right. apply in_or_app. right.
        apply in_or_app. right. apply in_or_app. right.
        apply in_or_app. left. left. reflexivity.
      - apply in_or_app. right. apply in_or_app. left. left. reflexivity. }
    intros ct [C | (C & W & Z & L)]; rewrite C.
    + cbn [format_message_with_time].
      destruct P as [<- | [<- | [<- | []]]]; vm_compute;
        (split; [reflexivity|]);
        intros H; repeat (destruct H as [H | H]; [discriminate H|]);
        exact H.
    + rewrite validate_stamped; try assumption.
      * assert (K : collapse (PAUSED ++ [LF] ++ dvd_line pos)
                    = PAUSED ++ [SPACE] ++ dvd_line pos)
          by (destruct P as [<- | [<- | [<- | []]]]; vm_compute; reflexivity).
        rewrite K. cbn [format_message_with_time snd].
        split; [reflexivity|].
        intros H. apply in_app_or in H. destruct H as [[H | []] | H];
          [discriminate H|].
        apply in_app_or in H. destruct H as [H | H].
        -- rewrite Forall_forall in W. specialize (W _ H). discriminate W.
        -- apply in_app_or in H. destruct H as [[H | [H | []]] | H];
             [discriminate H | discriminate H|].
           clear - P H.
           destruct P as [<- | [<- | [<- | []]]]; vm_compute in H;
             repeat (destruct H as [H | H]; [discriminate H|]); exact H.
      * destruct P as [<- | [<- | [<- | []]]]; vm_compute; discriminate.
      * assert (K : length (collapse (PAUSED ++ [LF] ++ dvd_line pos))
                    = 22%nat)
          by (destruct P as [<- | [<- | [<- | []]]]; vm_compute; reflexivity).
        rewrite K. lia.
      * clear - P. intros H.
        destruct P as [<- | [<- | [<- | []]]]; vm_compute in H;
          repeat (destruct H as [H | H]; [discriminate H|]); exact H.
      * clear - P. intros H.
        destruct P as [<- | [<- | [<- | []]]]; vm_compute in H;
          repeat (destruct H as [H | H]; [discriminate H|]); exact H.
  - intros R. unfold animate_dvd_status. rewrite R. reflexivity.
  - intros R. unfold animate_dvd_status. rewrite R. cbn [negb].
    exists (choice (dvd_speed_draw e) DVD_SPEEDS 1000).
    split; [apply choice_In; discriminate|].
    song_fields. repeat split. exact R.
Qed.

(** ** One cadence under the song poller *)

Lemma drain_adds (env : Env) (self : VTAuderApp) :
  exists l,
    root_pending (snd (_process_message_queue env self))
    = root_pending self ++ l /\
    Forall (fun t => callback t <> cb_resume_music_animation) l.
Proof.
  unfold _process_message_queue.
  destruct (_queue_processing self || is_empty (_message_queue self));
    [exists []; split; [symmetry; apply app_nil_r | constructor]|].
  fields.
  destruct ((_chatbox_timeout self
             && (time_drain env <? _chatbox_timeout_until self))
            || (time_drain env - _last_chatbox_sent self <? _min_interval));
    fields;
    [eexists; split; [reflexivity | repeat constructor; discriminate]|].
  destruct (_message_queue self) as [|m rest]; fields;
    [exists []; split; [symmetry; apply app_nil_r | constructor]|].
  pose proof (send_direct_frame env
                (set_message_queue rest (set_queue_processing true self))
                (text m)) as F.
  destruct (_send_message_direct env _ (text m)) as [ok s].
  fields. destruct F as (_ & _ & _ & _ & F & _).
  destruct ok; fields; rewrite F; eexists;
    (split; [reflexivity | repeat constructor; discriminate]).
Qed.

Lemma add_adds (env : Env) (self : VTAuderApp) (t : pystr) (ty : MessageType) :
  exists l,
    root_pending (snd (add_message_to_queue env self t ty))
    = root_pending self ++ l /\
    Forall (fun t => callback t <> cb_resume_music_animation) l.
Proof.
  destruct (fst (validate_message t)) eqn:V.
  - rewrite add_valid by exact V. fields.
    destruct (_queue_processing self); cbn [negb];
      [exists []; split; [symmetry; apply app_nil_r | constructor]|].
    match goal with
    | |- context [_process_message_queue ?e ?s1] =>
        exact (drain_adds e s1)
    end.
  - rewrite add_invalid by exact V.
    exists []. split; [symmetry; apply app_nil_r | constructor].
Qed.

Lemma animate_adds (env : Env) (self : VTAuderApp) (send_osc : bool) :
  exists l,
    root_pending (animate_music_status env self send_osc)
    = root_pending self ++ l /\
    Forall (fun t => callback t <> cb_resume_music_animation) l.
Proof.
  unfold animate_music_status.
  set (body := if negb (_music_anim_running self) then _ else _).
  assert (H : exists l,
    root_pending body = root_pending self ++ l /\
    Forall (fun t => callback t <> cb_resume_music_animation) l).
  { subst body. unfold restart_animation.
    destruct (_music_anim_running self); cbn [negb].
    - destruct (compose_status env _) as [anim_text | e].
      + destruct (send_osc || _)%bool; fields;
          [apply add_adds
          |exists []; split; [symmetry; apply app_nil_r | constructor]].
      + destruct (started self); fields;
          [eexists; split; [reflexivity | repeat constructor; discriminate]
          |exists []; split; [symmetry; apply app_nil_r | constructor]].
    - destruct (started self); fields;
        [eexists; split; [reflexivity | repeat constructor; discriminate]
        |exists []; split; [symmetry; apply app_nil_r | constructor]]. }
  clearbody body. destruct H as (l & H & F).
  destruct (_music_anim_running body); fields; [|exists l; split; assumption].
  rewrite H, <- app_assoc. eexists. split; [reflexivity|].
  apply Forall_app. split; [exact F | repeat constructor; discriminate].
Qed.

Lemma no_resume_app (p l : list Timer) :
  (forall t, In t p -> callback t <> cb_resume_music_animation) ->
  Forall (fun t => callback t <> cb_resume_music_animation) l ->
  forall t, In t (p ++ l) -> callback t <> cb_resume_music_animation.
Proof.
  intros P L t I. apply in_app_or in I. destruct I as [I | I];
    [exact (P t I) | rewrite Forall_forall in L; exact (L t I)].
Qed.

(** A handler that leaves the ticks and the animation state as they are
    and schedules no restart keeps the cadence. *)
Lemma cadence_frame (a b : VTAuderApp) :
  animation_ticks b = animation_ticks a ->
  same_animation b a ->
  (exists l, root_pending b = root_pending a ++ l /\
             Forall (fun t => callback t <> cb_resume_music_animation) l) ->
  music_cadence a -> music_cadence b.
Proof.
  intros T (_ & R & _ & _ & _ & I) (l & P & F) (C1 & C2 & C3).
  split; [rewrite T; exact C1|]. split.
  - intros t H. rewrite T in H. rewrite I, R. exact (C2 t H).
  - rewrite P. apply no_resume_app; assumption.
Qed.

Lemma add_cadence (env : Env) (self : VTAuderApp) (t : pystr)
    (ty : MessageType) :
  music_cadence self ->
  music_cadence (snd (add_message_to_queue env self t ty)).
Proof.
  apply cadence_frame;
    [apply add_ticks | apply add_animation | apply add_adds].
Qed.

Lemma drain_cadence (env : Env) (self : VTAuderApp) :
  music_cadence self ->
  music_cadence (snd (_process_message_queue env self)).
Proof.
  apply cadence_frame;
    [apply drain_ticks | apply drain_animation | apply drain_adds].
Qed.

Lemma filter_length_bound {A} (f : A -> bool) (l : list A) (n : nat) :
  (length l <= n)%nat -> (length (filter f l) <= n)%nat.
Proof. intros H. pose proof (filter_length_le f l). lia. Qed.

Lemma cancel_cadence (id : nat) (self : VTAuderApp) :
  music_cadence self -> music_cadence (root_after_cancel id self).
Proof.
  intros (C1 & C2 & C3). split; [|split].
  - rewrite cancel_ticks. apply filter_length_bound, C1.
  - intros t H. rewrite cancel_ticks in H. apply filter_In in H.
    exact (C2 t (proj1 H)).
  - intros t H. fields. apply filter_In in H. exact (C3 t (proj1 H)).
Qed.

Lemma filter_tracked (id : nat) (l : list Timer) :
  (forall t, In t l -> after_id t = id) ->
  filter (fun t => negb (after_id t =? id)%nat) l = [].
Proof.
  induction l as [|x l IH]; intros H; [reflexivity|].
  cbn [filter]. rewrite (H x (or_introl eq_refl)), Nat.eqb_refl. cbn [negb].
  apply IH. intros t I. apply H. right. exact I.
Qed.

(** [stop_music_animation] on a cadence leaves no tick. *)
Lemma stop_cadence (self : VTAuderApp) :
  music_cadence self ->
  music_cadence (stop_music_animation self) /\
  animation_ticks (stop_music_animation self) = [].
Proof.
  intros (C1 & C2 & C3).
  assert (T : animation_ticks (stop_music_animation self) = []).
  { unfold stop_music_animation. fields.
    destruct (_music_anim_after_id self) as [id|] eqn:I.
    - change (animation_ticks
                (set_music_anim_after_id None
                   (root_after_cancel id
                      (set_music_anim_running false self))))
        with (animation_ticks (root_after_cancel id self)).
      rewrite cancel_ticks. apply filter_tracked.
      intros t H. destruct (C2 t H) as [E _]. congruence.
    - change (animation_ticks (set_music_anim_running false self))
        with (animation_ticks self).
      destruct (animation_ticks self) as [|t l]; [reflexivity|].
      destruct (C2 t (or_introl eq_refl)) as [E _]. discriminate E. }
  split; [|exact T]. split; [rewrite T; cbn; lia|]. split.
  - intros t H. rewrite T in H. contradiction.
  - intros t H. apply (C3 t). unfold stop_music_animation in H. fields.
    destruct (_music_anim_after_id self); fields;
      [apply filter_In in H; exact (proj1 H) | exact H].
Qed.

(** [start_music_animation] with no tick pending starts a cadence. *)
Lemma start_cadence (env : Env) (self : VTAuderApp) (t r : pystr) :
  composes env -> music_cadence self -> animation_ticks self = [] ->
  music_cadence (start_music_animation env self t r).
Proof.
  intros K (C1 & C2 & C3) T. unfold start_music_animation.
  set (s0 := set_music_anim_running true
               (set_music_anim_subject t r (set_music_anim_index 0 self))).
  assert (C : forall b e, compose_status env b = Raise e -> started s0 = false).
  { intros b e E. destruct (K b) as [x X]. congruence. }
  destruct (animate_running env s0 true eq_refl C) as (id & A1 & A2 & A3).
  change (animation_ticks s0) with (animation_ticks self) in A1.
  rewrite T in A1. cbn [app] in A1.
  split; [rewrite A1; cbn; lia|]. split.
  - intros x H. rewrite A1 in H. destruct H as [<- | []].
    split; [exact A2 | exact A3].
  - destruct (animate_adds env s0 true) as (l & P & F). rewrite P.
    apply no_resume_app; [exact C3 | exact F].
Qed.

(** The pending tick of a cadence runs: the cadence goes on. *)
Lemma tick_cadence (env : Env) (self : VTAuderApp) (id : nat) (tm : Timer) :
  composes env -> music_cadence self ->
  find (fun t => (after_id t =? id)%nat) (root_pending self) = Some tm ->
  callback tm = cb_animate_music_status ->
  music_cadence (animate_music_status env (root_after_cancel id self) true) /\
  animation_ticks self <> [].
Proof.
  intros K (C1 & C2 & C3) F B.
  apply find_some in F. destruct F as [F1 F2]. apply Nat.eqb_eq in F2.
  assert (I : In tm (animation_ticks self)).
  { unfold animation_ticks. apply filter_In. split; [exact F1|].
    rewrite B. reflexivity. }
  destruct (C2 tm I) as [E R]. rewrite F2 in E.
  split; [|intros X; rewrite X in I; contradiction].
  set (s0 := root_after_cancel id self).
  assert (T : animation_ticks s0 = []).
  { subst s0. rewrite cancel_ticks. apply filter_tracked.
    intros t H. destruct (C2 t H) as [E' _]. congruence. }
  assert (C : forall b e, compose_status env b = Raise e -> started s0 = false).
  { intros b e X. destruct (K b) as [x X']. congruence. }
  destruct (animate_running env s0 true R C) as (id' & A1 & A2 & A3).
  rewrite T in A1. cbn [app] in A1.
  split; [rewrite A1; cbn; lia|]. split.
  - intros x H. rewrite A1 in H. destruct H as [<- | []].
    split; [exact A2 | exact A3].
  - destruct (animate_adds env s0 true) as (l & P & G). rewrite P.
    apply no_resume_app; [|exact G].
    intros t H. subst s0. fields. apply filter_In in H. exact (C3 t (proj1 H)).
Qed.

(** No tick of either animation is pending, and no restart. *)
Lemma filter_song_tracked (id : nat) (l : list SongTimer) :
  (forall t, In t l -> song_after_id t = id) ->
  filter (fun t => negb (song_after_id t =? id)%nat) l = [].
Proof.
  induction l as [|x l IH]; intros H; [reflexivity|].
  cbn [filter]. rewrite (H x (or_introl eq_refl)), Nat.eqb_refl. cbn [negb].
  apply IH. intros t I. apply H. right. exact I.
Qed.

Lemma dvd_ticks_filter (f : SongTimer -> bool) (d : SongApp) :
  dvd_ticks (set_song_pending (filter f (song_pending d)) d)
  = filter f (dvd_ticks d).
Proof. unfold dvd_ticks. song_fields. apply filter_comm. Qed.

Lemma dvd_cadence_filter (f : SongTimer -> bool) (d : SongApp) :
  dvd_cadence d ->
  dvd_cadence (set_song_pending (filter f (song_pending d)) d).
Proof.
  intros (D1 & D2). split.
  - rewrite dvd_ticks_filter. apply filter_length_bound, D1.
  - intros t H. rewrite dvd_ticks_filter in H. apply filter_In in H.
    exact (D2 t (proj1 H)).
Qed.

Lemma cancel_dvd_ticks (id : nat) (d : SongApp) :
  dvd_ticks (song_after_cancel id d)
  = filter (fun t => negb (song_after_id t =? id)%nat) (dvd_ticks d).
Proof.
  unfold song_after_cancel.
  exact (dvd_ticks_filter _ (on_core (root_after_cancel id) d)).
Qed.

Lemma cancel_one_cadence (id : nat) (d : SongApp) :
  one_cadence d -> one_cadence (song_after_cancel id d).
Proof.
  intros (M & D & X). unfold song_after_cancel.
  split; [song_fields; apply cancel_cadence, M|]. split.
  - exact (dvd_cadence_filter _ (on_core (root_after_cancel id) d) D).
  - destruct X as [X | X].
    + left. song_fields. rewrite cancel_ticks, X. reflexivity.
    + right.
      rewrite (dvd_ticks_filter _ (on_core (root_after_cancel id) d)).
      change (dvd_ticks (on_core (root_after_cancel id) d))
        with (dvd_ticks d).
      rewrite X. reflexivity.
Qed.

(** A callback other than a tick of the DVD animation is scheduled. *)
Lemma after_one_cadence (e : SongEnv) (ms : Z) (cb : SongCallback)
    (d : SongApp) :
  cb <> cb_animate_dvd_status ->
  one_cadence d -> one_cadence (snd (song_after e ms cb d)).
Proof.
  intros N (M & D & X).
  assert (T : dvd_ticks (snd (song_after e ms cb d)) = dvd_ticks d).
  { unfold dvd_ticks, song_after. song_fields. rewrite filter_app.
    cbn [filter song_callback]. destruct cb; [contradiction | |];
      apply app_nil_r. }
  split; [exact M|]. split.
  - destruct D as (D1 & D2). split; [rewrite T; exact D1|].
    intros t H. rewrite T in H. exact (D2 t H).
  - destruct X as [X | X]; [left; exact X | right; rewrite T; exact X].
Qed.

(** A method of the core that keeps the music cadence and starts no tick
    where there was none. *)
Lemma on_core_one_cadence (f : VTAuderApp -> VTAuderApp) (d : SongApp) :
  (music_cadence (core d) -> music_cadence (f (core d))) ->
  (animation_ticks (core d) = [] -> animation_ticks (f (core d)) = []) ->
  one_cadence d -> one_cadence (on_core f d).
Proof.
  intros F T (M & D & X). unfold on_core. split; [exact (F M)|].
  split; [exact D|].
  destruct X as [X | X]; [left; exact (T X) | right; exact X].
Qed.

Lemma send_one_cadence (env : Env) (t : pystr) (ty : MessageType)
    (d : SongApp) :
  one_cadence d ->
  one_cadence (on_core (fun a => snd (send_chatbox_message env a t ty)) d).
Proof.
  apply on_core_one_cadence.
  - apply add_cadence.
  - intros T. unfold send_chatbox_message. rewrite add_ticks. exact T.
Qed.

(** After the two stops of the poller no tick is pending. *)
Lemma stops_clear (d : SongApp) :
  one_cadence d ->
  let r := stop_dvd_animation (song_stop_music_animation d) in
  music_cadence (core r) /\ animation_ticks (core r) = [] /\ dvd_ticks r = [].
Proof.
  intros (M & D & X).
  destruct (stop_cadence (core d) M) as [M1 T1].
  set (d1 := song_stop_music_animation d).
  assert (C1 : core d1 = stop_music_animation (core d)).
  { subst d1. unfold song_stop_music_animation.
    destruct (_music_anim_after_id (core d)); reflexivity. }
  assert (D1 : dvd_cadence d1).
  { subst d1. unfold song_stop_music_animation.
    destruct (_music_anim_after_id (core d)); [|exact D].
    exact (dvd_cadence_filter _ (on_core stop_music_animation d) D). }
  clearbody d1. cbv zeta. unfold stop_dvd_animation. song_fields.
  destruct (_dvd_anim_after_id d1) as [id|] eqn:I; song_fields.
  - rewrite C1. split; [apply cancel_cadence, M1|].
    split; [rewrite cancel_ticks, T1; reflexivity|].
    change (dvd_ticks (song_after_cancel id (set_dvd_anim_running false d1))
            = []).
    rewrite cancel_dvd_ticks.
    change (dvd_ticks (set_dvd_anim_running false d1)) with (dvd_ticks d1).
    apply filter_song_tracked. intros t H.
    destruct D1 as (_ & D2). destruct (D2 t H) as [E _]. congruence.
  - rewrite C1. split; [exact M1|]. split; [exact T1|].
    change (dvd_ticks (set_dvd_anim_running false d1)) with (dvd_ticks d1).
    destruct (dvd_ticks d1) as [|t l] eqn:Q; [reflexivity|].
    destruct D1 as (_ & D2).
    destruct (D2 t ltac:(rewrite Q; left; reflexivity)) as [E _].
    congruence.
Qed.

Lemma no_dvd_ticks_cadence (d : SongApp) : dvd_ticks d = [] -> dvd_cadence d.
Proof.
  intros T. split; [rewrite T; cbn; lia|].
  intros t H. rewrite T in H. contradiction.
Qed.

(** A tick of the DVD animation that finds it running and no tick
    pending. *)
Lemma dvd_tick_cadence (e : SongEnv) (d : SongApp) :
  music_cadence (core d) -> animation_ticks (core d) = [] ->
  dvd_ticks d = [] -> _dvd_anim_running d = true ->
  one_cadence (animate_dvd_status e d).
Proof.
  intros M T D R. unfold animate_dvd_status. rewrite R. cbn [negb].
  unfold on_core, send_chatbox_message.
  match goal with
  | |- context [add_message_to_queue ?env ?a ?m ?ty] =>
      pose proof (add_cadence env a m ty M) as M';
      pose proof (add_ticks env a m ty) as T';
      set (a' := snd (add_message_to_queue env a m ty)) in *
  end.
  rewrite T in T'. clearbody a'.
  split; [|split].
  - song_fields. exact M'.
  - unfold dvd_cadence, dvd_ticks in *. song_fields.
    rewrite filter_app, D. cbn [filter song_callback app].
    split; [cbn; lia|].
    intros t [<- | []]. split; [reflexivity | exact R].
  - left. song_fields. exact T'.
Qed.

Lemma start_dvd_cadence (e : SongEnv) (d : SongApp) :
  music_cadence (core d) -> animation_ticks (core d) = [] ->
  dvd_ticks d = [] ->
  one_cadence (start_dvd_animation e d).
Proof.
  intros M T D. unfold start_dvd_animation.
  apply dvd_tick_cadence; [exact M | exact T | exact D | reflexivity].
Qed.

Lemma start_music_cleared (env : Env) (a : VTAuderApp) (d : SongApp)
    (t r : pystr) :
  composes env -> music_cadence a -> animation_ticks a = [] ->
  dvd_ticks d = [] ->
  one_cadence (set_core (start_music_animation env a t r) d).
Proof.
  intros K M T D. split; [|split].
  - exact (start_cadence env a t r K M T).
  - apply (no_dvd_ticks_cadence (set_core _ d)). exact D.
  - right. exact D.
Qed.

(** The poller keeps the cadence: it stops both animations, then starts
    one of them or none. *)
Lemma poll_one_cadence (e : SongEnv) (d : SongApp) :
  composes (base e) -> one_cadence d ->
  one_cadence (send_and_repeat_song_info e d).
Proof.
  intros K H. unfold send_and_repeat_song_info.
  destruct (selected_window d) as [selected|]; [|exact H].
  destruct (negb (started (core d)) || negb (vrchat_enabled e)); [exact H|].
  pose proof (stops_clear d H) as Q. cbv zeta in Q.
  set (d2 := stop_dvd_animation (song_stop_music_animation d)) in *.
  clearbody d2. destruct Q as (M & T & D). cbv zeta.
  match goal with
  | |- context [set_selected_window (Some ?s) d2] =>
      set (sel := s); set (d3 := set_selected_window (Some sel) d2)
  end.
  assert (M3 : music_cadence (core d3)) by exact M.
  assert (T3 : animation_ticks (core d3) = []) by exact T.
  assert (D3 : dvd_ticks d3 = []) by exact D.
  clearbody d3.
  destruct (song_of_window sel _) as [[artist title] is_paused].
  match goal with
  | |- one_cadence (if _keep_sending_song ?x then _ else _) =>
      assert (B : one_cadence x);
        [|destruct (_keep_sending_song x);
          [apply after_one_cadence; [discriminate | exact B] | exact B]]
  end.
  destruct (negb (is_empty title)).
  - destruct is_paused; [apply start_dvd_cadence; assumption|].
    match goal with
    | |- one_cadence (set_last_sent _ _ ?y) => change (one_cadence y)
    end.
    match goal with
    | |- one_cadence (if ?c then _ else _) => destruct c
    end.
    + pose proof (add_cadence (base e) (core d3)
                    (next_song_msg title artist) general M3) as M'.
      pose proof (add_ticks (base e) (core d3)
                    (next_song_msg title artist) general) as T'.
      rewrite T3 in T'. unfold send_chatbox_message.
      destruct (add_message_to_queue (base e) (core d3)
                  (next_song_msg title artist) general) as [sent a].
      cbn [snd] in M', T'.
      destruct sent; apply start_music_cleared; assumption.
    + unfold on_core. apply start_music_cleared; assumption.
  - apply after_one_cadence; [discriminate|].
    split; [exact M3|]. split; [apply no_dvd_ticks_cadence, D3|].
    left. exact T3.
Qed.

Lemma song_step_one_cadence (e : SongEnv) (ev : SongEvent) (d : SongApp) :
  composes (base e) -> one_cadence d -> one_cadence (song_step e ev d).
Proof.
  intros K H. destruct ev as [w | | message | t ty | id]; cbn [song_step].
  - unfold select_window, refresh_sources.
    set (d1 := set_selected_window (Some w) d).
    assert (H1 : one_cadence d1) by exact H. clearbody d1.
    assert (H2 : one_cadence
                   (if refresh_rearms e
                    then snd (song_after e 2000 cb_configure_widget d1)
                    else d1)).
    { destruct (refresh_rearms e); [|exact H1].
      apply after_one_cadence; [discriminate | exact H1]. }
    match goal with
    | H2 : one_cadence ?x |- _ => set (d2 := x) in *
    end.
    clearbody d2.
    destruct (started (core d2) && vrchat_enabled e); [|exact H2].
    apply poll_one_cadence; [exact K | exact H2].
  - apply on_core_one_cadence; [| |exact H]; intros X; exact X.
  - unfold send_vrchat_message.
    destruct (negb (is_empty message)); [|exact H].
    pose proof (send_one_cadence (base e)
                  (format_message_with_time (clock e) message) manual d H)
      as S.
    unfold on_core in S.
    destruct (send_chatbox_message (base e) (core d)
                (format_message_with_time (clock e) message) manual)
      as [sent a].
    cbn [snd] in S. destruct sent; [exact S|].
    apply after_one_cadence; [discriminate | exact S].
  - apply send_one_cadence, H.
  - destruct (find _ (root_pending (core d))) as [tm|] eqn:F.
    + pose proof (cancel_one_cadence id d H) as (M1 & D1 & X1).
      destruct H as (M & D & X).
      destruct (callback tm) eqn:B; cbn [run_callback].
      * apply on_core_one_cadence;
          [intros _; cbn [run_callback]; apply drain_cadence; exact M1
          |intros E; cbn [run_callback]; rewrite drain_ticks; exact E
          |split; [exact M1 | split; [exact D1 | exact X1]]].
      * destruct (tick_cadence (base e) (core d) id tm K M F B) as [M2 N].
        split; [exact M2|]. split; [exact D1|].
        right. destruct X as [X | X]; [contradiction|].
        change (dvd_ticks (song_after_cancel id d) = []).
        rewrite cancel_dvd_ticks, X. reflexivity.
      * exfalso. apply find_some in F. destruct F as [F _].
        destruct M as (_ & _ & M). exact (M tm F B).
    + destruct (find _ (song_pending d)) as [tm|] eqn:G; [|exact H].
      pose proof (cancel_one_cadence id d H) as H1.
      destruct (song_callback tm) eqn:B; cbn [run_song_callback].
      * apply find_some in G. destruct G as [G1 G2]. apply Nat.eqb_eq in G2.
        assert (I : In tm (dvd_ticks d)).
        { unfold dvd_ticks. apply filter_In. split; [exact G1|].
          rewrite B. reflexivity. }
        destruct H as (M & (D1 & D2) & X).
        destruct (D2 tm I) as [E R]. rewrite G2 in E.
        destruct H1 as (M1 & _ & _).
        apply dvd_tick_cadence; [exact M1 | | |exact R].
        -- destruct X as [X | X]; [|rewrite X in I; contradiction].
           change (animation_ticks (core (song_after_cancel id d)))
             with (animation_ticks (root_after_cancel id (core d))).
           rewrite cancel_ticks, X. reflexivity.
        -- rewrite cancel_dvd_ticks. apply filter_song_tracked.
           intros t Ht. destruct (D2 t Ht) as [E' _]. congruence.
      * apply poll_one_cadence; [exact K | exact H1].
      * exact H1.
Qed.

Lemma song_run_one_cadence (evs : list (SongEnv * SongEvent)) (d : SongApp) :
  one_cadence d ->
  Forall (fun x => composes (base (fst x))) evs ->
  one_cadence (song_run evs d).
Proof.
  intros H F. revert d H.
  induction F as [|[e ev] evs K F IH]; intros d H; [exact H|].
  cbn [song_run]. apply IH, song_step_one_cadence; [exact K | exact H].
Qed.

Lemma new_song_app_one_cadence : one_cadence new_song_app.
Proof.
  split; [|split; [|left; reflexivity]].
  - split; [cbn; lia|]. split; intros t [].
  - split; [cbn; lia|]. intros t [].
Qed.

Lemma song_session_composes :
  Forall (fun x => composes (base (fst x))) song_session.
Proof. repeat constructor; intros b; exists b; reflexivity. Qed.

(** X16.  As long as the text of every frame can be composed and no
    speech arrives, the song poller keeps the animations to one cadence:
    whatever windows are selected, whatever messages are sent and whatever
    pending callbacks Tk runs, at most one animation tick is pending, of
    the music animation or of the DVD animation, and a pending tick is the
    one remembered by its animation, which is running. *)
Theorem poller_keeps_one_cadence (evs : list (SongEnv * SongEvent))
    (d : SongApp) :
  one_cadence d ->
  Forall (fun x => composes (base (fst x))) evs ->
  one_cadence (song_run evs d) /\
  (length (animation_ticks (core (song_run evs d)))
   + length (dvd_ticks (song_run evs d)) <= 1)%nat.
Proof.
  intros H F.
  pose proof (song_run_one_cadence evs d H F) as G.
  split; [exact G|].
  destruct G as ((M & _) & (D & _) & [X | X]); rewrite X; cbn [length]; lia.
Qed.

(** A fresh application: the application is started, a playing window is
    selected, and the first poll finds the player paused. *)
Lemma poller_keeps_one_cadence_witness :
  one_cadence new_song_app /\
  Forall (fun x => composes (base (fst x))) song_session /\
  (length (animation_ticks (core (song_run song_session new_song_app)))
   + length (dvd_ticks (song_run song_session new_song_app)) <= 1)%nat.
Proof.
  split; [exact new_song_app_one_cadence|].
  split; [exact song_session_composes|].
  exact (proj2 (poller_keeps_one_cadence song_session new_song_app
                  new_song_app_one_cadence song_session_composes)).
Defined.

(** ** What one poll does *)



Lemma stops_flags (d : SongApp) :
  let r := stop_dvd_animation (song_stop_music_animation d) in
  _music_anim_running (core r) = false /\
  _dvd_anim_running r = false /\
  _keep_sending_song r = _keep_sending_song d /\
  last_sent_song_info r = last_sent_song_info d /\
  last_sent_artist r = last_sent_artist d.
Proof.
  cbv zeta.
  assert (A : _music_anim_running (stop_music_animation (core d)) = false).
  { unfold stop_music_animation. fields.
    destruct (_music_anim_after_id (core d)); reflexivity. }
  unfold stop_dvd_animation, song_stop_music_animation.
  destruct (_music_anim_after_id (core d)); song_fields;
    destruct (_dvd_anim_after_id d); song_fields;
    repeat split; exact A.
Qed.








(** ** Manual messages and window titles *)

(** X18.  [send_vrchat_message] does nothing for an empty entry.  A text
    that passes [validate_message] with its time stamp goes to
    [send_chatbox_message] as a manual message and nothing else happens.
    A text that does not pass leaves the queue as it is and schedules the
    reset of the status line two seconds later; this happens only for an
    entry of whitespace with the time display off: with the time display
    on, the warning of main.py:228 is never shown. *)
Theorem manual_message_outcomes (e : SongEnv) (d : SongApp)
    (message : pystr) :
  let formatted := format_message_with_time (clock e) message in
  let r := send_vrchat_message e d message in
  (message = [] -> r = d) /\
  (message <> [] -> fst (validate_message formatted) = true ->
   r = on_core
         (fun a => snd (send_chatbox_message (base e) a formatted manual)) d) /\
  (message <> [] -> fst (validate_message formatted) = false ->
   strip formatted = [] /\
   core r
   = set_root (root_pending (core d)) (S (root_next_id (core d))) (core d) /\
   song_pending r
   = song_pending d
     ++ [Build_SongTimer (root_next_id (core d)) (tk_now (base e) + 2000)
           cb_configure_widget]) /\
  (forall ct,
     clock e = Some ct -> Forall (fun x => isspace x = false) ct ->
     fst (validate_message formatted) = true) /\
  (clock e = None ->
   (fst (validate_message formatted) = false <-> strip message = [])).
Proof.
  cbv zeta. unfold send_vrchat_message, send_chatbox_message.
  split; [intros ->; reflexivity|].
  split; [|split; [|split]].
  - intros N V. destruct message as [|c m]; [contradiction|].
    cbn [is_empty negb]. rewrite add_valid by exact V.
    unfold on_core. rewrite add_valid by exact V. reflexivity.
  - intros N V. destruct message as [|c m]; [contradiction|].
    cbn [is_empty negb]. rewrite add_invalid by exact V.
    split; [|split; reflexivity].
    destruct (list_eq_dec N.eq_dec
                (strip (format_message_with_time (clock e) (c :: m))) [])
      as [E | E]; [exact E|].
    rewrite validate_message_ok in V by exact E. discriminate V.
  - intros ct C W. rewrite C.
    pose proof (stamped_split ct message W) as S.
    rewrite validate_message_ok; [reflexivity|].
    intros X. apply strip_nil_iff, split_nil_iff in X.
    rewrite X in S. discriminate S.
  - intros C. rewrite C. cbn [format_message_with_time]. split.
    + intros V.
      destruct (list_eq_dec N.eq_dec (strip message) []) as [E | E];
        [exact E|].
      rewrite validate_message_ok in V by exact E. discriminate V.
    + intros E. rewrite validate_message_fail by exact E. reflexivity.
Qed.

(** X19.  The poller takes every window for a song.  What
    [get_current_song_info] returns never changes the artist and title
    that the poller reads: for a process that is not Spotify and a title
    without [" - "], the title is the whole window title, whether the
    window belongs to a music player or not.  The window that the poller
    reads is a window of the process selected, by name: the first one in
    the list of windows that has a title, and the window selected before
    when there is none. *)
Theorem poller_reads_every_window_as_a_song (ws : list Window)
    (selected w : Window) :
  song_of_window w (get_current_song_info (Some w)) = song_of_window w None /\
  (contains (py "spotify") (lower (process_name w)) = false ->
   contains (py " - ") (window_title w) = false ->
   song_of_window w None = ([], window_title w, false)) /\
  process_name (refreshed_window ws selected) = process_name selected /\
  ((forall w', In w' ws -> process_name w' = process_name selected ->
               window_title w' = []) ->
   refreshed_window ws selected = selected) /\
  (forall before w' after,
     ws = before ++ w' :: after ->
     process_name w' = process_name selected -> window_title w' <> [] ->
     (forall b, In b before ->
                process_name b <> process_name selected \/
                window_title b = []) ->
     refreshed_window ws selected = w').
Proof.
  split; [|split; [|split; [|split]]].
  - unfold song_of_window, get_current_song_info.
    destruct (contains (py "spotify") (lower (process_name w)));
      [reflexivity|].
    destruct (contains (py " - ") (window_title w)); [reflexivity|].
    destruct (window_title w) as [|c t] eqn:E; cbn [is_empty negb andb];
      [reflexivity|].
    destruct (_ || _)%bool; reflexivity.
  - intros S C. unfold song_of_window. rewrite S, C. reflexivity.
  - unfold refreshed_window.
    destruct (find _ ws) as [x|] eqn:F; [|reflexivity].
    apply find_some in F. destruct F as [_ F].
    apply andb_true_iff in F. destruct F as [F _].
    apply str_eqb_eq in F. exact F.
  - intros H. unfold refreshed_window.
    destruct (find _ ws) as [x|] eqn:F; [|reflexivity].
    apply find_some in F. destruct F as [I F].
    apply andb_true_iff in F. destruct F as [F1 F2].
    apply str_eqb_eq in F1. rewrite (H x I F1) in F2. discriminate F2.
  - intros before w' after -> P T B. unfold refreshed_window.
    assert (F : find (fun x => str_eqb (process_name x) (process_name selected)
                               && negb (is_empty (window_title x)))
                  (before ++ w' :: after) = Some w').
    { induction before as [|b before IH].
      - cbn [app find]. rewrite (proj2 (str_eqb_eq _ _) P).
        destruct (window_title w'); [contradiction | reflexivity].
      - cbn [app find].
        destruct (B b (or_introl eq_refl)) as [X | X].
        + destruct (str_eqb (process_name b) (process_name selected)) eqn:Q;
            [apply str_eqb_eq in Q; contradiction|].
          cbn [andb]. apply IH. intros x I. apply B. right. exact I.
        + rewrite X. cbn [is_empty negb]. rewrite andb_false_r.
          apply IH. intros x I. apply B. right. exact I. }
    rewrite F. reflexivity.
Qed.

(** ** The OSC client and the music tracker *)

Lemma lstrip_app_space (w x : pystr) :
  forallb isspace w = true -> lstrip (w ++ x) = lstrip x.
Proof.
  induction w as [|c w IH]; intros H; [reflexivity|].
  cbn [forallb] in H. apply andb_true_iff in H. destruct H as [H1 H2].
  cbn [app lstrip]. rewrite H1. exact (IH H2).
Qed.

Lemma lstrip_app_nonspace (s x : pystr) :
  lstrip s <> [] -> lstrip (s ++ x) = lstrip s ++ x.
Proof.
  induction s as [|c s IH]; intros H; [contradiction|].
  cbn [app lstrip] in *. destruct (isspace c); [exact (IH H) | reflexivity].
Qed.

Lemma rstrip_app_space (x w : pystr) :
  forallb isspace w = true -> rstrip (x ++ w) = rstrip x.
Proof.
  intros H. unfold rstrip. rewrite rev_app_distr, lstrip_app_space;
    [reflexivity|].
  rewrite forallb_rev. exact H.
Qed.

(** Whitespace at the end does not change what [strip] returns. *)
Lemma strip_app_space (s w : pystr) :
  forallb isspace w = true -> strip (s ++ w) = strip s.
Proof.
  intros H. unfold strip.
  destruct (list_eq_dec N.eq_dec (lstrip s) []) as [E | E].
  - apply lstrip_nil_iff in E.
    assert (A : forallb isspace (s ++ w) = true)
      by (rewrite forallb_app, E, H; reflexivity).
    apply lstrip_nil_iff in A. apply lstrip_nil_iff in E.
    rewrite A, E. reflexivity.
  - rewrite lstrip_app_nonspace by exact E. apply rstrip_app_space, H.
Qed.

(** X20.  [send_music_info] raises nothing and calls the UDP client twice
    at most: first with the chatbox text, which is the stripped title when
    there is no artist and the stripped [title - artist] otherwise; then,
    only when the first call returned, with the avatar parameter, which is
    the stripped [title - artist] cut to 64 characters.  With no artist
    the parameter still carries the separator: for a title without
    whitespace around it, it is the title followed by [" -"]. *)
Theorem send_music_info_calls (udp : pystr -> pystr -> outcome unit)
    (title artist : pystr) :
  let calls := send_music_info udp title artist in
  let message :=
    if is_empty artist then strip title
    else strip (title ++ py " - " ++ artist) in
  let parameter := firstn 64 (strip (title ++ py " - " ++ artist)) in
  (length parameter <= 64)%nat /\
  (forall e, udp (py "/chatbox/input") message = Raise e ->
             calls = [(py "/chatbox/input", message)]) /\
  (forall u, udp (py "/chatbox/input") message = Ok u ->
             calls = [(py "/chatbox/input", message);
                      (py "/avatar/parameters/MusicInfo", parameter)]) /\
  (artist = [] -> title <> [] -> strip title = title ->
   message = title /\ parameter = firstn 64 (title ++ py " -")).
Proof.
  cbv zeta.
  assert (M : strip (title ++ py " "
                     ++ (if negb (is_empty artist)
                         then py "- " ++ artist else []))
              = if is_empty artist then strip title
                else strip (title ++ py " - " ++ artist)).
  { destruct artist as [|c r]; cbn [is_empty negb].
    - rewrite app_nil_r. apply strip_app_space. reflexivity.
    - reflexivity. }
  split; [apply firstn_le_length|].
  unfold send_music_info. rewrite M.
  split; [intros e E; rewrite E; reflexivity|].
  split; [intros u E; rewrite E; reflexivity|].
  intros -> N S. cbn [is_empty]. split; [exact S|].
  rewrite app_nil_r.
  replace (title ++ py " - ") with ((title ++ py " -") ++ py " ")
    by (rewrite <- app_assoc; reflexivity).
  rewrite strip_app_space by reflexivity.
  f_equal. apply strip_id.
  - intros c r E. destruct title as [|c0 t]; [contradiction|].
    cbn [app] in E. injection E as <- _.
    pose proof (lstrip_head (c0 :: t)) as L.
    assert (X : lstrip (c0 :: t) = c0 :: t).
    { unfold strip in S.
      destruct (lstrip_suffix (c0 :: t)) as [l El].
      destruct l as [|x l]; [exact (eq_sym El)|].
      exfalso.
      assert (Len : (length (rstrip (lstrip (c0 :: t)))
                     <= length (lstrip (c0 :: t)))%nat).
      { unfold rstrip. rewrite length_rev.
        destruct (lstrip_suffix (rev (lstrip (c0 :: t)))) as [l' El'].
        rewrite <- (length_rev (lstrip (c0 :: t))). rewrite El' at 2.
        rewrite length_app. lia. }
      rewrite S in Len. apply (f_equal (@length char)) in El.
      rewrite length_app in El. cbn [length] in *. lia. }
    rewrite X in L. exact L.
  - intros r c E.
    assert (c = 45%N).
    { apply (f_equal (@rev char)) in E.
      rewrite !rev_app_distr in E. cbn in E. injection E as E _.
      symmetry. exact E. }
    subst c. reflexivity.
Qed.

Lemma starts_with_refl (p : pystr) : starts_with p p = true.
Proof.
  induction p as [|c p IH]; [reflexivity|].
  cbn [starts_with]. rewrite N.eqb_refl. exact IH.
Qed.

(** A text without a hyphen holds no separator, nor does it with [" -"]
    after it. *)
Lemma no_hyphen_no_separator (x : pystr) :
  ~ In 45%N x ->
  contains (py " - ") (x ++ py " -") = false /\
  contains (py " - ") x = false.
Proof.
  intros H. split.
  - destruct (contains (py " - ") (x ++ py " -")) eqn:C; [|reflexivity].
    exfalso. induction x as [|c x IH]; [discriminate C|].
    cbn [app contains] in C. apply orb_true_iff in C. destruct C as [C | C].
    + destruct (starts_with_prefix _ _ C) as [rest E].
      cbn in E. injection E as _ E.
      destruct x as [|d x]; [discriminate E|].
      cbn [app] in E. injection E as -> _.
      apply H. right. left. reflexivity.
    + apply IH; [|exact C]. intros I. apply H. right. exact I.
  - destruct (contains (py " - ") x) eqn:C; [|reflexivity].
    exfalso. apply H. apply (contains_In _ _ 45%N C). right. left. reflexivity.
Qed.

(** X21.  The music tracker and the song poller read the title of a
    Spotify window in opposite orders.  For a window title
    [s - a - Spotify], where [s] and [a] hold no hyphen, the tracker
    reports the title [s] and the artist [a], and the poller the artist
    [s] and the title [a].  The tracker finds no track when no visible
    window has [spotify], in whatever case, in its title. *)
Theorem tracker_and_poller_disagree (s a : pystr) (w : Window)
    (song_info : option pystr) :
  ~ In 45%N s -> ~ In 45%N a ->
  strip s <> [] -> strip a <> [] -> lower (strip s) <> py "spotify" ->
  window_title w = s ++ py " - " ++ a ++ py " - Spotify" ->
  spotify_window_info (window_title w)
  = Some (Build_MusicInfo (strip s) (strip a) (py "Spotify") (py "Spotify")) /\
  song_of_window w song_info = (strip s, strip a, false) /\
  (forall visible_titles,
     (forall t, In t visible_titles ->
                contains (py "spotify") (lower t) = false) ->
     _get_spotify_info visible_titles = None).
Proof.
  intros Hs Ha Ns Na L E.
  destruct (no_hyphen_no_separator s Hs) as [S1 S2].
  destruct (no_hyphen_no_separator a Ha) as [A1 A2].
  split; [|split].
  - rewrite E. unfold spotify_window_info.
    set (body := s ++ py " - " ++ a).
    replace (s ++ py " - " ++ a ++ py " - Spotify")
      with (body ++ py " - Spotify")
      by (subst body; rewrite <- !app_assoc; reflexivity).
    assert (N : is_empty (body ++ py " - Spotify") = false).
    { destruct body; reflexivity. }
    rewrite N. cbn [negb andb].
    assert (C : contains (py "spotify") (lower (body ++ py " - Spotify"))
                = true).
    { unfold lower. rewrite map_app. apply contains_after. reflexivity. }
    rewrite C.
    assert (W : ends_with (py " - Spotify") (body ++ py " - Spotify") = true).
    { unfold ends_with. rewrite rev_app_distr.
      apply starts_with_app, starts_with_refl. }
    rewrite W.
    assert (F : firstn (length (body ++ py " - Spotify") - 10)
                  (body ++ py " - Spotify") = body).
    { rewrite length_app.
      replace (length body + length (py " - Spotify") - 10)%nat
        with (length body + 0)%nat by (cbn; lia).
      rewrite firstn_app_2. cbn [firstn]. apply app_nil_r. }
    rewrite F. subst body.
    assert (B : contains (py " - ") (s ++ py " - " ++ a) = true)
      by (apply contains_after, contains_app; reflexivity).
    rewrite B. unfold split_sep.
    rewrite (split_at_first (py " - ") [] s a ltac:(discriminate) S1).
    rewrite (split_at_none _ _ _ A2). cbn [rev app].
    destruct (strip s) as [|c0 s'] eqn:Es; [contradiction|].
    destruct (strip a) as [|c1 a'] eqn:Ea; [contradiction|].
    cbn [is_empty negb andb].
    destruct (str_eqb (lower (c0 :: s')) (py "spotify")) eqn:Q;
      [apply str_eqb_eq in Q; contradiction | reflexivity].
  - rewrite (song_first_two w song_info s (a ++ py " - Spotify") E S1).
    unfold split_sep.
    change (a ++ py " - Spotify") with (a ++ py " - " ++ py "Spotify").
    rewrite (split_at_first (py " - ") [] a (py "Spotify")
               ltac:(discriminate) A1).
    reflexivity.
  - intros ts C. induction ts as [|t ts IH]; [reflexivity|].
    cbn [_get_spotify_info]. unfold spotify_window_info at 1.
    rewrite (C t (or_introl eq_refl)), andb_false_r.
    apply IH. intros x I. apply C. right. exact I.
Qed.

(** The window title [One More Time - Daft Punk - Spotify]. *)
Lemma tracker_and_poller_disagree_witness :
  spotify_window_info (py "One More Time - Daft Punk - Spotify")
  = Some (Build_MusicInfo (py "One More Time") (py "Daft Punk")
            (py "Spotify") (py "Spotify")) /\
  song_of_window
    (Build_Window (py "Spotify.exe")
       (py "One More Time - Daft Punk - Spotify")) None
  = (py "One More Time", py "Daft Punk", false).
Proof.
  assert (H1 : ~ In 45%N (py "One More Time")).
  { intros I. cbn in I.
    repeat (destruct I as [I | I]; [discriminate I|]). exact I. }
  assert (H2 : ~ In 45%N (py "Daft Punk")).
  { intros I. cbn in I.
    repeat (destruct I as [I | I]; [discriminate I|]). exact I. }
  destruct (tracker_and_poller_disagree (py "One More Time") (py "Daft Punk")
              (Build_Window (py "Spotify.exe")
                 (py "One More Time - Daft Punk - Spotify")) None
              H1 H2 ltac:(discriminate) ltac:(discriminate)
              ltac:(discriminate) eq_refl) as (T & P & _).
  split; [exact T | exact P].
Defined.

(** ** The polls *)

Lemma advances_refl (a : VTAuderApp) : advances a a.
Proof. split; [lia | left; reflexivity]. Qed.

Lemma advances_trans (a b c : VTAuderApp) :
  advances a b -> advances b c -> advances a c.
Proof.
  intros (N1 & T1) (N2 & T2). split; [lia|].
  destruct T2 as [T2 | [T2 | (i & T2 & B)]].
  - rewrite T2. destruct T1 as [T1 | [T1 | (i & T1 & B)]];
      [left; exact T1 | right; left; exact T1|].
    right. right. exists i. split; [exact T1 | lia].
  - right. left. exact T2.
  - right. right. exists i. split; [exact T2 | lia].
Qed.

Lemma drain_next_id (env : Env) (self : VTAuderApp) :
  (root_next_id self
   <= root_next_id (snd (_process_message_queue env self)))%nat.
Proof.
  unfold _process_message_queue.
  destruct (_queue_processing self || is_empty (_message_queue self));
    [cbn [snd]; lia|].
  fields.
  destruct ((_chatbox_timeout self
             && (time_drain env <? _chatbox_timeout_until self))
            || (time_drain env - _last_chatbox_sent self <? _min_interval));
    fields; [lia|].
  destruct (_message_queue self) as [|m rest]; fields; [lia|].
  pose proof (send_direct_frame env
                (set_message_queue rest (set_queue_processing true self))
                (text m)) as F.
  destruct (_send_message_direct env _ (text m)) as [ok s].
  fields. destruct F as (_ & _ & _ & _ & _ & F).
  destruct ok; fields; rewrite F; lia.
Qed.

Lemma drain_advances (env : Env) (self : VTAuderApp) :
  advances self (snd (_process_message_queue env self)).
Proof.
  split; [apply drain_next_id|]. left.
  pose proof (drain_animation env self) as (_ & _ & _ & _ & _ & A). exact A.
Qed.

Lemma add_advances (env : Env) (self : VTAuderApp) (t : pystr)
    (ty : MessageType) :
  advances self (snd (add_message_to_queue env self t ty)).
Proof.
  destruct (fst (validate_message t)) eqn:V.
  - rewrite add_valid by exact V. fields.
    destruct (_queue_processing self); cbn [negb];
      [split; [fields; lia | left; reflexivity]|].
    match goal with
    | |- advances _ (snd (_process_message_queue ?e ?s1)) =>
        pose proof (drain_advances e s1) as (D1 & D2)
    end.
    split; [exact D1 | exact D2].
  - rewrite add_invalid by exact V. apply advances_refl.
Qed.

(** Scheduling a tick and remembering it. *)
Lemma remember_advances (env : Env) (ms : Z) (a b : VTAuderApp) :
  advances a b ->
  advances a
    (set_music_anim_after_id (Some (root_next_id b))
       (snd (root_after env ms cb_animate_music_status b))).
Proof.
  intros (N & T). split; fields; [lia|].
  right. right. exists (root_next_id b). split; [reflexivity | lia].
Qed.

Lemma animate_advances (env : Env) (self : VTAuderApp) (send_osc : bool) :
  advances self (animate_music_status env self send_osc).
Proof.
  unfold animate_music_status.
  set (body := if negb (_music_anim_running self) then _ else _).
  assert (H : advances self body).
  { subst body. unfold restart_animation.
    destruct (_music_anim_running self); cbn [negb].
    - destruct (compose_status env _) as [anim_text | e].
      + destruct (send_osc || _)%bool.
        * pose proof (add_advances env self anim_text music) as A.
          destruct A as (A1 & A2). split; [exact A1 | exact A2].
        * split; [fields; lia | left; reflexivity].
      + destruct (started self); [|apply advances_refl].
        exact (remember_advances env 1500
                 self (set_music_anim_running true self)
                 (advances_refl self)).
    - destruct (started self); [|apply advances_refl].
      exact (remember_advances env 1000
               self (set_music_anim_running true self)
               (advances_refl self)). }
  clearbody body.
  destruct (_music_anim_running body); [|exact H].
  exact (remember_advances env MUSIC_ANIMATION_INTERVAL self body H).
Qed.

Lemma start_advances (env : Env) (self : VTAuderApp) (t r : pystr) :
  advances self (start_music_animation env self t r).
Proof.
  unfold start_music_animation.
  match goal with
  | |- advances _ (animate_music_status _ ?s0 _) =>
      pose proof (animate_advances env s0 true) as (A1 & A2)
  end.
  split; [exact A1 | exact A2].
Qed.

Lemma stop_advances (self : VTAuderApp) :
  advances self (stop_music_animation self).
Proof.
  unfold stop_music_animation. fields.
  destruct (_music_anim_after_id self) eqn:E; split; fields;
    [lia | right; left; reflexivity | lia | left; reflexivity].
Qed.

Lemma callback_advances (env : Env) (cb : Callback) (self : VTAuderApp) :
  advances self (run_callback env cb self).
Proof.
  destruct cb; cbn [run_callback];
    [apply drain_advances | apply animate_advances | apply start_advances].
Qed.

Lemma polls_filter (f : SongTimer -> bool) (d : SongApp) :
  polls (set_song_pending (filter f (song_pending d)) d) = filter f (polls d).
Proof. unfold polls. song_fields. apply filter_comm. Qed.

Lemma filter_all {A} (f : A -> bool) (l : list A) :
  (forall x, In x l -> f x = true) -> filter f l = l.
Proof.
  induction l as [|a l IH]; intros H; [reflexivity|].
  cbn [filter]. rewrite (H a (or_introl eq_refl)). f_equal.
  apply IH. intros x I. apply H. right. exact I.
Qed.

Lemma set_core_numbered (a : VTAuderApp) (d : SongApp) :
  advances (core d) a -> numbered d -> numbered (set_core a d).
Proof.
  intros (N & T) (H1 & H2 & H3 & H4).
  split; [|split; [|split]]; song_fields.
  - intros t I. specialize (H1 t I). lia.
  - intros i E. destruct T as [T | [T | (j & T & B)]].
    + rewrite T in E. specialize (H2 i E). lia.
    + congruence.
    + assert (i = j) by congruence. lia.
  - intros i E. specialize (H3 i E). lia.
  - intros t I. destruct (H4 t I) as [A B]. split; [|exact B].
    destruct T as [T | [T | (j & T & C)]].
    + rewrite T. exact A.
    + rewrite T. discriminate.
    + rewrite T. intros X. injection X as X. specialize (H1 t I). lia.
Qed.

Lemma on_core_numbered (f : VTAuderApp -> VTAuderApp) (d : SongApp) :
  advances (core d) (f (core d)) -> numbered d -> numbered (on_core f d).
Proof. apply set_core_numbered. Qed.

Lemma after_polls (e : SongEnv) (ms : Z) (cb : SongCallback) (d : SongApp) :
  polls (snd (song_after e ms cb d))
  = polls d
    ++ match cb with
       | cb_send_and_repeat_song_info =>
           [Build_SongTimer (root_next_id (core d)) (tk_now (base e) + ms) cb]
       | _ => []
       end.
Proof.
  unfold polls, song_after. song_fields. rewrite filter_app.
  cbn [filter song_callback]. destruct cb; reflexivity.
Qed.

Lemma after_numbered (e : SongEnv) (ms : Z) (cb : SongCallback)
    (d : SongApp) :
  numbered d -> numbered (snd (song_after e ms cb d)).
Proof.
  intros (H1 & H2 & H3 & H4).
  split; [|split; [|split]].
  - intros t I. rewrite after_polls in I. song_fields. fields.
    apply in_app_or in I. destruct I as [I | I].
    + specialize (H1 t I). lia.
    + destruct cb; try contradiction. destruct I as [<- | []].
      cbn [song_after_id]. lia.
  - intros i E. song_fields. fields. specialize (H2 i E). lia.
  - intros i E. song_fields. fields. specialize (H3 i E). lia.
  - intros t I. rewrite after_polls in I. song_fields. fields.
    apply in_app_or in I. destruct I as [I | I]; [exact (H4 t I)|].
    destruct cb; try contradiction. destruct I as [<- | []].
    cbn [song_after_id]. split; intros X.
    + specialize (H2 _ X). lia.
    + specialize (H3 _ X). lia.
Qed.

Lemma filter_numbered (f : SongTimer -> bool) (d : SongApp) :
  numbered d -> numbered (set_song_pending (filter f (song_pending d)) d).
Proof.
  intros (H1 & H2 & H3 & H4).
  split; [|split; [|split]].
  - intros t I. rewrite polls_filter in I. apply filter_In in I.
    exact (H1 t (proj1 I)).
  - exact H2.
  - exact H3.
  - intros t I. rewrite polls_filter in I. apply filter_In in I.
    exact (H4 t (proj1 I)).
Qed.

Lemma cancel_numbered (id : nat) (d : SongApp) :
  numbered d -> numbered (song_after_cancel id d).
Proof.
  intros H. unfold song_after_cancel.
  apply (filter_numbered _ (on_core (root_after_cancel id) d)).
  apply on_core_numbered; [|exact H].
  split; [fields; lia | left; reflexivity].
Qed.

(** The two stops of the poller cancel no poll. *)
Lemma stop_music_numbered (d : SongApp) :
  numbered d ->
  numbered (song_stop_music_animation d) /\
  polls (song_stop_music_animation d) = polls d /\
  _dvd_anim_after_id (song_stop_music_animation d) = _dvd_anim_after_id d.
Proof.
  intros H. unfold song_stop_music_animation.
  pose proof (on_core_numbered stop_music_animation d
                (stop_advances (core d)) H) as H'.
  destruct (_music_anim_after_id (core d)) as [id|] eqn:E.
  - split; [exact (filter_numbered _ (on_core stop_music_animation d) H')|].
    split; [|reflexivity].
    rewrite (polls_filter _ (on_core stop_music_animation d)).
    change (polls (on_core stop_music_animation d)) with (polls d).
    apply filter_all. intros t I.
    destruct H as (_ & _ & _ & H4). destruct (H4 t I) as [A _].
    apply negb_true_iff, Nat.eqb_neq. intros X. apply A. rewrite E, X.
    reflexivity.
  - split; [exact H'|]. split; reflexivity.
Qed.

Lemma stop_dvd_numbered (d : SongApp) :
  numbered d ->
  numbered (stop_dvd_animation d) /\
  polls (stop_dvd_animation d) = polls d.
Proof.
  intros H. unfold stop_dvd_animation. song_fields.
  destruct (_dvd_anim_after_id d) as [id|] eqn:E.
  - pose proof (cancel_numbered id (set_dvd_anim_running false d) H)
      as (C1 & C2 & C3 & C4).
    split.
    + split; [exact C1|]. split; [exact C2|].
      split; [intros i X; discriminate X|].
      intros t I. destruct (C4 t I) as [A _].
      split; [exact A | discriminate].
    + change (polls (song_after_cancel id (set_dvd_anim_running false d))
              = polls d).
      unfold song_after_cancel.
      rewrite (polls_filter _
                 (on_core (root_after_cancel id)
                    (set_dvd_anim_running false d))).
      change (polls (on_core (root_after_cancel id)
                       (set_dvd_anim_running false d)))
        with (polls d).
      apply filter_all. intros t I.
      destruct H as (_ & _ & _ & H4). destruct (H4 t I) as [_ B].
      apply negb_true_iff, Nat.eqb_neq. intros X. apply B. rewrite E, X.
      reflexivity.
  - split; [exact H | reflexivity].
Qed.

Lemma animate_dvd_numbered (e : SongEnv) (d : SongApp) :
  numbered d ->
  numbered (animate_dvd_status e d) /\
  polls (animate_dvd_status e d) = polls d.
Proof.
  intros H. unfold animate_dvd_status.
  destruct (_dvd_anim_running d); cbn [negb]; [|split; [exact H | reflexivity]].
  match goal with
  | |- context [on_core ?f d] =>
      pose proof (on_core_numbered f d
                    (add_advances _ _ _ _) H) as H1;
      set (d1 := on_core f d) in *
  end.
  assert (P1 : polls d1 = polls d) by reflexivity.
  clearbody d1.
  set (ms := choice (dvd_speed_draw e) DVD_SPEEDS 1000).
  change (numbered
            (set_dvd_anim_after_id (Some (root_next_id (core d1)))
               (snd (song_after e ms cb_animate_dvd_status d1))) /\
          polls (set_dvd_anim_after_id (Some (root_next_id (core d1)))
                   (snd (song_after e ms cb_animate_dvd_status d1)))
          = polls d).
  pose proof (after_numbered e ms cb_animate_dvd_status d1 H1)
    as (A1 & A2 & A3 & A4).
  pose proof (after_polls e ms cb_animate_dvd_status d1) as P2.
  rewrite app_nil_r in P2.
  assert (N2 : root_next_id
                 (core (snd (song_after e ms cb_animate_dvd_status d1)))
               = S (root_next_id (core d1))) by reflexivity.
  destruct H1 as (N1 & _).
  set (d2 := snd (song_after e ms cb_animate_dvd_status d1)) in *.
  clearbody d2. split.
  - split; [exact A1|]. split; [exact A2|]. split.
    + intros i X.
      change (Some (root_next_id (core d1)) = Some i) in X.
      injection X as <-.
      change (root_next_id (core d1) < root_next_id (core d2))%nat. lia.
    + intros t I.
      change (In t (polls d2)) in I.
      destruct (A4 t I) as [B _]. split; [exact B|].
      change (Some (root_next_id (core d1)) <> Some (song_after_id t)).
      intros X. injection X as X.
      rewrite P2 in I. specialize (N1 t I). lia.
  - change (polls d2 = polls d). rewrite P2. exact P1.
Qed.

Lemma animate_dvd_keep (e : SongEnv) (d : SongApp) :
  _keep_sending_song (animate_dvd_status e d) = _keep_sending_song d.
Proof.
  unfold animate_dvd_status. destruct (_dvd_anim_running d); reflexivity.
Qed.

(** The poller cancels no poll, and schedules one more when
    [_keep_sending_song] holds. *)
Lemma poll_numbered (e : SongEnv) (d : SongApp) :
  numbered d ->
  numbered (send_and_repeat_song_info e d) /\
  (selected_window d <> None -> started (core d) = true ->
   vrchat_enabled e = true ->
   exists id,
     polls (send_and_repeat_song_info e d)
     = polls d
       ++ (if _keep_sending_song d
           then [Build_SongTimer id (tk_now (base e) + 5000)
                   cb_send_and_repeat_song_info]
           else [])).
Proof.
  intros H. unfold send_and_repeat_song_info.
  destruct (selected_window d) as [selected|];
    [|split; [exact H | intros N; contradiction]].
  destruct (started (core d)); cbn [negb orb];
    [|split; [exact H | intros _ X; discriminate X]].
  destruct (vrchat_enabled e); cbn [negb];
    [|split; [exact H | intros _ _ X; discriminate X]].
  destruct (stop_music_numbered d H) as (H1 & P1 & _).
  destruct (stop_dvd_numbered _ H1) as (H2 & P2).
  pose proof (stops_flags d) as (_ & _ & K2 & _). cbv zeta in K2.
  rewrite P1 in P2.
  set (d2 := stop_dvd_animation (song_stop_music_animation d)) in *.
  clearbody d2. cbv zeta.
  match goal with
  | |- context [set_selected_window (Some ?s) d2] =>
      set (sel := s); set (d3 := set_selected_window (Some sel) d2)
  end.
  assert (H3 : numbered d3) by exact H2.
  assert (P3 : polls d3 = polls d) by exact P2.
  assert (K3 : _keep_sending_song d3 = _keep_sending_song d) by exact K2.
  clearbody d3.
  destruct (song_of_window sel _) as [[artist title] is_paused].
  match goal with
  | |- context [if _keep_sending_song ?x then _ else _] => set (X := x)
  end.
  assert (B : numbered X /\ polls X = polls d /\
              _keep_sending_song X = _keep_sending_song d).
  { subst X. destruct (negb (is_empty title)).
    - destruct is_paused.
      + unfold start_dvd_animation.
        match goal with
        | |- context [animate_dvd_status e ?y] =>
            assert (Hy : numbered y) by exact H3;
            destruct (animate_dvd_numbered e y Hy) as (A1 & A2);
            pose proof (animate_dvd_keep e y) as A3
        end.
        split; [exact A1|].
        split; [exact (eq_trans A2 P3) | exact (eq_trans A3 K3)].
      + assert (G : forall a,
          advances (core d3) a ->
          numbered (set_last_sent (Some title) (Some artist)
                      (set_core (start_music_animation (base e) a
                                   title artist) d3)) /\
          polls (set_last_sent (Some title) (Some artist)
                   (set_core (start_music_animation (base e) a
                                title artist) d3)) = polls d /\
          _keep_sending_song
            (set_last_sent (Some title) (Some artist)
               (set_core (start_music_animation (base e) a
                            title artist) d3)) = _keep_sending_song d).
        { intros a A.
          pose proof (set_core_numbered
                        (start_music_animation (base e) a title artist) d3
                        (advances_trans _ _ _ A (start_advances _ _ _ _))
                        H3) as N.
          split; [exact N|]. split; [exact P3 | exact K3]. }
        match goal with
        | |- context [if ?c then _ else _] =>
            match c with
            | match last_sent_song_info _ with _ => _ end => destruct c
            end
        end.
        * pose proof (add_advances (base e) (core d3)
                        (next_song_msg title artist) general) as A.
          unfold send_chatbox_message.
          destruct (add_message_to_queue (base e) (core d3)
                      (next_song_msg title artist) general) as [sent a].
          cbn [snd] in A.
          destruct sent; apply G; destruct A as (A1 & A2);
            (split; [exact A1 | exact A2]).
        * unfold on_core. apply G, advances_refl.
    - split; [apply after_numbered, H3|].
      split; [rewrite after_polls, app_nil_r; exact P3 | exact K3]. }
  clearbody X. destruct B as (B1 & B2 & B3). rewrite B3.
  destruct (_keep_sending_song d).
  - split; [apply after_numbered, B1|].
    intros _ _ _. exists (root_next_id (core X)).
    rewrite after_polls, B2. reflexivity.
  - split; [exact B1|]. intros _ _ _. exists 0%nat.
    rewrite app_nil_r. exact B2.
Qed.

Lemma select_numbered (e : SongEnv) (d : SongApp) (w : Window) :
  numbered d ->
  numbered (select_window e d w) /\
  (started (core d) = true -> vrchat_enabled e = true ->
   exists id,
     polls (select_window e d w)
     = polls d
       ++ [Build_SongTimer id (tk_now (base e) + 5000)
             cb_send_and_repeat_song_info]).
Proof.
  intros H. unfold select_window, refresh_sources.
  set (d1 := set_selected_window (Some w) d).
  assert (H1 : numbered d1) by exact H.
  assert (P1 : polls d1 = polls d) by reflexivity.
  assert (S1 : started (core d1) = started (core d)) by reflexivity.
  assert (W1 : selected_window d1 = Some w) by reflexivity.
  clearbody d1.
  set (d2 := if refresh_rearms e
             then snd (song_after e 2000 cb_configure_widget d1) else d1).
  assert (H2 : numbered d2).
  { subst d2. destruct (refresh_rearms e); [apply after_numbered|]; exact H1. }
  assert (P2 : polls d2 = polls d).
  { subst d2. destruct (refresh_rearms e); [|exact P1].
    rewrite after_polls, app_nil_r. exact P1. }
  assert (S2 : started (core d2) = started (core d)).
  { subst d2. destruct (refresh_rearms e); exact S1. }
  assert (W2 : selected_window d2 = Some w).
  { subst d2. destruct (refresh_rearms e); exact W1. }
  clearbody d2. rewrite S2.
  destruct (started (core d)); cbn [andb];
    [|split; [exact H2 | intros X; discriminate X]].
  destruct (vrchat_enabled e) eqn:En;
    [|split; [exact H2 | intros _ X; discriminate X]].
  set (d3 := set_keep_sending_song true (set_last_sent None None d2)).
  assert (H3 : numbered d3) by exact H2.
  destruct (poll_numbered e d3 H3) as (A1 & A2).
  split; [exact A1|]. intros _ _.
  destruct A2 as (id & A2);
    [subst d3; cbn [selected_window set_keep_sending_song set_last_sent];
     rewrite W2; discriminate
    |subst d3; cbn [core set_keep_sending_song set_last_sent]; exact S2
    |exact En|].
  exists id. rewrite A2. subst d3.
  cbn [_keep_sending_song set_keep_sending_song].
  change (polls (set_keep_sending_song true (set_last_sent None None d2)))
    with (polls d2).
  rewrite P2. reflexivity.
Qed.

Lemma song_step_numbered (e : SongEnv) (ev : SongEvent) (d : SongApp) :
  numbered d -> numbered (song_step e ev d).
Proof.
  intros H. destruct ev as [w | | message | t ty | id]; cbn [song_step].
  - apply select_numbered, H.
  - apply on_core_numbered; [|exact H].
    split; [fields; lia | left; reflexivity].
  - unfold send_vrchat_message.
    destruct (negb (is_empty message)); [|exact H].
    pose proof (add_advances (base e) (core d)
                  (format_message_with_time (clock e) message) manual) as A.
    unfold send_chatbox_message.
    destruct (add_message_to_queue (base e) (core d)
                (format_message_with_time (clock e) message) manual)
      as [sent a].
    cbn [snd] in A.
    pose proof (set_core_numbered a d A H) as N.
    destruct sent; [exact N | apply after_numbered, N].
  - apply on_core_numbered; [apply add_advances | exact H].
  - pose proof (cancel_numbered id d H) as C.
    destruct (find _ (root_pending (core d))) as [tm|].
    + apply on_core_numbered; [apply callback_advances | exact C].
    + destruct (find _ (song_pending d)) as [tm|]; [|exact H].
      destruct (song_callback tm); cbn [run_song_callback].
      * apply animate_dvd_numbered, C.
      * apply poll_numbered, C.
      * exact C.
Qed.

Lemma song_run_numbered (evs : list (SongEnv * SongEvent)) (d : SongApp) :
  numbered d -> numbered (song_run evs d).
Proof.
  revert d. induction evs as [|[e ev] evs IH]; intros d H; [exact H|].
  cbn [song_run]. apply IH, song_step_numbered, H.
Qed.

Lemma new_song_app_numbered : numbered new_song_app.
Proof.
  split; [intros t []|]. split; [intros i X; discriminate X|].
  split; [intros i X; discriminate X | intros t []].
Qed.

(** X22.  No poll is ever cancelled.  In every state that the application
    reaches from its start, a selection of a window on a started
    application with the VRChat switch on leaves the pending polls
    pending and schedules one more, five seconds later; and a poll that
    passes its guard while [_keep_sending_song] holds does the same.  So
    every selection adds a poll that keeps renewing itself, next to the
    ones of the selections before. *)
Theorem every_selection_adds_a_poll (evs : list (SongEnv * SongEvent))
    (e : SongEnv) (w : Window) :
  started (core (song_run evs new_song_app)) = true ->
  vrchat_enabled e = true ->
  (exists id,
     polls (select_window e (song_run evs new_song_app) w)
     = polls (song_run evs new_song_app)
       ++ [Build_SongTimer id (tk_now (base e) + 5000)
             cb_send_and_repeat_song_info]) /\
  (selected_window (song_run evs new_song_app) <> None ->
   _keep_sending_song (song_run evs new_song_app) = true ->
   exists id,
     polls (send_and_repeat_song_info e (song_run evs new_song_app))
     = polls (song_run evs new_song_app)
       ++ [Build_SongTimer id (tk_now (base e) + 5000)
             cb_send_and_repeat_song_info]).
Proof.
  intros S En.
  pose proof (song_run_numbered evs new_song_app new_song_app_numbered) as H.
  set (d := song_run evs new_song_app) in *. clearbody d.
  split.
  - exact (proj2 (select_numbered e d w H) S En).
  - intros W K.
    destruct (proj2 (poll_numbered e d H) W S En) as (id & P).
    rewrite K in P. exists id. exact P.
Qed.

(** A second selection, five seconds after the first: two polls are
    pending. *)
Lemma every_selection_adds_a_poll_witness :
  started (core (song_run (firstn 2 song_session) new_song_app)) = true /\
  vrchat_enabled paused_env = true /\
  length (polls (select_window paused_env
                   (song_run (firstn 2 song_session) new_song_app)
                   spotify_paused)) = 2%nat.
Proof.
  split; [reflexivity|]. split; [reflexivity|].
  destruct (every_selection_adds_a_poll (firstn 2 song_session) paused_env
              spotify_paused eq_refl eq_refl) as ((id & P) & _).
  rewrite P, length_app. reflexivity.
Defined.
